(** * Haven: the real-time call orchestration core

    A shallow embedding of the server-side call core of the Haven
    case-management application, one module per source unit, named after
    the paths under which [server/routes.ts] imports them:

    - [JS]               the string and regular-expression primitives used,
    - [LlmConversation]  [./services/llm-conversation]: the conversation
                         engine,
    - [Modulate]         [./services/modulate]: the emotion classifier
                         ([analyzeEmotions], [llmEmotionAnalysis],
                         [simpleKeywordFallback]),
    - [CallState]        [./call-state]: the active-call registry,
    - [Websocket]        [./websocket]: the broadcast hub,
    - [Routes]           [server/routes.ts]: the voice-turn and end-call
                         routes and [finalizeCall].

    Modelling choices.
    - A JavaScript string is the list of its UTF-16 code units.
    - [ActiveCall] objects are mutated in place and reached through
      several references, so the registry is a heap of objects plus the
      map from [callId] to addresses.
    - Whatever the code obtains from the outside (replies of the model and
      of the affect-analysis provider, the clock, failing storage writes)
      is an explicit argument of the function that asks for it; a handler
      runs to completion before the next one starts.
    - A number is a rational or NaN.  A rational stands for the double
      nearest to it; sums, products and quotients are rounded to
      binary64 where the code computes them.
    - The body of the provider's reply is taken at the shape of its
      TypeScript type, and the label of an entry of the model's reply is
      a string or is missing; the confidence of such an entry may be any
      JSON value. *)

From Stdlib Require Import QArith Qround Qabs Qpower Lqa.
From stdpp Require Import gmap list strings pretty.

Open Scope nat_scope.

(** ** JavaScript strings *)

Module JS.

(** A string is a list of UTF-16 code units. *)
Abbreviation jsstring := (list N).

(** Literals: every character of an ASCII literal is one code unit. *)
Definition lit (s : string) : jsstring :=
  (λ a, Ascii.N_of_ascii a) <$> String.list_ascii_of_string s.

(** ECMAScript [WhiteSpace] and [LineTerminator] code points, the
    characters removed by [String.prototype.trim]. *)
Definition isWhiteSpace (c : N) : bool :=
  ((9 <=? c) && (c <=? 13) || (c =? 32) || (c =? 160) || (c =? 5760)
   || (8192 <=? c) && (c <=? 8202) || (c =? 8232) || (c =? 8233)
   || (c =? 8239) || (c =? 8287) || (c =? 12288) || (c =? 65279))%N.

Fixpoint trimStart (s : jsstring) : jsstring :=
  match s with
  | c :: s' => if isWhiteSpace c then trimStart s' else s
  | [] => []
  end.

Definition trimEnd (s : jsstring) : jsstring :=
  reverse (trimStart (reverse s)).

Definition trim (s : jsstring) : jsstring := trimEnd (trimStart s).

(** Truthiness of a string: non-empty. *)
Definition truthy (s : jsstring) : bool :=
  match s with [] => false | _ => true end.

Fixpoint startsWith (p s : jsstring) : bool :=
  match p, s with
  | [], _ => true
  | a :: p', b :: s' => (a =? b)%N && startsWith p' s'
  | _ :: _, [] => false
  end.

(** [s.includes(p)]: [p] occurs at some position of [s]. *)
Fixpoint includes (s p : jsstring) : bool :=
  startsWith p s ||
  match s with
  | [] => false
  | _ :: s' => includes s' p
  end.

(** [s.replace(p, r)] with a string pattern: only the leftmost
    occurrence of [p] is replaced. *)
Fixpoint replace (s p r : jsstring) : jsstring :=
  if startsWith p s then r ++ drop (length p) s
  else match s with
       | [] => []
       | c :: s' => c :: replace s' p r
       end.

(** [s.split(/[.!?]+/)]: the pieces between maximal runs of sentence
    terminators; a run at either end leaves an empty piece there. *)
Definition isTerminator (c : N) : bool :=
  ((c =? 46) || (c =? 33) || (c =? 63))%N.

Fixpoint splitGo (s : jsstring) (cur : jsstring) (inRun : bool)
  : list jsstring :=
  match s with
  | [] => [reverse cur]
  | c :: s' =>
      if isTerminator c then
        if inRun then splitGo s' [] true
        else reverse cur :: splitGo s' [] true
      else splitGo s' (c :: cur) false
  end.

Definition splitSentences (s : jsstring) : list jsstring :=
  splitGo s [] false.

(** [parts.join(sep)] *)
Fixpoint join (sep : jsstring) (parts : list jsstring) : jsstring :=
  match parts with
  | [] => []
  | [p] => p
  | p :: rest => p ++ sep ++ join sep rest
  end.

(** *** The regular expressions of the keyword matcher

    Every pattern has the shape [/\b(w1|w2|...)/i]: a word boundary
    followed by one of several literal alternatives, compared without
    regard to case.  Without the [u] flag case folding never identifies
    a non-ASCII code unit with an ASCII one, so folding ASCII letters is
    the whole of it. *)

Definition toLowerAscii (c : N) : N :=
  if ((65 <=? c) && (c <=? 90))%N then (c + 32)%N else c.

(** [\w] without the [u] flag: [A-Za-z0-9_]. *)
Definition isWordChar (c : N) : bool :=
  ((48 <=? c) && (c <=? 57) || (65 <=? c) && (c <=? 90)
   || (97 <=? c) && (c <=? 122) || (c =? 95))%N.

Fixpoint startsWithCI (p s : jsstring) : bool :=
  match p, s with
  | [], _ => true
  | a :: p', b :: s' =>
      (toLowerAscii a =? toLowerAscii b)%N && startsWithCI p' s'
  | _ :: _, [] => false
  end.

(** [prev] tells whether the character before the current position is
    a word character ([false] at the start of the input). *)
Definition atBoundary (prev : bool) (s : jsstring) : bool :=
  xorb prev (match s with c :: _ => isWordChar c | [] => false end).

Fixpoint testGo (alts : list jsstring) (prev : bool) (s : jsstring)
  : bool :=
  (atBoundary prev s && existsb (λ w, startsWithCI w s) alts) ||
  match s with
  | [] => false
  | c :: s' => testGo alts (isWordChar c) s'
  end.

(** [/\b(alts)/i.test(s)] *)
Definition test (alts : list jsstring) (s : jsstring) : bool :=
  testGo alts false s.

(** *** Numbers

    A number is a rational or NaN.  [fl] rounds a rational to the nearest
    binary64 value, ties to the even significand, as every arithmetic
    operation on doubles rounds its exact result; the exponent range is
    not bounded, the magnitudes that occur here being far from its
    ends.

    [Num q] stands for the double [fl q]: a decimal constant of the
    source such as [0.3] is written [3 # 10], and so is a decimal of a
    reply.  Rounding is monotone, so [Math.min], [Math.max] and a test
    [<=] are taken on the rationals themselves.  Where the value of the
    double matters (in a sum, a product or a quotient, and in the
    comparator of a sort, which tells equal doubles from different
    ones) [fl] is written out. *)

Inductive number := Num (q : Q) | NaN.

(** [2^k] for an integer [k]. *)
Definition pow2 (k : Z) : Q := (2 ^ k)%Q.

(** The integer nearest to [y], the even one in a tie. *)
Definition roundEven (y : Q) : Z :=
  let f := Qfloor y in
  match ((y - inject_Z f) ?= (1 # 2))%Q with
  | Lt => f
  | Gt => (f + 1)%Z
  | Eq => if Z.even f then f else (f + 1)%Z
  end.

(** The binary exponent of [x > 0]: [2^e <= x < 2^(e+1)]. *)
Definition exponent (x : Q) : Z :=
  let e0 := (Z.log2 (Qnum x) - Z.log2 (Zpos (Qden x)))%Z in
  if Qle_bool (pow2 e0) x then e0 else (e0 - 1)%Z.

(** Rounding of [x > 0] to 53 significant bits. *)
Definition flPos (x : Q) : Q :=
  let e := exponent x in
  (inject_Z (roundEven (x * pow2 (52 - e))) * pow2 (e - 52))%Q.

Definition fl (x : Q) : Q :=
  match Qnum x with
  | Z0 => 0%Q
  | Zpos _ => flPos x
  | Zneg _ => (- flPos (- x))%Q
  end.

End JS.

Abbreviation jsstring := (list N).
Abbreviation number := JS.number.
Coercion JS.Num : Q >-> JS.number.
Bind Scope Q_scope with JS.number.
Definition js (s : string) : jsstring := JS.lit s.

(** ** Conversation engine ([llm-conversation.ts]) *)

Module LlmConversation.

Inductive Role := system | user | assistant.

Record ConversationTurn := {
  role : Role;
  content : jsstring;
}.

(** What [openai.chat.completions.create] did: it threw (or the reply
    had no [choices]), or [choices[0]?.message?.content] was read. *)
Inductive ChatOutcome :=
| ChatThrew
| ChatContent (content : option jsstring).

Definition CALL_COMPLETE : jsstring := js "[CALL_COMPLETE]".

Record NextResponse := {
  response : jsstring;
  isComplete : bool;
}.

(** [content || fallback] *)
Definition orElse (content : option jsstring) (fallback : jsstring)
  : jsstring :=
  match content with
  | Some c => if JS.truthy c then c else fallback
  | None => fallback
  end.

(** The request sent to the model: the system prompt, the history and
    the latest caller text. The reply is the [outcome] argument. *)
Definition generateNextResponse
    (conversationHistory : list ConversationTurn)
    (latestCallerText : jsstring) (outcome : ChatOutcome) : NextResponse :=
  match outcome with
  | ChatContent content =>
      let responseText :=
        orElse content
          (js "I appreciate you sharing that. Could you tell me a bit more?") in
      let isComplete := JS.includes responseText CALL_COMPLETE in
      let cleanedResponse :=
        JS.trim (JS.replace responseText CALL_COMPLETE []) in
      {| response := cleanedResponse; isComplete := isComplete |}
  | ChatThrew =>
      {| response :=
           js "Thank you for sharing that. Could you tell me a bit more about your situation?";
         isComplete := false |}
  end.

Definition generateInitialGreeting (outcome : ChatOutcome) : jsstring :=
  match outcome with
  | ChatContent content =>
      orElse content
        (js "Hello, thank you for calling Haven Housing Assistance. My name is Haven, and I'm here to help connect you with housing resources. Can you start by telling me about your current living situation?")
  | ChatThrew =>
      js "Hello, thank you for calling Haven Housing Assistance. I'm here to help connect you with housing resources. Can you start by telling me about your current living situation?"
  end.

End LlmConversation.

(** ** Emotion classifier ([services/modulate.ts])

    The running sentiment total and the quotients of the profile are
    computed in double arithmetic, with [JS.fl] around every sum,
    product and quotient; the counts of the profile are integers, which
    doubles hold exactly. *)

Module Modulate.

Abbreviation number := JS.number.

Record EmotionAnalysis := {
  timestamp : number;
  emotion : jsstring;
  confidence : number;
  text : jsstring;
}.

(** [EmotionProfile]: an object used as a map from label to number,
    with its keys in the order in which [Object.keys] lists them. *)
Abbreviation EmotionProfile := (list (jsstring * number)).

Record EmotionResult := {
  emotions : list EmotionAnalysis;
  profile : EmotionProfile;
  sentimentScore : number;
}.

(** *** What the outside world answered *)

(** The body of a 2xx reply of the affect-analysis provider; a field is
    [None] when it is missing. *)
Record ModulateData := {
  data_emotions : option (list EmotionAnalysis);
  data_profile : option EmotionProfile;
  data_sentiment_score : option number;
}.

Inductive ModulateOutcome :=
| NoApiKey                       (* MODULATE_API_KEY is not set *)
| FetchFailed                    (* fetch or json() threw, or !response.ok *)
| FetchOk (data : ModulateData).

(** A field of the model's JSON reply that the code reads as a number,
    by what [v || d] and then [Math.max] make of it:
    - [absent]: a falsy value (missing, [null], [false], [0], the empty
      string);
    - [numeric q]: a truthy value that converts to the number [q]
      (a number other than 0, [true], ["0.8"], [[5]]; an infinity is
      any [q] beyond the bounds that the code clamps to);
    - [nonNumeric]: a truthy value that converts to NaN (["high"], [{}]). *)
Inductive Loose :=
| absent
| numeric (q : Q)
| nonNumeric.

(** One entry of the array found in the model's JSON reply; the label
    is [None] when it is missing. *)
Record LlmSegment := {
  seg_emotion : option jsstring;
  seg_confidence : Loose;
}.

Inductive LlmOutcome :=
| LlmThrew                       (* the request threw *)
| LlmUnparseable                 (* JSON.parse threw *)
| LlmResults (results : list (option LlmSegment)).

Record AnalysisEnv := {
  modulate : ModulateOutcome;
  llm : LlmOutcome;
}.

(** *** Shared pieces of the two local classifiers *)

Definition neutral : jsstring := js "neutral".

(** [Math.max(a, b)] and [Math.min(a, b)]: NaN when an argument is. *)
Definition Math_max (a b : number) : number :=
  match a, b with
  | JS.Num x, JS.Num y => JS.Num (if Qle_bool x y then y else x)
  | _, _ => JS.NaN
  end.

Definition Math_min (a b : number) : number :=
  match a, b with
  | JS.Num x, JS.Num y => JS.Num (if Qle_bool x y then x else y)
  | _, _ => JS.NaN
  end.

(** [Math.round(x)] of a number that is not NaN: the nearest integer,
    halves towards +infinity. *)
Definition Math_round (x : Q) : Q :=
  inject_Z (Qfloor (x + (1 # 2))).

(** [n || d] for a possibly missing number: 0 and NaN are falsy. *)
Definition numOr (n : option number) (d : Q) : Q :=
  match n with
  | Some (JS.Num x) => if Qeq_bool x 0 then d else x
  | Some JS.NaN | None => d
  end.

(** [v || d] for a field of the reply, converted to a number. *)
Definition looseOr (v : Loose) (d : Q) : number :=
  match v with
  | absent => JS.Num d
  | numeric q => JS.Num q
  | nonNumeric => JS.NaN
  end.

(** [s || d] for a possibly missing string: the empty string is falsy. *)
Definition strOr (s : option jsstring) (d : jsstring) : jsstring :=
  match s with
  | Some x => if JS.truthy x then x else d
  | None => d
  end.

(** **** The counting object

    [profile] is a plain object, so a read of [profile[emotion]] that
    finds no own property goes on to [Object.prototype]. *)

(** The names under which [Object.prototype] holds a function. *)
Definition inheritedMethods : list jsstring :=
  js <$> ["constructor"; "hasOwnProperty"; "isPrototypeOf";
          "propertyIsEnumerable"; "toLocaleString"; "toString"; "valueOf";
          "__defineGetter__"; "__defineSetter__"; "__lookupGetter__";
          "__lookupSetter__"].

(** The accessor of [Object.prototype]: reading it yields the prototype,
    assigning a string to it does nothing. *)
Definition protoKey : jsstring := js "__proto__".

(** A value of the counting object: a count, or the string that
    [f + 1] is for an inherited function [f] (and that stays a string
    when 1 is added again). *)
Inductive Bucket :=
| counter (n : nat)
| spoilt.

(** [v + 1] for the value found under an own key. *)
Definition next (v : Bucket) : Bucket :=
  match v with
  | counter n => counter (S n)
  | spoilt => spoilt
  end.

(** [(inherited || 0) + 1] for a key that is not an own key. *)
Definition first (emotion : jsstring) : Bucket :=
  if decide (emotion ∈ inheritedMethods) then spoilt else counter 1.

(** The value of a decimal digit. *)
Definition digit (c : N) : option N :=
  if ((48 <=? c) && (c <=? 57))%N then Some (c - 48)%N else None.

Fixpoint digits (acc : N) (s : jsstring) : option N :=
  match s with
  | [] => Some acc
  | c :: s' =>
      match digit c with
      | Some d => digits (10 * acc + d)%N s'
      | None => None
      end
  end.

(** A key that is an array index: the canonical decimal form of an
    integer from 0 to [2^32 - 2]. *)
Definition arrayIndex (key : jsstring) : option N :=
  match key with
  | [] => None
  | c :: rest =>
      if (c =? 48)%N && negb (bool_decide (rest = [])) then None
      else match digits 0 key with
           | Some n => if (n <=? 4294967294)%N then Some n else None
           | None => None
           end
  end.

(** Whether a new key [k] is listed before the existing key [k']:
    array indices come first, in ascending order, and the other keys
    follow in the order of their creation. *)
Definition listedBefore (k k' : jsstring) : bool :=
  match arrayIndex k, arrayIndex k' with
  | Some i, Some j => (i <? j)%N
  | Some _, None => true
  | None, _ => false
  end.

Fixpoint insertKey (k : jsstring) (v : Bucket)
    (counts : list (jsstring * Bucket)) : list (jsstring * Bucket) :=
  match counts with
  | [] => [(k, v)]
  | (k', v') :: rest =>
      if listedBefore k k' then (k, v) :: counts
      else (k', v') :: insertKey k v rest
  end.

(** [profile[emotion] = (profile[emotion] || 0) + 1] *)
Definition bump (emotion : jsstring) (counts : list (jsstring * Bucket))
  : list (jsstring * Bucket) :=
  if decide (emotion = protoKey) then counts
  else if decide (emotion ∈ counts.*1) then
    (λ kv, if decide (kv.1 = emotion) then (kv.1, next kv.2) else kv)
      <$> counts
  else insertKey emotion (first emotion) counts.

(** An index or a length as a rational. *)
Definition qNat (n : nat) : Q := inject_Z (Z.of_nat n).

Definition ofNat (n : nat) : number := JS.Num (qNat n).

(** [Object.values(profile).reduce((a, b) => a + b, 0)]: a number as
    long as every value is one, and a string ([None]) otherwise. *)
Definition sumValues (counts : list (jsstring * Bucket)) : option nat :=
  foldl (λ a kv, match a, kv.2 with
                 | Some s, counter n => Some (s + n)
                 | _, _ => None
                 end) (Some 0) counts.

(** [... || 1]; a string made of an inherited function is not empty. *)
Definition totalEmotions (counts : list (jsstring * Bucket)) : option nat :=
  match sumValues counts with
  | Some 0 => Some 1
  | total => total
  end.

(** [Math.round((n / total) * 100) / 100] for a count [n]; the quotient
    by 100 stands for the double nearest to it. *)
Definition hundredths (n total : nat) : Q :=
  (Math_round (JS.fl (JS.fl (qNat n / qNat total) * 100)) / 100)%Q.

(** [profile[key] = Math.round((profile[key] / totalEmotions) * 100) / 100]
    for every key; a division in which a string that is not a numeral
    takes part yields NaN. *)
Definition normalize (counts : list (jsstring * Bucket)) : EmotionProfile :=
  (λ kv, (kv.1,
          match totalEmotions counts, kv.2 with
          | Some total, counter n => JS.Num (hundredths n total)
          | _, _ => JS.NaN
          end)) <$> counts.

Definition positiveLabels : list jsstring := [js "hope"; js "gratitude"].
Definition negativeLabels : list jsstring :=
  [js "anxiety"; js "sadness"; js "frustration"; js "urgency"].

(** [array.includes(emotion)] *)
Definition labelIn (emotion : jsstring) (labels : list jsstring) : bool :=
  bool_decide (emotion ∈ labels).

(** The update of [sentimentTotal] for one segment: [+= 0.3], [-= 0.2]
    or nothing. *)
Definition sentimentStep (total : Q) (emotion : jsstring) : Q :=
  if labelIn emotion positiveLabels then JS.fl (total + JS.fl (3 # 10))
  else if labelIn emotion negativeLabels then JS.fl (total - JS.fl (2 # 10))
  else total.

(** [Math.max(-1, Math.min(1, sentimentTotal / segments.length))]; a
    division by 0 yields NaN for 0 and otherwise an infinity, which the
    clamp replaces by the bound on its side. *)
Definition finalSentiment (total : Q) (len : nat) : number :=
  match len with
  | S _ =>
      Math_max (JS.Num (-1))
        (Math_min (JS.Num 1) (JS.Num (JS.fl (total / qNat len))))
  | 0 =>
      match Qnum total with
      | Z0 => JS.NaN
      | Zpos _ => JS.Num 1
      | Zneg _ => JS.Num (-1)
      end
  end.

(** The loop state of both classifiers. *)
Record Acc := {
  acc_emotions : list EmotionAnalysis;
  acc_counts : list (jsstring * Bucket);
  acc_sentiment : Q;
}.

Definition acc0 : Acc :=
  {| acc_emotions := []; acc_counts := []; acc_sentiment := 0 |}.

Definition push (a : Acc) (e : EmotionAnalysis) : Acc :=
  {| acc_emotions := acc_emotions a ++ [e];
     acc_counts := bump (emotion e) (acc_counts a);
     acc_sentiment := sentimentStep (acc_sentiment a) (emotion e) |}.

Definition finish (a : Acc) (len : nat) : EmotionResult :=
  {| emotions := acc_emotions a;
     profile := normalize (acc_counts a);
     sentimentScore := finalSentiment (acc_sentiment a) len |}.

(** Runs a loop body over the segments with their indices. *)
Fixpoint loopFrom (body : nat → jsstring → EmotionAnalysis)
    (i : nat) (segments : list jsstring) (a : Acc) : Acc :=
  match segments with
  | [] => a
  | s :: rest => loopFrom body (S i) rest (push a (body i s))
  end.

(** *** [simpleKeywordFallback] *)

(** [emotionPatterns], in the order of the object's keys. *)
Definition emotionPatterns : list (jsstring * list jsstring) :=
  [ (js "anxiety",
     js <$> ["worried"; "scared"; "afraid"; "nervous"; "anxious"; "fear";
             "panic"; "stress"; "terrif"]);
    (js "sadness",
     js <$> ["sad"; "depressed"; "hopeless"; "lost everything"; "alone";
             "lonely"; "cry"; "miss"; "devastat"]);
    (js "frustration",
     js <$> ["frustrated"; "angry"; "mad"; "unfair"; "tired of"; "sick of";
             "annoyed"; "can't believe"]);
    (js "hope",
     js <$> ["hope"; "better"; "improving"; "looking forward"; "wish";
             "dream"; "opportunity"; "optimist"; "good"; "great"; "fine";
             "okay"; "alright"]);
    (js "urgency",
     js <$> ["tonight"; "emergency"; "desperate"; "asap"; "right now";
             "immediately"; "kicked out"; "evicted"; "no where"; "nowhere"]);
    (js "gratitude",
     js <$> ["thank"; "grateful"; "appreciate"; "kind"; "blessing";
             "relief"]) ].

(** The inner [for ... of Object.entries(emotionPatterns)] loop: the
    first pattern that matches, else ["neutral"]. *)
Fixpoint detect (patterns : list (jsstring * list jsstring))
    (segment : jsstring) : jsstring :=
  match patterns with
  | [] => neutral
  | (emotion, alts) :: rest =>
      if JS.test alts segment then emotion else detect rest segment
  end.

Definition keywordBody (i : nat) (segment : jsstring) : EmotionAnalysis :=
  let detected := detect emotionPatterns segment in
  {| timestamp := ofNat i;
     emotion := detected;
     confidence := if decide (detected = neutral) then 5 # 10 else 6 # 10;
     text := JS.trim segment |}.

Definition simpleKeywordFallback (transcript : jsstring)
    (segments : list jsstring) : EmotionResult :=
  finish (loopFrom keywordBody 0 segments acc0) (length segments).

(** *** [llmEmotionAnalysis] *)

(** [results[i] || { emotion: "neutral", confidence: 0.5 }] *)
Definition resultAt (results : list (option LlmSegment)) (i : nat)
  : LlmSegment :=
  match results !! i with
  | Some (Some r) => r
  | _ => {| seg_emotion := Some neutral; seg_confidence := numeric (5 # 10) |}
  end.

Definition llmBody (results : list (option LlmSegment))
    (i : nat) (segment : jsstring) : EmotionAnalysis :=
  let result := resultAt results i in
  let emotion := strOr (seg_emotion result) neutral in
  let confidence :=
    Math_min (Math_max (looseOr (seg_confidence result) (6 # 10)) (3 # 10))
             (95 # 100) in
  {| timestamp := ofNat i;
     emotion := emotion;
     confidence := confidence;
     text := JS.trim segment |}.

(** [transcript.split(/[.!?]+/).filter(s => s.trim())] *)
Definition segmentsOf (transcript : jsstring) : list jsstring :=
  filter (λ s, JS.truthy (JS.trim s) = true) (JS.splitSentences transcript).

Definition llmEmotionAnalysis (transcript : jsstring) (outcome : LlmOutcome)
  : EmotionResult :=
  let segments := segmentsOf transcript in
  match segments with
  | [] =>
      {| emotions := [ {| timestamp := 0; emotion := neutral;
                          confidence := 5 # 10; text := transcript |} ];
         profile := [(neutral, JS.Num 1)];
         sentimentScore := 0 |}
  | _ =>
      match outcome with
      | LlmResults results =>
          finish (loopFrom (llmBody results) 0 segments acc0)
                 (length segments)
      | LlmUnparseable | LlmThrew =>
          simpleKeywordFallback transcript segments
      end
  end.

(** *** [analyzeEmotions] *)

Definition analyzeEmotions (transcript : jsstring) (env : AnalysisEnv)
  : EmotionResult :=
  match modulate env with
  | FetchOk data =>
      {| emotions := default [] (data_emotions data);
         profile := default [] (data_profile data);
         sentimentScore := numOr (data_sentiment_score data) 0 |}
  | NoApiKey | FetchFailed => llmEmotionAnalysis transcript (llm env)
  end.

End Modulate.

(** ** Active-call registry ([call-state.ts]) *)

Module CallState.

Inductive Speaker := caller | agent.

(** The element type of [transcriptSegments]. *)
Module Seg.
Record t := {
  speaker : Speaker;
  text : jsstring;
  emotion : jsstring;
  confidence : Q;
  timestamp : Z;
  turnIndex : nat;
}.
End Seg.

Record ActiveCall := {
  callId : jsstring;
  clientId : jsstring;
  twilioCallSid : jsstring;
  conversationHistory : list LlmConversation.ConversationTurn;
  transcriptSegments : list Seg.t;
  turnIndex : nat;
  startedAt : Z;
}.

(** The module state. [ActiveCall] objects are mutated in place and are
    reached both through the map and through references held by the
    route handlers, so they live in a heap and the map holds their
    addresses. The heap only grows: an object that leaves the map stays
    readable through an older reference. *)
Record Registry := {
  heap : list ActiveCall;
  activeCalls : gmap jsstring nat;
  callSidToCallId : gmap jsstring jsstring;
}.

Definition empty : Registry :=
  {| heap := []; activeCalls := ∅; callSidToCallId := ∅ |}.

(** Reading through a reference. *)
Definition deref (st : Registry) (ref : nat) : option ActiveCall :=
  heap st !! ref.

(** In-place update of the object behind a reference. *)
Definition mutate (f : ActiveCall → ActiveCall) (ref : nat) (st : Registry)
  : Registry :=
  {| heap := alter f ref (heap st);
     activeCalls := activeCalls st;
     callSidToCallId := callSidToCallId st |}.

Definition createActiveCall (st : Registry)
    (callId clientId twilioCallSid : jsstring) (now : Z) : Registry * nat :=
  let call :=
    {| callId := callId;
       clientId := clientId;
       twilioCallSid := twilioCallSid;
       conversationHistory := [];
       transcriptSegments := [];
       turnIndex := 0;
       startedAt := now |} in
  let ref := length (heap st) in
  ({| heap := heap st ++ [call];
      activeCalls := <[callId := ref]> (activeCalls st);
      callSidToCallId := <[twilioCallSid := callId]> (callSidToCallId st) |},
   ref).

Definition getActiveCall (st : Registry) (callId : jsstring) : option nat :=
  activeCalls st !! callId.

Definition getActiveCallBySid (st : Registry) (twilioCallSid : jsstring)
  : option nat :=
  match callSidToCallId st !! twilioCallSid with
  | None => None
  | Some callId =>
      if JS.truthy callId then activeCalls st !! callId else None
  end.

Definition pushTurn (role : LlmConversation.Role) (content : jsstring)
    (call : ActiveCall) : ActiveCall :=
  {| callId := callId call;
     clientId := clientId call;
     twilioCallSid := twilioCallSid call;
     conversationHistory :=
       conversationHistory call
         ++ [ {| LlmConversation.role := role;
                 LlmConversation.content := content |} ];
     transcriptSegments := transcriptSegments call;
     turnIndex := turnIndex call;
     startedAt := startedAt call |}.

Definition addConversationTurn (st : Registry) (callId : jsstring)
    (role : LlmConversation.Role) (content : jsstring) : Registry :=
  match activeCalls st !! callId with
  | None => st
  | Some ref => mutate (pushTurn role content) ref st
  end.

(** [call.transcriptSegments.push({..., turnIndex: call.turnIndex});
     call.turnIndex++] *)
Definition pushSegment (speaker : Speaker) (text emotion : jsstring)
    (confidence : Q) (now : Z) (call : ActiveCall) : ActiveCall :=
  {| callId := callId call;
     clientId := clientId call;
     twilioCallSid := twilioCallSid call;
     conversationHistory := conversationHistory call;
     transcriptSegments :=
       transcriptSegments call
         ++ [ {| Seg.speaker := speaker;
                 Seg.text := text;
                 Seg.emotion := emotion;
                 Seg.confidence := confidence;
                 Seg.timestamp := now;
                 Seg.turnIndex := turnIndex call |} ];
     turnIndex := S (turnIndex call);
     startedAt := startedAt call |}.

Definition addTranscriptSegment (st : Registry) (callId : jsstring)
    (speaker : Speaker) (text emotion : jsstring) (confidence : Q) (now : Z)
  : Registry :=
  match activeCalls st !! callId with
  | None => st
  | Some ref => mutate (pushSegment speaker text emotion confidence now) ref st
  end.

Definition removeActiveCall (st : Registry) (callId : jsstring) : Registry :=
  match activeCalls st !! callId with
  | None => st
  | Some ref =>
      {| heap := heap st;
         activeCalls := delete callId (activeCalls st);
         callSidToCallId :=
           match deref st ref with
           | Some call => delete (twilioCallSid call) (callSidToCallId st)
           | None => callSidToCallId st
           end |}
  end.

Definition renderSegment (s : Seg.t) : jsstring :=
  (match Seg.speaker s with caller => js "Caller" | agent => js "Agent" end)
    ++ js ": " ++ Seg.text s.

Definition getFullTranscript (st : Registry) (callId : jsstring) : jsstring :=
  match activeCalls st !! callId with
  | None => []
  | Some ref =>
      match deref st ref with
      | None => []
      | Some call =>
          JS.join (js (String (Ascii.ascii_of_nat 10) EmptyString))
            (renderSegment <$> transcriptSegments call)
      end
  end.

(** Every key of the map leads to a live object that carries that key as
    its [callId]. *)
Definition wf (st : Registry) : Prop :=
  ∀ k ref, activeCalls st !! k = Some ref →
    ∃ call, deref st ref = Some call ∧ callId call = k.

(** The exported mutators, as data, and their execution in sequence. *)
Inductive Op :=
| Create (callId clientId twilioCallSid : jsstring) (now : Z)
| AddTurn (callId : jsstring) (role : LlmConversation.Role)
    (content : jsstring)
| AddSegment (callId : jsstring) (speaker : Speaker) (text emotion : jsstring)
    (confidence : Q) (now : Z)
| Remove (callId : jsstring).

Definition step (st : Registry) (op : Op) : Registry :=
  match op with
  | Create callId clientId sid now =>
      (createActiveCall st callId clientId sid now).1
  | AddTurn callId role content => addConversationTurn st callId role content
  | AddSegment callId speaker text emotion confidence now =>
      addTranscriptSegment st callId speaker text emotion confidence now
  | Remove callId => removeActiveCall st callId
  end.

Definition run (ops : list Op) (st : Registry) : Registry :=
  foldl step st ops.

End CallState.

(** ** Broadcast hub ([websocket.ts]) *)

Module Websocket.

Module Sentence.
Record t := {
  text : jsstring;
  emotion : jsstring;
  confidence : number;
}.
End Sentence.

Record TranscriptSegment := {
  callId : jsstring;
  clientId : jsstring;
  speaker : CallState.Speaker;
  text : jsstring;
  emotion : jsstring;
  confidence : Q;
  timestamp : Z;
  turnIndex : nat;
  sentenceEmotions : option (list Sentence.t);
}.

(** The payloads handed to [broadcastCallEvent]. *)
Inductive EventData :=
| StartedData (callId clientId clientName : jsstring)
| EndedData (summary : option jsstring)
    (emotionProfile : option Modulate.EmotionProfile).

(** The objects that are serialised and sent. *)
Inductive Message :=
| Connected (callId clientId : option jsstring)
| Transcript (data : TranscriptSegment)
| CallEvent (type callId clientId : jsstring) (data : EventData).

Inductive ReadyState := CONNECTING | OPEN | CLOSING | CLOSED.

#[global] Instance ReadyState_eq_dec : EqDecision ReadyState.
Proof. solve_decision. Defined.

(** A server-side socket: its state and everything [ws.send] has put on
    the wire, oldest first. *)
Record Socket := {
  readyState : ReadyState;
  sent : list Message;
}.

(** [callSubscribers] maps a key to a [Set] of sockets, kept as the list
    of its members in insertion order; sockets are named by numbers.
    [published] is a trace, not program state: every message built by a
    broadcast function, whether or not anybody was subscribed. *)
Record Hub := {
  callSubscribers : gmap jsstring (list nat);
  sockets : gmap nat Socket;
  published : list Message;
}.

Definition empty : Hub :=
  {| callSubscribers := ∅; sockets := ∅; published := [] |}.

(** [set.add(ws)] *)
Definition setAdd (ws : nat) (members : list nat) : list nat :=
  if decide (ws ∈ members) then members else members ++ [ws].

(** [if (!m.has(key)) m.set(key, new Set()); m.get(key).add(ws)] *)
Definition subscribe (key : jsstring) (ws : nat)
    (subs : gmap jsstring (list nat)) : gmap jsstring (list nat) :=
  <[key := setAdd ws (default [] (subs !! key))]> subs.

(** [ws.send(message)] *)
Definition send (ws : nat) (message : Message) (socks : gmap nat Socket)
  : gmap nat Socket :=
  alter (λ s, {| readyState := readyState s; sent := sent s ++ [message] |})
        ws socks.

Definition isOpen (socks : gmap nat Socket) (ws : nat) : bool :=
  match socks !! ws with
  | Some s => bool_decide (readyState s = OPEN)
  | None => false
  end.

(** [for (const ws of subs) if (ws.readyState === OPEN) ws.send(message)] *)
Definition sendAll (message : Message) (subs : option (list nat))
    (socks : gmap nat Socket) : gmap nat Socket :=
  match subs with
  | None => socks
  | Some members =>
      foldl (λ acc ws, if isOpen acc ws then send ws message acc else acc)
            socks members
  end.

Definition clientKey (clientId : jsstring) : jsstring :=
  js "client:" ++ clientId.

(** A query parameter is usable when it is present and not empty. *)
Definition given (p : option jsstring) : bool :=
  match p with Some v => JS.truthy v | None => false end.

(** The [connection] handler for a freshly accepted socket [ws] whose URL
    carries the optional parameters [callId] and [clientId]. *)
Definition connection (h : Hub) (ws : nat) (callId clientId : option jsstring)
  : Hub :=
  let socks := <[ws := {| readyState := OPEN; sent := [] |}]> (sockets h) in
  if negb (given callId) && negb (given clientId) then
    (* ws.close(1008, ...) *)
    {| callSubscribers := callSubscribers h;
       sockets := <[ws := {| readyState := CLOSING; sent := [] |}]> socks;
       published := published h |}
  else
    let key :=
      if given callId then default [] callId
      else clientKey (default [] clientId) in
    let subs := subscribe key ws (callSubscribers h) in
    let subs :=
      if given clientId && negb (given callId)
      then subscribe (clientKey (default [] clientId)) ws subs
      else subs in
    {| callSubscribers := subs;
       sockets := send ws (Connected callId clientId) socks;
       published := published h |}.

(** The [close] handler of a socket. *)
Definition close (h : Hub) (ws : nat) : Hub :=
  {| callSubscribers :=
       filter (λ kv, kv.2 ≠ [])
         ((λ members, filter (λ x, x ≠ ws) members) <$> callSubscribers h);
     sockets :=
       alter (λ s, {| readyState := CLOSED; sent := sent s |}) ws (sockets h);
     published := published h |}.

Definition broadcastTranscriptSegment (h : Hub) (segment : TranscriptSegment)
  : Hub :=
  let message := Transcript segment in
  let socks :=
    sendAll message (callSubscribers h !! callId segment) (sockets h) in
  let socks :=
    sendAll message (callSubscribers h !! clientKey (clientId segment)) socks in
  {| callSubscribers := callSubscribers h;
     sockets := socks;
     published := published h ++ [message] |}.

Definition broadcastCallEvent (h : Hub) (callId clientId event : jsstring)
    (data : EventData) : Hub :=
  let message := CallEvent event callId clientId data in
  {| callSubscribers := callSubscribers h;
     sockets :=
       foldl (λ socks key, sendAll message (callSubscribers h !! key) socks)
             (sockets h) [callId; clientKey clientId];
     published := published h ++ [message] |}.

End Websocket.

(** ** Routes ([routes.ts]) *)

Module Routes.

(** The storage collaborator is outside the core; the writes that the
    finalizer gets through are recorded in order. *)
Inductive StorageWrite :=
| UpdateClient (clientId : jsstring) (fromCatch : bool)
    (emotionProfile : Modulate.EmotionProfile)
| UpdateCall (callId transcript : jsstring)
    (emotionData : list Modulate.EmotionAnalysis)
    (sentimentScore : number) (summary : jsstring).

Record World := {
  registry : CallState.Registry;
  hub : Websocket.Hub;
  storage : list StorageWrite;
}.

(** What the collaborators do while a call is finalized. Entity
    extraction, summarisation and the graph write catch their own errors;
    the [try] block around the client update and the [catch] block that
    retries it can each end in an exception (a failed storage write), and
    so can the call update. *)
Record FinalizeEnv := {
  transcriptAnalysis : Modulate.AnalysisEnv;
  intakeSummary : jsstring;          (* summarizeIntakeCall(...).summary *)
  updateClientThrows : bool;         (* the update inside the try block *)
  fallbackUpdateThrows : bool;       (* the update inside the catch block *)
  updateCallThrows : bool;
}.

Inductive Completion := Returned | Threw.

(** The summary built from the profile before the [try] block is always
    replaced by the intake summary, the first statement of that block, so
    only the latter is kept here. *)
Definition finalizeCall (w : World) (callId : jsstring) (env : FinalizeEnv)
  : World * Completion :=
  match CallState.getActiveCall (registry w) callId with
  | None => (w, Returned)
  | Some ref =>
      let clientId :=
        from_option CallState.clientId [] (CallState.deref (registry w) ref) in
      let fullTranscript := CallState.getFullTranscript (registry w) callId in
      let emotionResult :=
        Modulate.analyzeEmotions fullTranscript (transcriptAnalysis env) in
      let profile := Modulate.profile emotionResult in
      let summary := intakeSummary env in
      (* try { ...; updateClient } catch { updateClient } *)
      let clientWrite :=
        if updateClientThrows env then
          if fallbackUpdateThrows env then None
          else Some (UpdateClient clientId true profile)
        else Some (UpdateClient clientId false profile) in
      match clientWrite with
      | None => (w, Threw)
      | Some write =>
          let stored := storage w ++ [write] in
          if updateCallThrows env then
            ({| registry := registry w; hub := hub w; storage := stored |},
             Threw)
          else
            let stored :=
              stored ++ [UpdateCall callId fullTranscript
                           (Modulate.emotions emotionResult)
                           (Modulate.sentimentScore emotionResult) summary] in
            let hub' :=
              Websocket.broadcastCallEvent (hub w) callId clientId
                (js "call_ended")
                (Websocket.EndedData (Some summary) (Some profile)) in
            ({| registry := CallState.removeActiveCall (registry w) callId;
                hub := hub';
                storage := stored |},
             Returned)
      end
  end.

(** The JSON answers of the two routes. *)
Inductive Response :=
| NotFound                       (* 404 { error: "No active call found" } *)
| TurnOk (agentText : jsstring)
    (sentenceEmotions : list Websocket.Sentence.t) (isComplete : bool)
| EndOk                          (* { status: "completed" } *)
| ServerError.                   (* 500 *)

(** What the collaborators do during one voice turn; [clock n] is the
    [n]-th reading of [Date.now()]. *)
Record TurnEnv := {
  sentenceAnalysis : nat → Modulate.AnalysisEnv;
  overallAnalysis : Modulate.AnalysisEnv;
  chat : LlmConversation.ChatOutcome;
  clock : nat → Z;
  finalization : FinalizeEnv;
}.

(** [callerText.split(/[.!?]+/).map(s => s.trim()).filter(s => s.length > 0)] *)
Definition sentencesOf (callerText : jsstring) : list jsstring :=
  filter (λ s, s ≠ []) (JS.trim <$> JS.splitSentences callerText).

(** [emotionResults[i].emotions[0] || { emotion: "neutral", confidence: 0.5 }],
    paired with the sentence. *)
Definition sentenceEmotion (env : TurnEnv) (i : nat) (sentence : jsstring)
  : Websocket.Sentence.t :=
  match Modulate.emotions
          (Modulate.analyzeEmotions sentence (sentenceAnalysis env i)) with
  | primary :: _ =>
      {| Websocket.Sentence.text := sentence;
         Websocket.Sentence.emotion := Modulate.emotion primary;
         Websocket.Sentence.confidence := Modulate.confidence primary |}
  | [] =>
      {| Websocket.Sentence.text := sentence;
         Websocket.Sentence.emotion := Modulate.neutral;
         Websocket.Sentence.confidence := 5 # 10 |}
  end.

(** Reads of a mutable field through the handler's reference. *)
Definition turnIndexAt (st : CallState.Registry) (ref : nat) : nat :=
  from_option CallState.turnIndex 0 (CallState.deref st ref).

Definition historyAt (st : CallState.Registry) (ref : nat)
  : list LlmConversation.ConversationTurn :=
  from_option CallState.conversationHistory [] (CallState.deref st ref).

(** [POST /api/calls/:callId/voice-turn]; [text] is [req.body?.text]. *)
Definition processTurn (w : World) (callId : jsstring)
    (text : option jsstring) (env : TurnEnv) : World * Response :=
  match CallState.getActiveCall (registry w) callId with
  | None => (w, NotFound)
  | Some ref =>
      match text with
      | None => (w, TurnOk [] [] false)
      | Some callerText =>
          if negb (JS.truthy callerText)
             || negb (JS.truthy (JS.trim callerText))
          then (w, TurnOk [] [] false)
          else
            let activeCall_callId :=
              from_option CallState.callId []
                (CallState.deref (registry w) ref) in
            let activeCall_clientId :=
              from_option CallState.clientId []
                (CallState.deref (registry w) ref) in
            let sentenceEmotions :=
              imap (sentenceEmotion env) (sentencesOf callerText) in
            let overallEmotion :=
              Modulate.analyzeEmotions callerText (overallAnalysis env) in
            let primaryEmotion :=
              Modulate.strOr
                (Modulate.emotion <$> head (Modulate.emotions overallEmotion))
                Modulate.neutral in
            let emotionConfidence :=
              Modulate.numOr
                (Modulate.confidence
                   <$> head (Modulate.emotions overallEmotion))
                (5 # 10) in
            let st := registry w in
            let st :=
              CallState.addConversationTurn st activeCall_callId
                LlmConversation.user callerText in
            let st :=
              CallState.addTranscriptSegment st activeCall_callId
                CallState.caller callerText primaryEmotion emotionConfidence
                (clock env 0) in
            let h :=
              Websocket.broadcastTranscriptSegment (hub w)
                {| Websocket.callId := activeCall_callId;
                   Websocket.clientId := activeCall_clientId;
                   Websocket.speaker := CallState.caller;
                   Websocket.text := callerText;
                   Websocket.emotion := primaryEmotion;
                   Websocket.confidence := emotionConfidence;
                   Websocket.timestamp := clock env 1;
                   Websocket.turnIndex := turnIndexAt st ref;
                   Websocket.sentenceEmotions := Some sentenceEmotions |} in
            let next :=
              LlmConversation.generateNextResponse (historyAt st ref)
                callerText (chat env) in
            let response := LlmConversation.response next in
            let isComplete := LlmConversation.isComplete next in
            let st :=
              CallState.addConversationTurn st activeCall_callId
                LlmConversation.assistant response in
            let st :=
              CallState.addTranscriptSegment st activeCall_callId
                CallState.agent response Modulate.neutral (8 # 10)
                (clock env 2) in
            let h :=
              Websocket.broadcastTranscriptSegment h
                {| Websocket.callId := activeCall_callId;
                   Websocket.clientId := activeCall_clientId;
                   Websocket.speaker := CallState.agent;
                   Websocket.text := response;
                   Websocket.emotion := Modulate.neutral;
                   Websocket.confidence := 8 # 10;
                   Websocket.timestamp := clock env 3;
                   Websocket.turnIndex := turnIndexAt st ref;
                   Websocket.sentenceEmotions := None |} in
            let w' := {| registry := st; hub := h; storage := storage w |} in
            if isComplete then
              match finalizeCall w' activeCall_callId (finalization env) with
              | (w'', Returned) =>
                  (w'', TurnOk response sentenceEmotions isComplete)
              | (w'', Threw) => (w'', ServerError)
              end
            else (w', TurnOk response sentenceEmotions isComplete)
      end
  end.

(** [POST /api/calls/:callId/end] *)
Definition endCall (w : World) (callId : jsstring) (env : FinalizeEnv)
  : World * Response :=
  match CallState.getActiveCall (registry w) callId with
  | None => (w, NotFound)
  | Some _ =>
      match finalizeCall w callId env with
      | (w', Returned) => (w', EndOk)
      | (w', Threw) => (w', ServerError)
      end
  end.


End Routes.

(** * Vocabulary of the properties *)

(** The bookkeeping of one call object: the counter is the number of
    segments, and every segment carries its own position. *)
Definition counted (call : CallState.ActiveCall) : Prop :=
  CallState.turnIndex call = length (CallState.transcriptSegments call)
  ∧ ∀ i s, CallState.transcriptSegments call !! i = Some s →
           CallState.Seg.turnIndex s = i.

(** A number that lies between two bounds; NaN lies between none. *)
Definition within (lo hi : Q) (x : number) : Prop :=
  match x with
  | JS.Num q => (lo <= q)%Q ∧ (q <= hi)%Q
  | JS.NaN => False
  end.

Definition inRange (e : Modulate.EmotionAnalysis) : Prop :=
  within (3 # 10) (95 # 100) (Modulate.confidence e).

(** A reply of the model in which every confidence that is there is a
    number (or converts to one). *)
Definition numericEntry (entry : option Modulate.LlmSegment) : Prop :=
  match entry with
  | Some r => Modulate.seg_confidence r ≠ Modulate.nonNumeric
  | None => True
  end.

Definition numericReply (outcome : Modulate.LlmOutcome) : Prop :=
  match outcome with
  | Modulate.LlmResults results => Forall numericEntry results
  | Modulate.LlmThrew | Modulate.LlmUnparseable => True
  end.

(** The counting object after the loop has seen the labels in order. *)
Definition tally (labels : list jsstring)
  : list (jsstring * Modulate.Bucket) :=
  foldl (λ counts l, Modulate.bump l counts) [] labels.

Definition occurrences (label : jsstring) (labels : list jsstring) : nat :=
  length (filter (λ l, l = label) labels).

(** What the counting object holds under a label that occurs. *)
Definition expected (labels : list jsstring) (label : jsstring)
  : Modulate.Bucket :=
  if decide (label ∈ Modulate.inheritedMethods) then Modulate.spoilt
  else Modulate.counter (occurrences label labels).

(** The sum of the counts of a counting object. *)
Definition sumCounts (counts : list (jsstring * Modulate.Bucket)) : nat :=
  sum_list_with (λ kv, match kv.2 with
                       | Modulate.counter n => n
                       | Modulate.spoilt => 0
                       end) counts.

(** [z] is an integer nearest to the percentage that [count] is of
    [total]. *)
Definition nearestPercent (z : Z) (count total : nat) : Prop :=
  (100 * Modulate.qNat count / Modulate.qNat total - (1 # 2) <= inject_Z z
   ∧ inject_Z z
     <= 100 * Modulate.qNat count / Modulate.qNat total + (1 # 2))%Q.

Definition sumQ (values : list Q) : Q := foldr Qplus 0%Q values.

(** A profile all of whose values are numbers. *)
Definition numbers (shares : list (jsstring * Q)) : Modulate.EmotionProfile :=
  (λ kv, (kv.1, JS.Num kv.2)) <$> shares.

(** The relative error of one rounded operation, [2^-53], and the factor
    by which [n] of them can enlarge a bound. *)
Definition ulp : Q := 1 # 9007199254740992.

Fixpoint compound (n : nat) : Q :=
  match n with
  | 0 => 1%Q
  | S n' => (compound n' * (1 + ulp))%Q
  end.

(** How far [n] rounded additions of at most [step] each can take a
    sum that starts at 0. *)
Fixpoint drift (step : Q) (n : nat) : Q :=
  match n with
  | 0 => 0%Q
  | S n' => ((drift step n' + step) * (1 + ulp))%Q
  end.

(** The labels the keyword matcher can produce. *)
Definition knownLabels : list jsstring :=
  Modulate.emotionPatterns.*1 ++ [Modulate.neutral].

(** How often [ws] occurs in a list of sockets. *)
Definition copies (ws : nat) (members : list nat) : nat :=
  length (filter (λ x, x = ws) members).

(** * Sample data for the closed examples *)

Definition c1 : jsstring := js "call-1".

Definition u1 : jsstring := js "client-1".

Definition demoOps : list CallState.Op :=
  [ CallState.Create c1 u1 (js "web-1700000000000") 1700000000000;
    CallState.AddTurn c1 LlmConversation.assistant (js "Hello.");
    CallState.AddSegment c1 CallState.agent (js "Hello.") Modulate.neutral
      (8 # 10) 1700000000500 ].

Definition demoRegistry : CallState.Registry :=
  CallState.run demoOps CallState.empty.

Definition demoCall : CallState.ActiveCall :=
  {| CallState.callId := c1;
     CallState.clientId := u1;
     CallState.twilioCallSid := js "web-1700000000000";
     CallState.conversationHistory :=
       [ {| LlmConversation.role := LlmConversation.assistant;
            LlmConversation.content := js "Hello." |} ];
     CallState.transcriptSegments :=
       [ {| CallState.Seg.speaker := CallState.agent;
            CallState.Seg.text := js "Hello.";
            CallState.Seg.emotion := Modulate.neutral;
            CallState.Seg.confidence := 8 # 10;
            CallState.Seg.timestamp := 1700000000500;
            CallState.Seg.turnIndex := 0 |} ];
     CallState.turnIndex := 1;
     CallState.startedAt := 1700000000000 |}.

Definition offline : Modulate.AnalysisEnv :=
  {| Modulate.modulate := Modulate.NoApiKey;
     Modulate.llm := Modulate.LlmThrew |}.

Definition storageUp : Routes.FinalizeEnv :=
  {| Routes.transcriptAnalysis := offline;
     Routes.intakeSummary := js "Caller lost their job and sleeps in a car.";
     Routes.updateClientThrows := false;
     Routes.fallbackUpdateThrows := false;
     Routes.updateCallThrows := false |}.

Definition demoEnv (reply : string) : Routes.TurnEnv :=
  {| Routes.sentenceAnalysis := λ _, offline;
     Routes.overallAnalysis := offline;
     Routes.chat := LlmConversation.ChatContent (Some (js reply));
     Routes.clock := λ n, (1700000001000 + Z.of_nat n)%Z;
     Routes.finalization := storageUp |}.

Definition demoWorld : Routes.World :=
  {| Routes.registry := demoRegistry;
     Routes.hub :=
       Websocket.connection Websocket.empty 0 (Some c1) (Some u1);
     Routes.storage := [] |}.

Definition demoText : jsstring := js "I lost my job and I'm scared.".

Definition twiceMarked : jsstring :=
  js "Thank you, a caseworker will follow up. [CALL_COMPLETE] [CALL_COMPLETE]".

Definition providerEnv : Modulate.AnalysisEnv :=
  {| Modulate.modulate :=
       Modulate.FetchOk
         {| Modulate.data_emotions :=
              Some [ {| Modulate.timestamp := 0;
                        Modulate.emotion := js "anxiety";
                        Modulate.confidence := 99 # 100;
                        Modulate.text := js "I'm scared" |} ];
            Modulate.data_profile := Some [(js "anxiety", JS.Num 1)];
            Modulate.data_sentiment_score := Some (JS.Num (- (2 # 10))) |};
     Modulate.llm := Modulate.LlmThrew |}.

Definition demoSegment : Websocket.TranscriptSegment :=
  {| Websocket.callId := c1;
     Websocket.clientId := u1;
     Websocket.speaker := CallState.caller;
     Websocket.text := demoText;
     Websocket.emotion := js "anxiety";
     Websocket.confidence := 6 # 10;
     Websocket.timestamp := 1700000001001;
     Websocket.turnIndex := 2;
     Websocket.sentenceEmotions := None |}.

Definition demoTranscript : jsstring :=
  js "I lost my job and I'm scared. Thank you for helping! We sleep in the car.".

(** * Further vocabulary and sample data *)

(** A character that cannot be part of a sentence: white space or one of
    the terminators [.], [!], [?]. *)
Definition sentenceless (c : N) : Prop :=
  JS.isWhiteSpace c = true ∨ JS.isTerminator c = true.


Definition blankTranscript : jsstring := js " ...  !? ".

Definition shelterTonight : jsstring :=
  js "I need emergency shelter tonight, I've been sleeping in my car".

Definition shortReply : Modulate.LlmOutcome :=
  Modulate.LlmResults
    [ Some {| Modulate.seg_emotion := Some (js "relief");
              Modulate.seg_confidence := Modulate.numeric (99 # 100) |} ].

(** Three sentences that the keyword matcher labels anxiety, sadness
    and frustration. *)
Definition threeWorries : jsstring :=
  js "I am scared. I feel alone. I am angry.".

(** A 2xx reply of the provider that classifies the sentence and sends
    no profile. *)
Definition profilelessProvider : Modulate.AnalysisEnv :=
  {| Modulate.modulate :=
       Modulate.FetchOk
         {| Modulate.data_emotions :=
              Some [ {| Modulate.timestamp := 0;
                        Modulate.emotion := js "anxiety";
                        Modulate.confidence := 8 # 10;
                        Modulate.text := js "I'm scared" |} ];
            Modulate.data_profile := None;
            Modulate.data_sentiment_score := Some (JS.Num (- (2 # 10))) |};
     Modulate.llm := Modulate.LlmThrew |}.

(** A reply of the model with the given labels, each with confidence
    0.7. *)
Definition labelled (labels : list string) : Modulate.LlmOutcome :=
  Modulate.LlmResults
    ((λ l, Some {| Modulate.seg_emotion := Some (js l);
                   Modulate.seg_confidence := Modulate.numeric (7 # 10) |})
       <$> labels).

(** A transcript of [n] sentences. *)
Definition sentences (n : nat) : jsstring := mjoin (replicate n (js "ok. ")).

(** A reply whose first confidence is a word. *)
Definition wordyReply : Modulate.LlmOutcome :=
  Modulate.LlmResults
    [ Some {| Modulate.seg_emotion := Some (js "anxiety");
              Modulate.seg_confidence := Modulate.nonNumeric |};
      Some {| Modulate.seg_emotion := Some (js "gratitude");
              Modulate.seg_confidence := Modulate.numeric (99 # 100) |} ].

Definition closingReply : jsstring :=
  js "Thank you, a caseworker will follow up." ++ [10%N]
    ++ LlmConversation.CALL_COMPLETE.

(** The [callId] that a registry operation addresses. *)
Definition opCallId (op : CallState.Op) : jsstring :=
  match op with
  | CallState.Create callId _ _ _ => callId
  | CallState.AddTurn callId _ _ => callId
  | CallState.AddSegment callId _ _ _ _ _ => callId
  | CallState.Remove callId => callId
  end.

Definition newline : jsstring := js (String (Ascii.ascii_of_nat 10) EmptyString).

Definition demoSegmentOp : CallState.Op :=
  CallState.AddSegment c1 CallState.caller demoText (js "anxiety") (6 # 10)
    1700000001000.

(** The members of the set under a key ([[]] when the key is absent). *)
Definition subscribers (h : Websocket.Hub) (key : jsstring) : list nat :=
  default [] (Websocket.callSubscribers h !! key).

(** Every set of the hub is non-empty and lists no socket twice. *)
Definition tidy (h : Websocket.Hub) : Prop :=
  ∀ key members, Websocket.callSubscribers h !! key = Some members →
    members ≠ [] ∧ NoDup members.

(** The events of the hub, as data, and their execution in sequence. *)
Inductive HubOp :=
| Connect (ws : nat) (callId clientId : option jsstring)
| Close (ws : nat)
| PublishTranscript (segment : Websocket.TranscriptSegment)
| PublishEvent (callId clientId event : jsstring) (data : Websocket.EventData).

Definition hubStep (h : Websocket.Hub) (op : HubOp) : Websocket.Hub :=
  match op with
  | Connect ws callId clientId => Websocket.connection h ws callId clientId
  | Close ws => Websocket.close h ws
  | PublishTranscript segment => Websocket.broadcastTranscriptSegment h segment
  | PublishEvent callId clientId event data =>
      Websocket.broadcastCallEvent h callId clientId event data
  end.

Definition hubRun (ops : list HubOp) (h : Websocket.Hub) : Websocket.Hub :=
  foldl hubStep h ops.

(** What a broadcast appends to the wire of a socket in state [s] that
    occurs [n] times in the sets addressed. *)
Definition delivered (s : Websocket.Socket) (n : nat)
    (message : Websocket.Message) : Websocket.Socket :=
  {| Websocket.readyState := Websocket.readyState s;
     Websocket.sent :=
       Websocket.sent s
         ++ (if bool_decide (Websocket.readyState s = Websocket.OPEN)
             then replicate n message else []) |}.

Definition demoHubOps : list HubOp :=
  [ Connect 0 (Some c1) (Some u1);
    Connect 1 None (Some u1);
    Connect 2 (Some c1) None;
    Close 2 ].

Definition demoHub : Websocket.Hub := hubRun demoHubOps Websocket.empty.

(** ** Starting and completing a call ([routes.ts], further routes) *)

Module Lifecycle.

(** The requests these two routes make to the storage collaborator, in
    the order in which they get through. *)
Inductive Request :=
| CreateCall (clientId twilioCallSid : jsstring)
| SetClientStatus (clientId status : jsstring)
| CompleteCall (callId transcript : jsstring)
    (emotionData : list Modulate.EmotionAnalysis)
    (sentimentScore : number) (summary : jsstring)
| AssessClient (clientId : jsstring)
    (emotionProfile : Modulate.EmotionProfile).

Record ClientRow := {
  client_id : jsstring;
  client_name : jsstring;
}.

Record CallRow := {
  call_id : jsstring;
  call_clientId : jsstring;
}.

(** Decimal digits of an integer, as in a template literal. *)
Definition showZ (z : Z) : jsstring := js (pretty z).

(** *** [POST /api/clients/:id/call] *)

(** What the collaborators do while a call is started; [clock n] is the
    [n]-th reading of [Date.now()]. *)
Record StartEnv := {
  getClientThrows : bool;
  client : option ClientRow;         (* storage.getClient(req.params.id) *)
  createCallThrows : bool;
  newCallId : jsstring;              (* the id of the row storage.createCall made *)
  updateClientThrows : bool;
  greeting : LlmConversation.ChatOutcome;
  clock : nat → Z;
}.

Inductive StartResponse :=
| ClientNotFound                     (* 404 { error: "Client not found" } *)
| Created (callId greetingText : jsstring)   (* 201 { ...call, greetingText } *)
| StartError.                        (* 500 *)

Definition startCall (w : Routes.World) (env : StartEnv)
  : Routes.World * list Request * StartResponse :=
  if getClientThrows env then (w, [], StartError)
  else
    match client env with
    | None => (w, [], ClientNotFound)
    | Some row =>
        let callSid := js "web-" ++ showZ (clock env 0) in
        if createCallThrows env then (w, [], StartError)
        else
          let requests := [CreateCall (client_id row) callSid] in
          let callId := newCallId env in
          let st :=
            (CallState.createActiveCall (Routes.registry w) callId
               (client_id row) callSid (clock env 1)).1 in
          if updateClientThrows env then
            ({| Routes.registry := st;
                Routes.hub := Routes.hub w;
                Routes.storage := Routes.storage w |},
             requests, StartError)
          else
            let requests :=
              requests ++ [SetClientStatus (client_id row) (js "in-call")] in
            let h :=
              Websocket.broadcastCallEvent (Routes.hub w) callId
                (client_id row) (js "call_started")
                (Websocket.StartedData callId (client_id row)
                   (client_name row)) in
            let greeting :=
              LlmConversation.generateInitialGreeting (greeting env) in
            let st :=
              CallState.addConversationTurn st callId
                LlmConversation.assistant greeting in
            let st :=
              CallState.addTranscriptSegment st callId CallState.agent
                greeting Modulate.neutral (8 # 10) (clock env 2) in
            let h :=
              Websocket.broadcastTranscriptSegment h
                {| Websocket.callId := callId;
                   Websocket.clientId := client_id row;
                   Websocket.speaker := CallState.agent;
                   Websocket.text := greeting;
                   Websocket.emotion := Modulate.neutral;
                   Websocket.confidence := 8 # 10;
                   Websocket.timestamp := clock env 3;
                   Websocket.turnIndex := 0;
                   Websocket.sentenceEmotions := None |} in
            ({| Routes.registry := st;
                Routes.hub := h;
                Routes.storage := Routes.storage w |},
             requests, Created callId greeting)
    end.

(** *** [POST /api/calls/:id/complete] *)

(** Whether the comparator [(a, b) => b[1] - a[1]] puts [a] before [b]:
    its result is negative.  A NaN result counts as 0. *)
Definition before (a b : jsstring * number) : bool :=
  match a.2, b.2 with
  | JS.Num x, JS.Num y => negb (Qle_bool (JS.fl x) (JS.fl y))
  | _, _ => false
  end.

(** Insertion of [x] behind every entry that it is not put before: with
    [foldl] a stable sort. *)
Fixpoint insertDesc (x : jsstring * number) (l : list (jsstring * number))
  : list (jsstring * number) :=
  match l with
  | [] => [x]
  | y :: rest => if before x y then x :: l else y :: insertDesc x rest
  end.

(** Whether the comparator orders the entries consistently: no value is
    NaN, or it gives 0 for every pair. *)
Definition consistent (l : list (jsstring * number)) : bool :=
  forallb (λ kv, match kv.2 with JS.Num _ => true | JS.NaN => false end) l
  || forallb (λ a, forallb (λ b, negb (before a b)) l) l.

(** [entries.sort((a, b) => b[1] - a[1])]: the stable sort when the
    comparator is consistent; otherwise the order is left to the
    implementation of the sort, [engine]. *)
Definition sortDesc
    (engine : list (jsstring * number) → list (jsstring * number))
    (l : list (jsstring * number)) : list (jsstring * number) :=
  if consistent l then foldl (λ acc x, insertDesc x acc) [] l
  else engine l.

(** [`${e} (${Math.round(s * 100)}%)`] *)
Definition showShare (kv : jsstring * number) : jsstring :=
  kv.1 ++ js " ("
    ++ match kv.2 with
       | JS.Num s => showZ (Qfloor (JS.fl (JS.fl s * 100) + (1 # 2)))
       | JS.NaN => js "NaN"
       end
    ++ js "%)".

(** [`Call completed. Detected primary emotions: ${...slice(0, 3)...join(", ")}`] *)
Definition basicSummary
    (engine : list (jsstring * number) → list (jsstring * number))
    (profile : Modulate.EmotionProfile) : jsstring :=
  js "Call completed. Detected primary emotions: "
    ++ JS.join (js ", ") (showShare <$> take 3 (sortDesc engine profile)).

Record CompleteEnv := {
  getCallThrows : bool;
  call : option CallRow;             (* storage.getCall(req.params.id) *)
  analysis : Modulate.AnalysisEnv;
  updateCallThrows : bool;
  assessClientThrows : bool;
  (* what the sort makes of entries that the comparator cannot order *)
  sortInconsistent : list (jsstring * number) → list (jsstring * number);
}.

Inductive CompleteResponse :=
| TranscriptRequired                 (* 400 { error: "Transcript required" } *)
| CallNotFound                       (* 404 { error: "Call not found" } *)
| Completed                          (* 200, the updated call row *)
| CompleteError.                     (* 500 *)

(** Truthiness of a body field that may be missing. *)
Definition present (field : option jsstring) : bool :=
  match field with Some v => JS.truthy v | None => false end.

(** [transcript] is [req.body.transcript]; the event data
    [{ status: "completed" }] carries no summary and no profile. *)
Definition completeCall (w : Routes.World) (transcript : option jsstring)
    (env : CompleteEnv) : Routes.World * list Request * CompleteResponse :=
  if negb (present transcript) then (w, [], TranscriptRequired)
  else
    let transcript := default [] transcript in
    if getCallThrows env then (w, [], CompleteError)
    else
      match call env with
      | None => (w, [], CallNotFound)
      | Some row =>
          let emotionResult :=
            Modulate.analyzeEmotions transcript (analysis env) in
          if updateCallThrows env then (w, [], CompleteError)
          else
            let requests :=
              [CompleteCall (call_id row) transcript
                 (Modulate.emotions emotionResult)
                 (Modulate.sentimentScore emotionResult)
                 (basicSummary (sortInconsistent env)
                    (Modulate.profile emotionResult))] in
            if assessClientThrows env then (w, requests, CompleteError)
            else
              let requests :=
                requests ++ [AssessClient (call_clientId row)
                               (Modulate.profile emotionResult)] in
              ({| Routes.registry :=
                    CallState.removeActiveCall (Routes.registry w)
                      (call_id row);
                  Routes.hub :=
                    Websocket.broadcastCallEvent (Routes.hub w) (call_id row)
                      (call_clientId row) (js "call_ended")
                      (Websocket.EndedData None None);
                  Routes.storage := Routes.storage w |},
               requests, Completed)
      end.

End Lifecycle.

(** The registry invariants that the routes rely on. *)
Definition sound (w : Routes.World) : Prop :=
  CallState.wf (Routes.registry w)
  ∧ Forall counted (CallState.heap (Routes.registry w)).

(** The pieces of one voice turn, named. *)
Definition primaryEmotion (callerText : jsstring) (env : Routes.TurnEnv)
  : jsstring :=
  Modulate.strOr
    (Modulate.emotion
       <$> head (Modulate.emotions
                   (Modulate.analyzeEmotions callerText
                      (Routes.overallAnalysis env))))
    Modulate.neutral.

Definition emotionConfidence (callerText : jsstring) (env : Routes.TurnEnv)
  : Q :=
  Modulate.numOr
    (Modulate.confidence
       <$> head (Modulate.emotions
                   (Modulate.analyzeEmotions callerText
                      (Routes.overallAnalysis env))))
    (5 # 10).

Definition afterCaller (st : CallState.Registry) (callId callerText : jsstring)
    (env : Routes.TurnEnv) : CallState.Registry :=
  CallState.addTranscriptSegment
    (CallState.addConversationTurn st callId LlmConversation.user callerText)
    callId CallState.caller callerText (primaryEmotion callerText env)
    (emotionConfidence callerText env) (Routes.clock env 0).

Definition nextResponse (st : CallState.Registry) (callId callerText : jsstring)
    (ref : nat) (env : Routes.TurnEnv) : LlmConversation.NextResponse :=
  LlmConversation.generateNextResponse
    (Routes.historyAt (afterCaller st callId callerText env) ref)
    callerText (Routes.chat env).

Definition afterAgent (st : CallState.Registry) (callId callerText : jsstring)
    (ref : nat) (env : Routes.TurnEnv) : CallState.Registry :=
  CallState.addTranscriptSegment
    (CallState.addConversationTurn (afterCaller st callId callerText env)
       callId LlmConversation.assistant
       (LlmConversation.response (nextResponse st callId callerText ref env)))
    callId CallState.agent
    (LlmConversation.response (nextResponse st callId callerText ref env))
    Modulate.neutral (8 # 10) (Routes.clock env 2).

Definition sentenceEmotions (callerText : jsstring) (env : Routes.TurnEnv)
  : list Websocket.Sentence.t :=
  imap (Routes.sentenceEmotion env) (Routes.sentencesOf callerText).

Definition callerEvent (st : CallState.Registry)
    (callId clientId callerText : jsstring) (ref : nat) (env : Routes.TurnEnv)
  : Websocket.TranscriptSegment :=
  {| Websocket.callId := callId;
     Websocket.clientId := clientId;
     Websocket.speaker := CallState.caller;
     Websocket.text := callerText;
     Websocket.emotion := primaryEmotion callerText env;
     Websocket.confidence := emotionConfidence callerText env;
     Websocket.timestamp := Routes.clock env 1;
     Websocket.turnIndex :=
       Routes.turnIndexAt (afterCaller st callId callerText env) ref;
     Websocket.sentenceEmotions := Some (sentenceEmotions callerText env) |}.

Definition agentEvent (st : CallState.Registry)
    (callId clientId callerText : jsstring) (ref : nat) (env : Routes.TurnEnv)
  : Websocket.TranscriptSegment :=
  {| Websocket.callId := callId;
     Websocket.clientId := clientId;
     Websocket.speaker := CallState.agent;
     Websocket.text :=
       LlmConversation.response (nextResponse st callId callerText ref env);
     Websocket.emotion := Modulate.neutral;
     Websocket.confidence := 8 # 10;
     Websocket.timestamp := Routes.clock env 3;
     Websocket.turnIndex :=
       Routes.turnIndexAt (afterAgent st callId callerText ref env) ref;
     Websocket.sentenceEmotions := None |}.

(** The world after the appends and broadcasts of a voice turn, before
    any finalization. *)
Definition afterTurn (w : Routes.World) (callId clientId callerText : jsstring)
    (ref : nat) (env : Routes.TurnEnv) : Routes.World :=
  {| Routes.registry := afterAgent (Routes.registry w) callId callerText ref env;
     Routes.hub :=
       Websocket.broadcastTranscriptSegment
         (Websocket.broadcastTranscriptSegment (Routes.hub w)
            (callerEvent (Routes.registry w) callId clientId callerText ref env))
         (agentEvent (Routes.registry w) callId clientId callerText ref env);
     Routes.storage := Routes.storage w |}.

Definition demoClient : Lifecycle.ClientRow :=
  {| Lifecycle.client_id := u1; Lifecycle.client_name := js "Maria Gonzalez" |}.

Definition demoStart : Lifecycle.StartEnv :=
  {| Lifecycle.getClientThrows := false;
     Lifecycle.client := Some demoClient;
     Lifecycle.createCallThrows := false;
     Lifecycle.newCallId := c1;
     Lifecycle.updateClientThrows := false;
     Lifecycle.greeting := LlmConversation.ChatThrew;
     Lifecycle.clock := λ n, (1700000000000 + Z.of_nat n)%Z |}.

Definition emptyWorld : Routes.World :=
  {| Routes.registry := CallState.empty;
     Routes.hub := Websocket.empty;
     Routes.storage := [] |}.

Definition demoComplete : Lifecycle.CompleteEnv :=
  {| Lifecycle.getCallThrows := false;
     Lifecycle.call :=
       Some {| Lifecycle.call_id := c1; Lifecycle.call_clientId := u1 |};
     Lifecycle.analysis := offline;
     Lifecycle.updateCallThrows := false;
     Lifecycle.assessClientThrows := false;
     Lifecycle.sortInconsistent := reverse |}.

(** A string that is not empty and has no white space at either end. *)
Definition trimmed (s : jsstring) : Prop :=
  JS.isWhiteSpace <$> head s = Some false
  ∧ JS.isWhiteSpace <$> last s = Some false.

Definition userTurn (callerText : jsstring) : LlmConversation.ConversationTurn :=
  {| LlmConversation.role := LlmConversation.user;
     LlmConversation.content := callerText |}.

Definition assistantTurn (response : jsstring)
  : LlmConversation.ConversationTurn :=
  {| LlmConversation.role := LlmConversation.assistant;
     LlmConversation.content := response |}.

Definition demoReply : string :=
  "I'm sorry to hear that. Where are you staying?".

(** One line of the rendered transcript. *)
Definition line (speaker : CallState.Speaker) (text : jsstring) : jsstring :=
  (match speaker with
   | CallState.caller => js "Caller"
   | CallState.agent => js "Agent"
   end) ++ js ": " ++ text.

(** The storage writes of a finalization get through. *)
Definition storageWorks (fenv : Routes.FinalizeEnv) : Prop :=
  Routes.updateCallThrows fenv = false
  ∧ (Routes.updateClientThrows fenv = false
     ∨ Routes.fallbackUpdateThrows fenv = false).

Definition storageDown : Routes.FinalizeEnv :=
  {| Routes.transcriptAnalysis := offline;
     Routes.intakeSummary := js "Call completed - manual review needed";
     Routes.updateClientThrows := false;
     Routes.fallbackUpdateThrows := false;
     Routes.updateCallThrows := true |}.

(** The sample world with one more socket, both listening under the
    [callId] key. *)
Definition listenerWorld : Routes.World :=
  {| Routes.registry := demoRegistry;
     Routes.hub := hubRun [Connect 0 (Some c1) (Some u1); Connect 7 (Some c1) None]
                     Websocket.empty;
     Routes.storage := [] |}.


(** The world of a completion request that fails in the client update. *)
Definition assessFails : Lifecycle.CompleteEnv :=
  {| Lifecycle.getCallThrows := false;
     Lifecycle.call :=
       Some {| Lifecycle.call_id := c1; Lifecycle.call_clientId := u1 |};
     Lifecycle.analysis := offline;
     Lifecycle.updateCallThrows := false;
     Lifecycle.assessClientThrows := true;
     Lifecycle.sortInconsistent := reverse |}.

Definition noClient : Lifecycle.StartEnv :=
  {| Lifecycle.getClientThrows := false;
     Lifecycle.client := None;
     Lifecycle.createCallThrows := false;
     Lifecycle.newCallId := c1;
     Lifecycle.updateClientThrows := false;
     Lifecycle.greeting := LlmConversation.ChatThrew;
     Lifecycle.clock := λ n, (1700000000000 + Z.of_nat n)%Z |}.



(** * Properties *)

(** ** The registry *)

Section registry.
Implicit Types (st : CallState.Registry) (call : CallState.ActiveCall).

Lemma deref_mutate st f ref :
  CallState.deref (CallState.mutate f ref st) ref = f <$> CallState.deref st ref.
Proof. unfold CallState.deref, CallState.mutate; simpl. apply list_lookup_alter_eq. Qed.

Lemma deref_mutate_ne st f ref r :
  ref ≠ r →
  CallState.deref (CallState.mutate f ref st) r = CallState.deref st r.
Proof.
  intros Hne. unfold CallState.deref, CallState.mutate; simpl.
  by apply list_lookup_alter_ne.
Qed.

Lemma addTranscriptSegment_present st k ref speaker text emotion confidence now :
  CallState.activeCalls st !! k = Some ref →
  CallState.addTranscriptSegment st k speaker text emotion confidence now
  = CallState.mutate
      (CallState.pushSegment speaker text emotion confidence now) ref st.
Proof. intros H. unfold CallState.addTranscriptSegment. by rewrite H. Qed.

Lemma addConversationTurn_present st k ref role content :
  CallState.activeCalls st !! k = Some ref →
  CallState.addConversationTurn st k role content
  = CallState.mutate (CallState.pushTurn role content) ref st.
Proof. intros H. unfold CallState.addConversationTurn. by rewrite H. Qed.

Lemma counted_pushTurn role content call :
  counted call → counted (CallState.pushTurn role content call).
Proof. intros [H1 H2]. split; simpl; auto. Qed.

Lemma counted_pushSegment speaker text emotion confidence now call :
  counted call →
  counted (CallState.pushSegment speaker text emotion confidence now call).
Proof.
  intros [H1 H2]. split; simpl.
  - rewrite length_app. simpl. lia.
  - intros i s Hs. apply lookup_app_Some in Hs as [Hs | [Hlen Hs]]; [eauto |].
    apply list_lookup_singleton_Some in Hs as [Hi <-]. simpl. lia.
Qed.

Lemma counted_mutate st f ref :
  (∀ call, counted call → counted (f call)) →
  Forall counted (CallState.heap st) →
  Forall counted (CallState.heap (CallState.mutate f ref st)).
Proof.
  intros Hf Hall. simpl. apply Forall_alter; [done |]. intros x _. apply Hf.
Qed.

Lemma counted_step st op :
  Forall counted (CallState.heap st) →
  Forall counted (CallState.heap (CallState.step st op)).
Proof.
  intros Hall. destruct op; simpl.
  - apply Forall_app. split; [done |]. apply Forall_singleton.
    split; simpl; [done |]. intros i s Hs. by rewrite lookup_nil in Hs.
  - unfold CallState.addConversationTurn.
    destruct (CallState.activeCalls st !! callId); [| done].
    apply counted_mutate; [| done]. apply counted_pushTurn.
  - unfold CallState.addTranscriptSegment.
    destruct (CallState.activeCalls st !! callId); [| done].
    apply counted_mutate; [| done]. apply counted_pushSegment.
  - unfold CallState.removeActiveCall.
    destruct (CallState.activeCalls st !! callId); done.
Qed.

Lemma counted_run ops st :
  Forall counted (CallState.heap st) →
  Forall counted (CallState.heap (CallState.run ops st)).
Proof.
  revert st. induction ops as [| op ops IH]; intros st Hall; [done |].
  apply IH, counted_step, Hall.
Qed.

(** Well-formedness is kept by every mutator. *)
Lemma wf_mutate st f ref :
  (∀ call, CallState.callId (f call) = CallState.callId call) →
  CallState.wf st → CallState.wf (CallState.mutate f ref st).
Proof.
  intros Hf Hwf k r Hk. destruct (Hwf k r Hk) as (call & Hd & Hid).
  destruct (decide (ref = r)) as [-> | Hne].
  - exists (f call). rewrite deref_mutate, Hd. split; [done |].
    by rewrite Hf.
  - exists call. by rewrite deref_mutate_ne.
Qed.

Lemma wf_empty : CallState.wf CallState.empty.
Proof. intros k r Hk. simpl in Hk. by rewrite lookup_empty in Hk. Qed.

Lemma wf_step st op : CallState.wf st → CallState.wf (CallState.step st op).
Proof.
  intros Hwf. destruct op; simpl.
  - intros k r Hk. simpl in Hk. unfold CallState.deref; simpl.
    destruct (decide (callId = k)) as [-> | Hne].
    + rewrite lookup_insert_eq in Hk. injection Hk as <-.
      eexists. split; [apply list_lookup_middle; done | done].
    + rewrite lookup_insert_ne in Hk by done.
      destruct (Hwf k r Hk) as (call & Hd & Hid). exists call. split; [| done].
      unfold CallState.deref in Hd. by apply lookup_app_l_Some.
  - unfold CallState.addConversationTurn.
    destruct (CallState.activeCalls st !! callId); [| done].
    by apply wf_mutate.
  - unfold CallState.addTranscriptSegment.
    destruct (CallState.activeCalls st !! callId); [| done].
    by apply wf_mutate.
  - unfold CallState.removeActiveCall.
    destruct (CallState.activeCalls st !! callId) eqn:E; [| done].
    intros k r Hk. simpl in Hk.
    apply lookup_delete_Some in Hk as [_ Hk]. apply (Hwf k r Hk).
Qed.

Lemma wf_run ops st : CallState.wf st → CallState.wf (CallState.run ops st).
Proof.
  revert st. induction ops as [| op ops IH]; intros st Hwf; [done |].
  apply IH, wf_step, Hwf.
Qed.

End registry.

(** C2. In every registry reached from the empty one by any sequence of
    [createActiveCall], [addConversationTurn], [addTranscriptSegment] and
    [removeActiveCall], each registered call has [turnIndex] equal to the
    number of its transcript segments (each segment holding its own
    position), and one more append raises [turnIndex] strictly, by one. *)
Theorem C2_turnIndex_counts_segments ops callId ref call :
  CallState.getActiveCall (CallState.run ops CallState.empty) callId = Some ref →
  CallState.deref (CallState.run ops CallState.empty) ref = Some call →
  CallState.turnIndex call = length (CallState.transcriptSegments call)
  ∧ (∀ i s, CallState.transcriptSegments call !! i = Some s →
            CallState.Seg.turnIndex s = i)
  ∧ ∀ speaker text emotion confidence now,
      ∃ call' s,
        CallState.deref
          (CallState.addTranscriptSegment (CallState.run ops CallState.empty)
             callId speaker text emotion confidence now) ref = Some call'
        ∧ CallState.transcriptSegments call'
          = CallState.transcriptSegments call ++ [s]
        ∧ CallState.turnIndex call' = S (CallState.turnIndex call)
        ∧ CallState.turnIndex call < CallState.turnIndex call'
        ∧ CallState.turnIndex call'
          = length (CallState.transcriptSegments call').
Proof.
  intros Hget Hderef.
  assert (Hc : counted call).
  { assert (Hall : Forall counted
                     (CallState.heap (CallState.run ops CallState.empty))).
    { apply counted_run. constructor. }
    rewrite Forall_lookup in Hall. exact (Hall ref call Hderef). }
  destruct Hc as [Hlen Hpos]. split; [exact Hlen |]. split; [exact Hpos |].
  intros speaker text emotion confidence now.
  rewrite (addTranscriptSegment_present _ _ ref) by exact Hget.
  rewrite deref_mutate, Hderef. simpl.
  eexists _, _. split; [reflexivity |]. simpl.
  split; [reflexivity |]. split; [reflexivity |]. split; [lia |].
  rewrite length_app. simpl. lia.
Qed.

Lemma C2_turnIndex_counts_segments_witness :
  CallState.getActiveCall (CallState.run demoOps CallState.empty) c1 = Some 0
  ∧ CallState.deref (CallState.run demoOps CallState.empty) 0 = Some demoCall
  ∧ CallState.turnIndex demoCall
    = length (CallState.transcriptSegments demoCall).
Proof.
  assert (H1 : CallState.getActiveCall
                 (CallState.run demoOps CallState.empty) c1 = Some 0)
    by (vm_compute; reflexivity).
  assert (H2 : CallState.deref (CallState.run demoOps CallState.empty) 0
               = Some demoCall)
    by (vm_compute; reflexivity).
  split; [exact H1 |]. split; [exact H2 |].
  exact (proj1 (C2_turnIndex_counts_segments demoOps c1 0 demoCall H1 H2)).
Defined.

(** C3 fails on the code: [createActiveCall] has no duplicate check.
    Creating ["call-1"] again returns normally and the entry that held one
    segment is replaced by a fresh call without segments. *)
Lemma C3_create_overwrites_counterexample :
  let (st', ref') :=
    CallState.createActiveCall demoRegistry c1 (js "client-2")
      (js "web-1700000009999") 1700000009999 in
  CallState.getActiveCall demoRegistry c1 = Some 0
  ∧ CallState.deref demoRegistry 0 = Some demoCall
  ∧ CallState.getActiveCall st' c1 = Some ref'
  ∧ ref' ≠ 0
  ∧ (CallState.transcriptSegments <$> CallState.deref st' ref') = Some []
  ∧ (CallState.clientId <$> CallState.deref st' ref') = Some (js "client-2").
Proof. vm_compute. repeat split; try reflexivity. discriminate. Qed.

(** C3, amended. [createActiveCall] never fails: whatever the registry
    holds, it returns a fresh call (empty history, no segments, [turnIndex]
    0) and the map sends [callId] to that call, replacing any earlier
    entry; the other keys keep their calls. *)
Theorem C3_create_always_replaces st callId clientId sid now :
  let fresh :=
    {| CallState.callId := callId;
       CallState.clientId := clientId;
       CallState.twilioCallSid := sid;
       CallState.conversationHistory := [];
       CallState.transcriptSegments := [];
       CallState.turnIndex := 0;
       CallState.startedAt := now |} in
  let st' := (CallState.createActiveCall st callId clientId sid now).1 in
  let ref := (CallState.createActiveCall st callId clientId sid now).2 in
  CallState.getActiveCall st' callId = Some ref
  ∧ CallState.deref st' ref = Some fresh
  ∧ CallState.deref st ref = None
  ∧ ∀ k, k ≠ callId →
         CallState.getActiveCall st' k = CallState.getActiveCall st k.
Proof.
  simpl. unfold CallState.getActiveCall, CallState.deref; simpl.
  split; [apply lookup_insert_eq |].
  split; [by apply list_lookup_middle |].
  split; [by apply lookup_ge_None_2 |].
  intros k Hk. by rewrite lookup_insert_ne.
Qed.

Lemma C3_create_always_replaces_witness :
  js "call-2" ≠ c1
  ∧ CallState.getActiveCall
      (CallState.createActiveCall demoRegistry c1 u1 (js "web-2") 7).1
      (js "call-2")
    = CallState.getActiveCall demoRegistry (js "call-2").
Proof.
  assert (H : js "call-2" ≠ c1) by (vm_compute; discriminate).
  split; [exact H |].
  exact (proj2 (proj2 (proj2
           (C3_create_always_replaces demoRegistry c1 u1 (js "web-2") 7)))
           (js "call-2") H).
Defined.

(** ** The routes *)

Section routes.
Implicit Types (w : Routes.World) (env : Routes.TurnEnv).

Lemma finalizeCall_heap w k fenv :
  CallState.heap (Routes.registry (Routes.finalizeCall w k fenv).1)
  = CallState.heap (Routes.registry w).
Proof.
  unfold Routes.finalizeCall.
  destruct (CallState.getActiveCall (Routes.registry w) k) as [ref |] eqn:E;
    [| done].
  destruct (Routes.updateClientThrows fenv), (Routes.fallbackUpdateThrows fenv),
    (Routes.updateCallThrows fenv); simpl; try done;
    unfold CallState.removeActiveCall; unfold CallState.getActiveCall in E;
    by rewrite E.
Qed.

Lemma finalizeCall_absent w k fenv :
  CallState.getActiveCall (Routes.registry w) k = None →
  Routes.finalizeCall w k fenv = (w, Routes.Returned).
Proof. intros H. unfold Routes.finalizeCall. by rewrite H. Qed.

Lemma finalizeCall_returned w k fenv w' :
  Routes.finalizeCall w k fenv = (w', Routes.Returned) →
  CallState.getActiveCall (Routes.registry w') k = None.
Proof.
  unfold Routes.finalizeCall.
  destruct (CallState.getActiveCall (Routes.registry w) k) as [ref |] eqn:E.
  - destruct (Routes.updateClientThrows fenv),
      (Routes.fallbackUpdateThrows fenv), (Routes.updateCallThrows fenv);
      simpl; intros H; try discriminate; injection H as <-; simpl;
      unfold CallState.removeActiveCall, CallState.getActiveCall in *;
      rewrite E; simpl; apply lookup_delete_eq.
  - intros H. injection H as <-. exact E.
Qed.

Lemma finalizeCall_published w k fenv :
  ∃ rest,
    Websocket.published (Routes.hub (Routes.finalizeCall w k fenv).1)
    = Websocket.published (Routes.hub w) ++ rest.
Proof.
  unfold Routes.finalizeCall.
  destruct (CallState.getActiveCall (Routes.registry w) k) as [ref |] eqn:E;
    [| exists []; by rewrite app_nil_r].
  destruct (Routes.updateClientThrows fenv), (Routes.fallbackUpdateThrows fenv),
    (Routes.updateCallThrows fenv); simpl;
    try (exists []; by rewrite app_nil_r); eexists; reflexivity.
Qed.

(** Ending a registered call completes whenever the storage writes go
    through. *)
Lemma endCall_completes w k fenv ref :
  CallState.getActiveCall (Routes.registry w) k = Some ref →
  Routes.updateCallThrows fenv = false →
  Routes.updateClientThrows fenv = false
  ∨ Routes.fallbackUpdateThrows fenv = false →
  (Routes.endCall w k fenv).2 = Routes.EndOk.
Proof.
  intros Hget Hcall Hclient. unfold Routes.endCall, Routes.finalizeCall.
  rewrite Hget, Hcall.
  destruct Hclient as [-> | ->];
    destruct (Routes.updateClientThrows fenv); reflexivity.
Qed.

(** The registry after the two appends of one voice turn. *)
Lemma turn_appends (st : CallState.Registry) k ref call
    text1 e1 q1 t1 text2 e2 q2 t2 :
  CallState.activeCalls st !! k = Some ref →
  CallState.deref st ref = Some call →
  let stA :=
    CallState.addTranscriptSegment
      (CallState.addConversationTurn st k LlmConversation.user text1)
      k CallState.caller text1 e1 q1 t1 in
  let stB :=
    CallState.addTranscriptSegment
      (CallState.addConversationTurn stA k LlmConversation.assistant text2)
      k CallState.agent text2 e2 q2 t2 in
  Routes.turnIndexAt stA ref = S (CallState.turnIndex call)
  ∧ Routes.turnIndexAt stB ref = S (S (CallState.turnIndex call))
  ∧ CallState.activeCalls stB = CallState.activeCalls st
  ∧ ∃ call',
      CallState.deref stB ref = Some call'
      ∧ CallState.turnIndex call' = S (S (CallState.turnIndex call))
      ∧ CallState.transcriptSegments call'
        = CallState.transcriptSegments call
            ++ [ {| CallState.Seg.speaker := CallState.caller;
                    CallState.Seg.text := text1;
                    CallState.Seg.emotion := e1;
                    CallState.Seg.confidence := q1;
                    CallState.Seg.timestamp := t1;
                    CallState.Seg.turnIndex := CallState.turnIndex call |};
                 {| CallState.Seg.speaker := CallState.agent;
                    CallState.Seg.text := text2;
                    CallState.Seg.emotion := e2;
                    CallState.Seg.confidence := q2;
                    CallState.Seg.timestamp := t2;
                    CallState.Seg.turnIndex :=
                      S (CallState.turnIndex call) |} ].
Proof.
  intros Hk Hd. cbv zeta.
  rewrite (addConversationTurn_present st k ref) by done.
  rewrite !(addTranscriptSegment_present _ k ref) by done.
  rewrite (addConversationTurn_present _ k ref) by done.
  rewrite !(addTranscriptSegment_present _ k ref) by done.
  unfold Routes.turnIndexAt.
  rewrite !deref_mutate, Hd. simpl.
  split; [done |]. split; [done |]. split; [done |].
  eexists. split; [reflexivity |]. simpl. split; [done |].
  by rewrite <- app_assoc.
Qed.

Lemma trimStart_blank (s : jsstring) :
  Forall (λ c, JS.isWhiteSpace c = true) s → JS.trimStart s = [].
Proof.
  induction 1 as [| c s Hc _ IH]; [done |]. simpl. by rewrite Hc.
Qed.

Lemma trim_blank (s : jsstring) :
  Forall (λ c, JS.isWhiteSpace c = true) s → JS.trim s = [].
Proof.
  intros H. unfold JS.trim, JS.trimEnd. by rewrite (trimStart_blank s H).
Qed.

Lemma trim_nonempty (s : jsstring) : JS.trim s ≠ [] → JS.truthy s = true.
Proof. destruct s; [intros H; by destruct H | done]. Qed.

Lemma truthy_nonempty (s : jsstring) : s ≠ [] → JS.truthy s = true.
Proof. by destruct s. Qed.

(** Everything one voice turn with audible text does to the call object
    and to the stream of published messages. *)
Lemma processTurn_effects w callId callerText env ref call :
  CallState.wf (Routes.registry w) →
  CallState.getActiveCall (Routes.registry w) callId = Some ref →
  CallState.deref (Routes.registry w) ref = Some call →
  JS.trim callerText ≠ [] →
  ∃ s1 s2 m1 m2 call' rest,
    CallState.deref
      (Routes.registry
         (Routes.processTurn w callId (Some callerText) env).1) ref
    = Some call'
    ∧ CallState.transcriptSegments call'
      = CallState.transcriptSegments call ++ [s1; s2]
    ∧ CallState.turnIndex call' = S (S (CallState.turnIndex call))
    ∧ Websocket.published
        (Routes.hub (Routes.processTurn w callId (Some callerText) env).1)
      = Websocket.published (Routes.hub w)
          ++ Websocket.Transcript m1 :: Websocket.Transcript m2 :: rest
    ∧ (CallState.Seg.speaker s1 = CallState.caller
       ∧ CallState.Seg.text s1 = callerText
       ∧ CallState.Seg.turnIndex s1 = CallState.turnIndex call)
    ∧ (CallState.Seg.speaker s2 = CallState.agent
       ∧ CallState.Seg.turnIndex s2 = S (CallState.turnIndex call))
    ∧ (Websocket.speaker m1 = CallState.caller
       ∧ Websocket.text m1 = CallState.Seg.text s1
       ∧ Websocket.turnIndex m1 = S (CallState.turnIndex call))
    ∧ (Websocket.speaker m2 = CallState.agent
       ∧ Websocket.text m2 = CallState.Seg.text s2
       ∧ Websocket.turnIndex m2 = S (S (CallState.turnIndex call))).
Proof.
  intros Hwf Hget Hd Htrim.
  destruct (Hwf _ _ Hget) as (call0 & Hd0 & Hid).
  rewrite Hd in Hd0. injection Hd0 as <-.
  unfold Routes.processTurn. rewrite Hget.
  rewrite (trim_nonempty _ Htrim), (truthy_nonempty _ Htrim).
  cbn [negb orb]. rewrite Hd. cbn [from_option]. rewrite Hid. cbv zeta.
  match goal with
  | |- context [CallState.addTranscriptSegment
                  (CallState.addConversationTurn
                     (CallState.addTranscriptSegment
                        (CallState.addConversationTurn _ _ _ ?x1)
                        _ _ _ ?e1 ?q1 ?t1) _ _ ?x2) _ _ _ ?e2 ?q2 ?t2] =>
      destruct (turn_appends (Routes.registry w) callId ref call
                  x1 e1 q1 t1 x2 e2 q2 t2 Hget Hd)
        as (HA & HB & Hact & call' & Hd' & Hti & Hsegs)
  end.
  cbv zeta in HA, HB, Hact, Hd'.
  rewrite HA, HB.
  match goal with
  | |- context [if ?b then _ else _] => destruct b
  end.
  - match goal with
    | |- context [Routes.finalizeCall ?w' ?k ?e] =>
        pose proof (finalizeCall_heap w' k e) as Hheap;
        destruct (finalizeCall_published w' k e) as [rest Hpub];
        destruct (Routes.finalizeCall w' k e) as [w'' []]
    end;
      simpl in Hheap, Hpub; simpl;
      (eexists _, _, _, _, call', rest;
       split; [unfold CallState.deref in *; by rewrite Hheap |];
       split; [exact Hsegs |]; split; [exact Hti |];
       split; [rewrite Hpub, <- !app_assoc; reflexivity |];
       simpl; done).
  - simpl. eexists _, _, _, _, call', [].
    split; [exact Hd' |]. split; [exact Hsegs |]. split; [exact Hti |].
    split; [rewrite <- !app_assoc; reflexivity |]. simpl. done.
Qed.

End routes.

Lemma demoWorld_wf : CallState.wf (Routes.registry demoWorld).
Proof. apply wf_run, wf_empty. Qed.

(** C1. For an active call and caller text that is not blank, the voice
    turn appends exactly two transcript segments to the call, the
    caller's and then the agent's, and the call's [turnIndex] grows by
    exactly 2; this holds whether or not the turn goes on to finalize the
    call. *)
Theorem C1_voice_turn_appends_two w callId callerText env ref call :
  CallState.wf (Routes.registry w) →
  CallState.getActiveCall (Routes.registry w) callId = Some ref →
  CallState.deref (Routes.registry w) ref = Some call →
  JS.trim callerText ≠ [] →
  ∃ s1 s2 call',
    CallState.deref
      (Routes.registry
         (Routes.processTurn w callId (Some callerText) env).1) ref
    = Some call'
    ∧ CallState.transcriptSegments call'
      = CallState.transcriptSegments call ++ [s1; s2]
    ∧ CallState.Seg.speaker s1 = CallState.caller
    ∧ CallState.Seg.text s1 = callerText
    ∧ CallState.Seg.speaker s2 = CallState.agent
    ∧ CallState.turnIndex call' = CallState.turnIndex call + 2.
Proof.
  intros Hwf Hget Hd Htrim.
  destruct (processTurn_effects w callId callerText env ref call
              Hwf Hget Hd Htrim)
    as (s1 & s2 & m1 & m2 & call' & rest & Hd' & Hsegs & Hti & _
        & (Hs1 & Ht1 & _) & (Hs2 & _) & _).
  exists s1, s2, call'. repeat split; try done. lia.
Qed.

Lemma C1_voice_turn_appends_two_witness :
  CallState.getActiveCall (Routes.registry demoWorld) c1 = Some 0
  ∧ CallState.deref (Routes.registry demoWorld) 0 = Some demoCall
  ∧ JS.trim demoText ≠ []
  ∧ ∃ s1 s2 call',
      CallState.deref
        (Routes.registry
           (Routes.processTurn demoWorld c1 (Some demoText)
              (demoEnv "I'm sorry to hear that. Where are you staying?")).1) 0
      = Some call'
      ∧ CallState.transcriptSegments call'
        = CallState.transcriptSegments demoCall ++ [s1; s2]
      ∧ CallState.Seg.speaker s1 = CallState.caller
      ∧ CallState.Seg.text s1 = demoText
      ∧ CallState.Seg.speaker s2 = CallState.agent
      ∧ CallState.turnIndex call' = CallState.turnIndex demoCall + 2.
Proof.
  assert (H1 : CallState.getActiveCall (Routes.registry demoWorld) c1 = Some 0)
    by (vm_compute; reflexivity).
  assert (H2 : CallState.deref (Routes.registry demoWorld) 0 = Some demoCall)
    by (vm_compute; reflexivity).
  assert (H3 : JS.trim demoText ≠ []) by (vm_compute; discriminate).
  split; [exact H1 |]. split; [exact H2 |]. split; [exact H3 |].
  exact (C1_voice_turn_appends_two demoWorld c1 demoText _ 0 demoCall
           demoWorld_wf H1 H2 H3).
Defined.

(** C4. For an active call, caller text that is empty or consists of
    white space only is answered at once with an empty agent text, no
    sentence emotions and [isComplete = false]; registry, hub (nothing
    published, nothing sent) and storage are exactly as before. *)
Theorem C4_blank_turn_changes_nothing w callId callerText env ref :
  CallState.getActiveCall (Routes.registry w) callId = Some ref →
  Forall (λ c, JS.isWhiteSpace c = true) callerText →
  Routes.processTurn w callId (Some callerText) env
  = (w, Routes.TurnOk [] [] false).
Proof.
  intros Hget Hblank. unfold Routes.processTurn. rewrite Hget.
  rewrite (trim_blank _ Hblank). simpl.
  by rewrite orb_true_r.
Qed.

Lemma C4_blank_turn_changes_nothing_witness :
  CallState.getActiveCall (Routes.registry demoWorld) c1 = Some 0
  ∧ Forall (λ c, JS.isWhiteSpace c = true) (js "   ")
  ∧ Routes.processTurn demoWorld c1 (Some (js "   ")) (demoEnv "Hello?")
    = (demoWorld, Routes.TurnOk [] [] false).
Proof.
  assert (H1 : CallState.getActiveCall (Routes.registry demoWorld) c1 = Some 0)
    by (vm_compute; reflexivity).
  assert (H2 : Forall (λ c, JS.isWhiteSpace c = true) (js "   "))
    by (repeat constructor).
  split; [exact H1 |]. split; [exact H2 |].
  exact (C4_blank_turn_changes_nothing demoWorld c1 (js "   ") _ 0 H1 H2).
Defined.

(** C5. When [endCall] answers "completed", the call is gone from the
    registry and ending it once more answers NotFound and leaves the
    whole state alone; ending any call that is not in the registry
    answers NotFound and leaves the whole state alone. *)
Theorem C5_end_call_removes_then_not_found w callId fenv w' :
  Routes.endCall w callId fenv = (w', Routes.EndOk) →
  CallState.getActiveCall (Routes.registry w') callId = None
  ∧ (∀ fenv', Routes.endCall w' callId fenv' = (w', Routes.NotFound))
  ∧ (∀ w0 other fenv',
       CallState.getActiveCall (Routes.registry w0) other = None →
       Routes.endCall w0 other fenv' = (w0, Routes.NotFound)).
Proof.
  intros Hend.
  assert (Habsent : ∀ w0 other fenv',
             CallState.getActiveCall (Routes.registry w0) other = None →
             Routes.endCall w0 other fenv' = (w0, Routes.NotFound)).
  { intros w0 other fenv' H. unfold Routes.endCall. by rewrite H. }
  assert (Hgone : CallState.getActiveCall (Routes.registry w') callId = None).
  { unfold Routes.endCall in Hend.
    destruct (CallState.getActiveCall (Routes.registry w) callId); [| done].
    destruct (Routes.finalizeCall w callId fenv) as [w1 []] eqn:Hfin;
      [| done].
    injection Hend as <-. exact (finalizeCall_returned _ _ _ _ Hfin). }
  split; [exact Hgone |]. split; [| exact Habsent].
  intros fenv'. by apply Habsent.
Qed.

Lemma C5_end_call_removes_then_not_found_witness :
  Routes.endCall demoWorld c1 storageUp
  = ((Routes.endCall demoWorld c1 storageUp).1, Routes.EndOk)
  ∧ CallState.getActiveCall
      (Routes.registry (Routes.endCall demoWorld c1 storageUp).1) c1 = None.
Proof.
  assert (H : Routes.endCall demoWorld c1 storageUp
              = ((Routes.endCall demoWorld c1 storageUp).1, Routes.EndOk))
    by (vm_compute; reflexivity).
  split; [exact H |].
  exact (proj1 (C5_end_call_removes_then_not_found demoWorld c1 storageUp _ H)).
Defined.

(** C10. In a voice turn with audible text, the transcript event
    published for the caller's segment and the one published for the
    agent's segment each carry the registry's [turnIndex] as it stands
    after that segment was appended, which is one more than the
    [turnIndex] stored in the segment itself: the caller's event carries
    the index under which the agent's segment is then stored, the agent's
    event the final [turnIndex] of the call. *)
Theorem C10_published_turnIndex_is_one_ahead w callId callerText env ref call :
  CallState.wf (Routes.registry w) →
  CallState.getActiveCall (Routes.registry w) callId = Some ref →
  CallState.deref (Routes.registry w) ref = Some call →
  JS.trim callerText ≠ [] →
  ∃ s1 s2 m1 m2 call' rest,
    CallState.deref
      (Routes.registry
         (Routes.processTurn w callId (Some callerText) env).1) ref
    = Some call'
    ∧ CallState.transcriptSegments call'
      = CallState.transcriptSegments call ++ [s1; s2]
    ∧ Websocket.published
        (Routes.hub (Routes.processTurn w callId (Some callerText) env).1)
      = Websocket.published (Routes.hub w)
          ++ Websocket.Transcript m1 :: Websocket.Transcript m2 :: rest
    ∧ (Websocket.speaker m1 = CallState.caller
       ∧ Websocket.text m1 = CallState.Seg.text s1
       ∧ Websocket.turnIndex m1 = S (CallState.turnIndex call)
       ∧ Websocket.turnIndex m1 = S (CallState.Seg.turnIndex s1))
    ∧ (Websocket.speaker m2 = CallState.agent
       ∧ Websocket.text m2 = CallState.Seg.text s2
       ∧ Websocket.turnIndex m2 = CallState.turnIndex call'
       ∧ Websocket.turnIndex m2 = S (CallState.Seg.turnIndex s2))
    ∧ CallState.Seg.turnIndex s2 = Websocket.turnIndex m1.
Proof.
  intros Hwf Hget Hd Htrim.
  destruct (processTurn_effects w callId callerText env ref call
              Hwf Hget Hd Htrim)
    as (s1 & s2 & m1 & m2 & call' & rest & Hd' & Hsegs & Hti & Hpub
        & (_ & _ & Hi1) & (_ & Hi2) & (Hm1 & Hx1 & Hj1) & (Hm2 & Hx2 & Hj2)).
  exists s1, s2, m1, m2, call', rest.
  repeat split; try done; congruence.
Qed.

Lemma C10_published_turnIndex_is_one_ahead_witness :
  CallState.getActiveCall (Routes.registry demoWorld) c1 = Some 0
  ∧ CallState.deref (Routes.registry demoWorld) 0 = Some demoCall
  ∧ JS.trim demoText ≠ []
  ∧ ∃ s1 s2 m1 m2 call' rest,
      CallState.deref
        (Routes.registry
           (Routes.processTurn demoWorld c1 (Some demoText)
              (demoEnv "Thank you. [CALL_COMPLETE]")).1) 0
      = Some call'
      ∧ CallState.transcriptSegments call'
        = CallState.transcriptSegments demoCall ++ [s1; s2]
      ∧ Websocket.published
          (Routes.hub
             (Routes.processTurn demoWorld c1 (Some demoText)
                (demoEnv "Thank you. [CALL_COMPLETE]")).1)
        = Websocket.published (Routes.hub demoWorld)
            ++ Websocket.Transcript m1 :: Websocket.Transcript m2 :: rest
      ∧ (Websocket.speaker m1 = CallState.caller
         ∧ Websocket.text m1 = CallState.Seg.text s1
         ∧ Websocket.turnIndex m1 = S (CallState.turnIndex demoCall)
         ∧ Websocket.turnIndex m1 = S (CallState.Seg.turnIndex s1))
      ∧ (Websocket.speaker m2 = CallState.agent
         ∧ Websocket.text m2 = CallState.Seg.text s2
         ∧ Websocket.turnIndex m2 = CallState.turnIndex call'
         ∧ Websocket.turnIndex m2 = S (CallState.Seg.turnIndex s2))
      ∧ CallState.Seg.turnIndex s2 = Websocket.turnIndex m1.
Proof.
  assert (H1 : CallState.getActiveCall (Routes.registry demoWorld) c1 = Some 0)
    by (vm_compute; reflexivity).
  assert (H2 : CallState.deref (Routes.registry demoWorld) 0 = Some demoCall)
    by (vm_compute; reflexivity).
  assert (H3 : JS.trim demoText ≠ []) by (vm_compute; discriminate).
  split; [exact H1 |]. split; [exact H2 |]. split; [exact H3 |].
  exact (C10_published_turnIndex_is_one_ahead demoWorld c1 demoText
           (demoEnv "Thank you. [CALL_COMPLETE]") 0 demoCall
           demoWorld_wf H1 H2 H3).
Defined.

(** The same turn, evaluated: the stored segments carry 1 and 2, the
    published events 2 and 3. *)
Example published_indices_demo :
  let w' :=
    (Routes.processTurn demoWorld c1 (Some demoText)
       (demoEnv "I'm sorry to hear that. Where are you staying?")).1 in
  (CallState.Seg.turnIndex
     <$> from_option CallState.transcriptSegments []
           (CallState.deref (Routes.registry w') 0)) = [0; 1; 2]
  ∧ (omap (λ m, match m with
                | Websocket.Transcript d => Some (Websocket.turnIndex d)
                | _ => None
                end) (Websocket.published (Routes.hub w'))) = [2; 3].
Proof. vm_compute. split; reflexivity. Qed.

(** The first caller turn of a call, with every provider down: one
    sentence, classified as anxiety by the keyword matcher, and the call
    goes on. *)
Example first_turn_offline :
  (Routes.processTurn demoWorld c1 (Some (js "I lost my job and I'm scared"))
     {| Routes.sentenceAnalysis := λ _, offline;
        Routes.overallAnalysis := offline;
        Routes.chat := LlmConversation.ChatThrew;
        Routes.clock := λ _, 0%Z;
        Routes.finalization := storageUp |}).2
  = Routes.TurnOk
      (js "Thank you for sharing that. Could you tell me a bit more about your situation?")
      [ {| Websocket.Sentence.text := js "I lost my job and I'm scared";
           Websocket.Sentence.emotion := js "anxiety";
           Websocket.Sentence.confidence := 6 # 10 |} ]
      false.
Proof. vm_compute. reflexivity. Qed.

(** A reply that ends with the marker finalizes the call: the answer
    says so and the registry no longer holds the call. *)
Example completing_turn_removes_call :
  let r :=
    Routes.processTurn demoWorld c1 (Some demoText)
      (demoEnv "Thank you, a caseworker will follow up. [CALL_COMPLETE]") in
  (match r.2 with
   | Routes.TurnOk agentText _ isComplete =>
       Some (agentText, isComplete)
   | _ => None
   end) = Some (js "Thank you, a caseworker will follow up.", true)
  ∧ CallState.getActiveCall (Routes.registry r.1) c1 = None.
Proof. vm_compute. split; reflexivity. Qed.

(** ** The conversation engine *)

(** The completion flag is exactly the presence of the marker in the
    text the engine works on. *)
Lemma isComplete_iff_marker history latest raw :
  raw ≠ [] →
  LlmConversation.isComplete
    (LlmConversation.generateNextResponse history latest
       (LlmConversation.ChatContent (Some raw)))
  = JS.includes raw LlmConversation.CALL_COMPLETE.
Proof. intros H. destruct raw; [done |]. reflexivity. Qed.

(** C6, at a reply that carries the marker twice: the turn is complete,
    and the text handed back still contains the marker, because only the
    first occurrence is replaced. *)
Theorem C6_second_marker_survives :
  let r :=
    LlmConversation.generateNextResponse [] (js "Goodbye")
      (LlmConversation.ChatContent (Some twiceMarked)) in
  JS.includes twiceMarked LlmConversation.CALL_COMPLETE = true
  ∧ LlmConversation.isComplete r = true
  ∧ LlmConversation.response r
    = js "Thank you, a caseworker will follow up.  [CALL_COMPLETE]"
  ∧ JS.includes (LlmConversation.response r) LlmConversation.CALL_COMPLETE
    = true.
Proof. vm_compute. repeat split. Qed.

(** ** Numbers *)

Section numbers.
Local Open Scope Q_scope.

Lemma pow2_pos k : 0 < JS.pow2 k.
Proof. unfold JS.pow2. apply Qpower_0_lt. reflexivity. Qed.

Lemma pow2_add a b : JS.pow2 (a + b) == JS.pow2 a * JS.pow2 b.
Proof. unfold JS.pow2. apply Qpower_plus. discriminate. Qed.

Lemma pow2_Z (k : Z) : (0 <= k)%Z → JS.pow2 k == inject_Z (2 ^ k).
Proof. intros Hk. unfold JS.pow2. by rewrite (Zpower_Qpower 2 k Hk). Qed.

Lemma roundEven_close (y : Q) :
  y - (1 # 2) <= inject_Z (JS.roundEven y)
  ∧ inject_Z (JS.roundEven y) <= y + (1 # 2).
Proof.
  unfold JS.roundEven.
  pose proof (Qfloor_le y) as Hlo. pose proof (Qlt_floor y) as Hhi.
  rewrite inject_Z_plus in Hhi. change (inject_Z 1) with 1 in Hhi.
  destruct (Qcompare_spec (y - inject_Z (Qfloor y)) (1 # 2)) as [E | E | E].
  - destruct (Z.even (Qfloor y)).
    + split; lra.
    + rewrite inject_Z_plus. change (inject_Z 1) with 1. split; lra.
  - split; lra.
  - rewrite inject_Z_plus. change (inject_Z 1) with 1. split; lra.
Qed.

(** The exponent that [JS.exponent] picks is not too large. *)
Lemma exponent_le (x : Q) : 0 < x → JS.pow2 (JS.exponent x) <= x.
Proof.
  intros Hx. unfold JS.exponent.
  set (a := Z.log2 (Qnum x)). set (b := Z.log2 (Z.pos (Qden x))).
  destruct (Qle_bool (JS.pow2 (a - b)) x) eqn:E; [by apply Qle_bool_iff |].
  assert (Hn : (0 < Qnum x)%Z).
  { destruct x as [n d]. unfold Qlt in Hx. simpl in *. lia. }
  destruct (Z.log2_spec (Qnum x) Hn) as [Ha _].
  destruct (Z.log2_spec (Z.pos (Qden x)) eq_refl) as [_ Hb].
  fold a in Ha. fold b in Hb.
  assert (Ha0 : (0 <= a)%Z) by apply Z.log2_nonneg.
  assert (Hb0 : (0 <= b)%Z) by apply Z.log2_nonneg.
  pose proof (pow2_add (a - b - 1) (b + 1)) as Hsplit.
  replace (a - b - 1 + (b + 1))%Z with a in Hsplit by lia.
  rewrite (pow2_Z a Ha0) in Hsplit.
  rewrite (pow2_Z (b + 1)) in Hsplit by lia.
  pose proof (pow2_pos (a - b - 1)) as Hp.
  rewrite Zle_Qle in Ha. rewrite Zlt_Qlt in Hb.
  replace (Z.succ b) with (b + 1)%Z in Hb by lia.
  set (P := JS.pow2 (a - b - 1)) in *.
  set (A := inject_Z (2 ^ a)) in *. set (B := inject_Z (2 ^ (b + 1))) in *.
  set (n := inject_Z (Qnum x)) in *. set (d := inject_Z (Z.pos (Qden x))) in *.
  assert (Hd : 0 < d) by (unfold d; rewrite <- (Zlt_Qlt 0); lia).
  assert (Hx' : x == n / d).
  { unfold n, d. rewrite <- Qmake_Qdiv. by destruct x. }
  rewrite Hx'. apply Qle_shift_div_l; [done |].
  clearbody P A B n d. nra.
Qed.

Lemma flPos_close (x : Q) :
  0 < x → x - ulp * x <= JS.flPos x ∧ JS.flPos x <= x + ulp * x.
Proof.
  intros Hx. unfold JS.flPos, ulp.
  pose proof (exponent_le x Hx) as He.
  set (e := JS.exponent x) in *.
  destruct (roundEven_close (x * JS.pow2 (52 - e))) as [Hlo Hhi].
  set (m := inject_Z (JS.roundEven (x * JS.pow2 (52 - e)))) in *.
  pose proof (pow2_add (52 - e) (e - 52)) as Hst.
  replace (52 - e + (e - 52))%Z with 0%Z in Hst by lia.
  change (JS.pow2 0) with 1 in Hst.
  pose proof (pow2_add e (52 - e)) as H52.
  replace (e + (52 - e))%Z with 52%Z in H52 by lia.
  change (JS.pow2 52) with (4503599627370496 # 1) in H52.
  pose proof (pow2_pos (52 - e)) as Hs. pose proof (pow2_pos (e - 52)) as Ht.
  pose proof (pow2_pos e) as HE.
  set (s := JS.pow2 (52 - e)) in *. set (t := JS.pow2 (e - 52)) in *.
  set (E := JS.pow2 e) in *. clearbody s t E m.
  assert (Hxs : x == x * s * t) by (rewrite <- Qmult_assoc, <- Hst; ring).
  assert (Hhalf : t * (1 # 2) <= (1 # 9007199254740992) * x).
  { assert (H1 : (4503599627370496 # 1) * t <= x).
    { rewrite Hxs. rewrite H52.
      apply Qmult_le_compat_r; [| lra].
      apply Qmult_le_compat_r; lra. }
    lra. }
  split.
  - apply Qle_trans with ((x * s - (1 # 2)) * t).
    + rewrite Hxs at 1. ring_simplify. lra.
    + apply Qmult_le_compat_r; lra.
  - apply Qle_trans with ((x * s + (1 # 2)) * t).
    + apply Qmult_le_compat_r; lra.
    + rewrite Hxs at 2. ring_simplify. lra.
Qed.

(** A rounded result is within one part in [2^53] of the exact one. *)
Lemma fl_close (x : Q) : Qabs (JS.fl x - x) <= ulp * Qabs x.
Proof.
  unfold JS.fl. destruct x as [n d]. destruct n as [| p | p]; simpl Qnum.
  - by vm_compute.
  - assert (Hx : 0 < Z.pos p # d) by done.
    destruct (flPos_close _ Hx) as [Hlo Hhi].
    rewrite (Qabs_pos (Z.pos p # d)) by lra.
    apply Qabs_Qle_condition. split; lra.
  - assert (Hx : 0 < - (Z.neg p # d)) by done.
    destruct (flPos_close _ Hx) as [Hlo Hhi].
    rewrite (Qabs_neg (Z.neg p # d)) by (apply Qlt_le_weak; done).
    apply Qabs_Qle_condition. split; lra.
Qed.

Lemma fl_bounds (x : Q) :
  0 <= x → x - ulp * x <= JS.fl x ∧ JS.fl x <= x + ulp * x.
Proof.
  intros Hx. pose proof (fl_close x) as H.
  rewrite (Qabs_pos x Hx) in H. apply Qabs_Qle_condition in H. split; lra.
Qed.

(** Rounding cannot push a result beyond a bound by more than that
    part of the bound. *)
Lemma fl_upper (x b : Q) : x <= b → 0 <= b → JS.fl x <= b * (1 + ulp).
Proof.
  intros Hxb Hb. pose proof (fl_close x) as H.
  assert (Hu : 0 < ulp) by done.
  destruct (Qlt_le_dec x 0) as [Hneg | Hpos].
  - rewrite (Qabs_neg x) in H by lra. apply Qabs_Qle_condition in H.
    assert (0 <= b * ulp) by (apply Qmult_le_0_compat; lra).
    assert (0 <= - x * (1 - ulp)).
    { apply Qmult_le_0_compat; [lra |]. unfold ulp. done. }
    lra.
  - rewrite (Qabs_pos x) in H by lra. apply Qabs_Qle_condition in H.
    assert (x * ulp <= b * ulp) by (apply Qmult_le_compat_r; lra).
    lra.
Qed.

Lemma fl_lower (x b : Q) : - b <= x → 0 <= b → - (b * (1 + ulp)) <= JS.fl x.
Proof.
  intros Hxb Hb. pose proof (fl_close x) as H.
  assert (Hu : 0 < ulp) by done.
  destruct (Qlt_le_dec x 0) as [Hneg | Hpos].
  - rewrite (Qabs_neg x) in H by lra. apply Qabs_Qle_condition in H.
    assert (- x * ulp <= b * ulp) by (apply Qmult_le_compat_r; lra).
    lra.
  - rewrite (Qabs_pos x) in H by lra. apply Qabs_Qle_condition in H.
    assert (0 <= b * ulp) by (apply Qmult_le_0_compat; lra).
    assert (0 <= x * (1 - ulp)).
    { apply Qmult_le_0_compat; [lra |]. unfold ulp. done. }
    lra.
Qed.

Lemma qNat_S (n : nat) : Modulate.qNat (S n) == Modulate.qNat n + 1.
Proof.
  unfold Modulate.qNat. rewrite Nat2Z.inj_succ, <- Z.add_1_r.
  by rewrite inject_Z_plus.
Qed.

Lemma qNat_pos (n : nat) : n ≠ 0%nat → 0 < Modulate.qNat n.
Proof.
  intros Hn. unfold Modulate.qNat.
  change 0 with (inject_Z 0). rewrite <- Zlt_Qlt. lia.
Qed.

Lemma qNat_nonneg (n : nat) : 0 <= Modulate.qNat n.
Proof.
  unfold Modulate.qNat. change 0 with (inject_Z 0). rewrite <- Zle_Qle. lia.
Qed.

(** [Math.round((count / total) * 100)] in double arithmetic is an
    integer nearest to the exact percentage, whichever way the rounding
    of the quotient and of the product resolves a tie. *)
Lemma percent_nearest (count total : nat) :
  (0 < count)%nat → (count <= total)%nat → (Z.of_nat total < 2 ^ 32)%Z →
  nearestPercent
    (Qfloor (JS.fl (JS.fl (Modulate.qNat count / Modulate.qNat total) * 100)
             + (1 # 2)))
    count total.
Proof.
  intros Hc Hct Ht. unfold nearestPercent.
  set (C := Z.of_nat count). set (T := Z.of_nat total).
  assert (HC : (0 < C)%Z) by lia. assert (HCT : (C <= T)%Z) by lia.
  unfold Modulate.qNat. fold C T.
  set (Cq := inject_Z C). set (Tq := inject_Z T).
  assert (HCq : 0 < Cq) by (unfold Cq; rewrite <- (Zlt_Qlt 0); lia).
  assert (HTq : 0 < Tq) by (unfold Tq; rewrite <- (Zlt_Qlt 0); lia).
  assert (HCTq : Cq <= Tq) by (unfold Cq, Tq; rewrite <- Zle_Qle; lia).
  assert (HT32 : Tq < 4294967296).
  { unfold Tq. change 4294967296 with (inject_Z (2 ^ 32)).
    by rewrite <- Zlt_Qlt. }
  set (r := Cq / Tq).
  assert (Hr : r * Tq == Cq) by (unfold r; field; lra).
  assert (Hr0 : 0 < r).
  { unfold r. apply Qlt_shift_div_l; lra. }
  assert (Hr1 : r <= 1).
  { unfold r. apply Qle_shift_div_r; lra. }
  destruct (fl_bounds r) as [H1lo H1hi]; [lra |].
  set (x1 := JS.fl r) in *.
  unfold ulp in *.
  destruct (fl_bounds (x1 * 100)) as [H2lo H2hi]; [lra |].
  unfold ulp in *.
  set (y := JS.fl (x1 * 100)) in *.
  pose proof (Qfloor_le (y + (1 # 2))) as Hzlo.
  pose proof (Qlt_floor (y + (1 # 2))) as Hzhi.
  rewrite inject_Z_plus in Hzhi. change (inject_Z 1) with 1 in Hzhi.
  set (zt := Qfloor (y + (1 # 2))) in *.
  set (z := inject_Z zt) in *.
  assert (Hw : 100 * Cq / Tq == 100 * r) by (unfold r; field; lra).
  rewrite Hw.
  (* the rounded product is very close to the exact percentage *)
  assert (Hy : 100 * r - (1 # 35184372088832) <= y
               ∧ y <= 100 * r + (1 # 35184372088832)).
  { clearbody x1 y r. split; lra. }
  destruct Hy as [Hylo Hyhi].
  split.
  - destruct (Z_lt_le_dec (2 * T * zt) (200 * C - T)) as [Hbad | Hok].
    + exfalso.
      assert (Hq : 2 * Tq * z + 1 <= 200 * Cq - Tq).
      { assert (H : inject_Z (2 * T * zt + 1) <= inject_Z (200 * C + - T))
          by (rewrite <- Zle_Qle; lia).
        by rewrite !inject_Z_plus, !inject_Z_mult, inject_Z_opp in H. }
      assert (Hprod : Tq * (y - (1 # 2)) < Tq * z)
        by (apply Qmult_lt_l; lra).
      assert (Hprod2 : Tq * (100 * r - (1 # 35184372088832)) <= Tq * y)
        by (apply Qmult_le_l; lra).
      clearbody x1 y r z Cq Tq. nra.
    + assert (Hq : 200 * Cq - Tq <= 2 * Tq * z).
      { assert (H : inject_Z (200 * C + - T) <= inject_Z (2 * T * zt))
          by (rewrite <- Zle_Qle; lia).
        by rewrite !inject_Z_plus, !inject_Z_mult, inject_Z_opp in H. }
      assert (Hgoal : Tq * (100 * r - (1 # 2)) <= Tq * z).
      { clearbody x1 y r z Cq Tq. nra. }
      by apply Qmult_le_l in Hgoal.
  - destruct (Z_lt_le_dec (200 * C + T) (2 * T * zt)) as [Hbad | Hok].
    + exfalso.
      assert (Hq : 200 * Cq + Tq + 1 <= 2 * Tq * z).
      { assert (H : inject_Z (200 * C + T + 1) <= inject_Z (2 * T * zt))
          by (rewrite <- Zle_Qle; lia).
        by rewrite !inject_Z_plus, !inject_Z_mult in H. }
      assert (Hprod : Tq * z <= Tq * (y + (1 # 2)))
        by (apply Qmult_le_l; lra).
      assert (Hprod2 : Tq * y <= Tq * (100 * r + (1 # 35184372088832)))
        by (apply Qmult_le_l; lra).
      clearbody x1 y r z Cq Tq. nra.
    + assert (Hq : 2 * Tq * z <= 200 * Cq + Tq).
      { assert (H : inject_Z (2 * T * zt) <= inject_Z (200 * C + T))
          by (rewrite <- Zle_Qle; lia).
        by rewrite !inject_Z_plus, !inject_Z_mult in H. }
      assert (Hgoal : Tq * z <= Tq * (100 * r + (1 # 2))).
      { clearbody x1 y r z Cq Tq. nra. }
      by apply Qmult_le_l in Hgoal.
Qed.

End numbers.

(** Double arithmetic on the percentages of 23 and 17 sentences out of
    40: [23 / 40 * 100] is [57.49999999999999], which rounds to 57. *)
Example percent_of_23_in_40 :
  Modulate.hundredths 23 40 = ((57 # 1) / 100)%Q
  ∧ Modulate.hundredths 17 40 = ((43 # 1) / 100)%Q.
Proof. split; vm_compute; reflexivity. Qed.

(** ** The emotion classifier *)

Section classifier.

Lemma Qle_bool_false (a b : Q) : Qle_bool a b = false → (b < a)%Q.
Proof.
  intros H. apply Qnot_le_lt. intros Hle.
  apply Qle_bool_iff in Hle. congruence.
Qed.

Lemma clamp_bounds (x : Q) :
  within (3 # 10) (95 # 100)
    (Modulate.Math_min (Modulate.Math_max x (3 # 10)) (95 # 100)).
Proof.
  unfold within, Modulate.Math_min, Modulate.Math_max.
  destruct (Qle_bool x (3 # 10)) eqn:E1.
  - change (Qle_bool (3 # 10) (95 # 100)) with true. cbv iota.
    split; [apply Qle_refl | done].
  - apply Qle_bool_false in E1.
    destruct (Qle_bool x (95 # 100)) eqn:E2.
    + apply Qle_bool_iff in E2. split; [by apply Qlt_le_weak | done].
    + split; [done | apply Qle_refl].
Qed.

Lemma acc_emotions_push_all (P : Modulate.EmotionAnalysis → Prop) body
    segments i a :
  (∀ j s, P (body j s)) →
  Forall P (Modulate.acc_emotions a) →
  Forall P (Modulate.acc_emotions (Modulate.loopFrom body i segments a)).
Proof.
  intros Hbody. revert i a.
  induction segments as [| s rest IH]; intros i a Ha; [done |].
  simpl. apply IH. simpl. apply Forall_app. split; [done |].
  apply Forall_singleton, Hbody.
Qed.

Lemma loop_emotions body i segments a :
  Modulate.acc_emotions (Modulate.loopFrom body i segments a)
  = Modulate.acc_emotions a ++ imap (λ j s, body (i + j)%nat s) segments.
Proof.
  revert i a. induction segments as [| s rest IH]; intros i a.
  - simpl. by rewrite app_nil_r.
  - cbn [Modulate.loopFrom imap]. rewrite IH.
    cbn [Modulate.push Modulate.acc_emotions]. rewrite <- app_assoc.
    replace (i + 0)%nat with i by lia. simpl. do 2 f_equal.
    apply imap_ext. intros j x _. simpl. f_equal. lia.
Qed.

Lemma finish_emotions body segments :
  Modulate.emotions
    (Modulate.finish (Modulate.loopFrom body 0 segments Modulate.acc0)
       (length segments))
  = imap body segments.
Proof.
  unfold Modulate.finish. cbn [Modulate.emotions].
  rewrite loop_emotions. simpl. apply imap_ext. done.
Qed.

Lemma local_emotions transcript outcome s rest :
  Modulate.segmentsOf transcript = s :: rest →
  Modulate.emotions (Modulate.llmEmotionAnalysis transcript outcome)
  = imap (match outcome with
          | Modulate.LlmResults results => Modulate.llmBody results
          | _ => Modulate.keywordBody
          end) (s :: rest).
Proof.
  intros E. unfold Modulate.llmEmotionAnalysis. rewrite E.
  destruct outcome; unfold Modulate.simpleKeywordFallback;
    apply finish_emotions.
Qed.

Lemma keywordBody_inRange i s : inRange (Modulate.keywordBody i s).
Proof.
  unfold inRange, Modulate.keywordBody. simpl. case_decide; split; done.
Qed.

(** The clamp of one entry of the reply: within the bounds, unless the
    confidence of the entry is a truthy value that is no number. *)
Lemma llmBody_confidence results i s :
  match Modulate.seg_confidence (Modulate.resultAt results i) with
  | Modulate.nonNumeric =>
      Modulate.confidence (Modulate.llmBody results i s) = JS.NaN
  | _ => inRange (Modulate.llmBody results i s)
  end.
Proof.
  unfold inRange, Modulate.llmBody. cbn [Modulate.confidence].
  destruct (Modulate.seg_confidence (Modulate.resultAt results i));
    [apply clamp_bounds | apply clamp_bounds | reflexivity].
Qed.

Lemma resultAt_nonNumeric results i :
  Modulate.seg_confidence (Modulate.resultAt results i) = Modulate.nonNumeric →
  ∃ r, results !! i = Some (Some r)
       ∧ Modulate.seg_confidence r = Modulate.nonNumeric.
Proof.
  unfold Modulate.resultAt.
  destruct (results !! i) as [[r |] |]; [by exists r | done | done].
Qed.

Lemma inRange_not_NaN e : inRange e → Modulate.confidence e ≠ JS.NaN.
Proof. unfold inRange. by destruct (Modulate.confidence e). Qed.

End classifier.

(** C7 fails on the provider path: a 2xx reply of the affect-analysis
    provider is handed back as it came, so a confidence of 0.99 in the
    reply is a confidence of 0.99 in the result. *)
Lemma C7_provider_confidence_unclamped_counterexample :
  ¬ Forall inRange
      (Modulate.emotions
         (Modulate.analyzeEmotions (js "I'm scared") providerEnv)).
Proof.
  intros H. apply Forall_cons in H as [[_ H] _]. simpl in H.
  by vm_compute in H.
Qed.

(** C7, amended. Whenever the result is produced by the LLM-prompted
    classification or by the keyword fallback (no provider key, or the
    provider request failed), every confidence lies within [0.3, 0.95]
    or is NaN; it lies within [0.3, 0.95] for every sentence when each
    confidence of the model's reply is a number or is absent, and it is
    NaN only for a sentence whose entry of the reply carries a confidence
    that is truthy and not a number.  A successful provider reply is
    returned with the provider's own emotions, unchanged. *)
Theorem C7_confidence_clamped_on_local_paths transcript env :
  match Modulate.modulate env with
  | Modulate.FetchOk data =>
      Modulate.emotions (Modulate.analyzeEmotions transcript env)
      = default [] (Modulate.data_emotions data)
  | Modulate.NoApiKey | Modulate.FetchFailed =>
      Forall (λ e, inRange e ∨ Modulate.confidence e = JS.NaN)
        (Modulate.emotions (Modulate.analyzeEmotions transcript env))
      ∧ (numericReply (Modulate.llm env) →
         Forall inRange
           (Modulate.emotions (Modulate.analyzeEmotions transcript env)))
      ∧ ∀ i e,
          Modulate.emotions (Modulate.analyzeEmotions transcript env) !! i
          = Some e →
          Modulate.confidence e = JS.NaN →
          ∃ results r,
            Modulate.llm env = Modulate.LlmResults results
            ∧ results !! i = Some (Some r)
            ∧ Modulate.seg_confidence r = Modulate.nonNumeric
  end.
Proof.
  assert (Hlocal :
    Forall (λ e, inRange e ∨ Modulate.confidence e = JS.NaN)
      (Modulate.emotions (Modulate.llmEmotionAnalysis transcript (Modulate.llm env)))
    ∧ (numericReply (Modulate.llm env) →
       Forall inRange
         (Modulate.emotions
            (Modulate.llmEmotionAnalysis transcript (Modulate.llm env))))
    ∧ ∀ i e,
        Modulate.emotions
          (Modulate.llmEmotionAnalysis transcript (Modulate.llm env)) !! i
        = Some e →
        Modulate.confidence e = JS.NaN →
        ∃ results r,
          Modulate.llm env = Modulate.LlmResults results
          ∧ results !! i = Some (Some r)
          ∧ Modulate.seg_confidence r = Modulate.nonNumeric).
  { destruct (Modulate.segmentsOf transcript) as [| s rest] eqn:E.
    - unfold Modulate.llmEmotionAnalysis. rewrite E.
      cbn [Modulate.emotions].
      assert (Hone : inRange
                       {| Modulate.timestamp := 0;
                          Modulate.emotion := Modulate.neutral;
                          Modulate.confidence := 5 # 10;
                          Modulate.text := transcript |}) by (split; done).
      split; [apply Forall_singleton; by left |].
      split; [intros _; by apply Forall_singleton |].
      intros [| i] e He Hnan; [| done].
      injection He as <-. discriminate Hnan.
    - rewrite (local_emotions transcript _ s rest E).
      destruct (Modulate.llm env) as [| | results] eqn:Ellm.
      + assert (Hall : Forall inRange (imap Modulate.keywordBody (s :: rest))).
        { apply Forall_lookup. intros i e He.
          rewrite list_lookup_imap in He.
          destruct ((s :: rest) !! i); [| done]. injection He as <-.
          apply keywordBody_inRange. }
        split; [eapply Forall_impl; [exact Hall | by left] |].
        split; [done |]. intros i e He Hnan.
        rewrite Forall_lookup in Hall. by apply Hall, inRange_not_NaN in He.
      + assert (Hall : Forall inRange (imap Modulate.keywordBody (s :: rest))).
        { apply Forall_lookup. intros i e He.
          rewrite list_lookup_imap in He.
          destruct ((s :: rest) !! i); [| done]. injection He as <-.
          apply keywordBody_inRange. }
        split; [eapply Forall_impl; [exact Hall | by left] |].
        split; [done |]. intros i e He Hnan.
        rewrite Forall_lookup in Hall. by apply Hall, inRange_not_NaN in He.
      + split; [| split].
        * apply Forall_lookup. intros i e He.
          rewrite list_lookup_imap in He.
          destruct ((s :: rest) !! i) as [seg |]; [| done]. injection He as <-.
          pose proof (llmBody_confidence results i seg) as H.
          destruct (Modulate.seg_confidence (Modulate.resultAt results i));
            [by left | by left | by right].
        * intros Hnum. apply Forall_lookup. intros i e He.
          rewrite list_lookup_imap in He.
          destruct ((s :: rest) !! i) as [seg |]; [| done]. injection He as <-.
          pose proof (llmBody_confidence results i seg) as H.
          destruct (Modulate.seg_confidence (Modulate.resultAt results i))
            eqn:Ec; [done | done |].
          apply resultAt_nonNumeric in Ec as (r & Hr & Hc).
          simpl in Hnum. rewrite Forall_lookup in Hnum.
          by specialize (Hnum i (Some r) Hr).
        * intros i e He Hnan. rewrite list_lookup_imap in He.
          destruct ((s :: rest) !! i) as [seg |]; [| done]. injection He as <-.
          pose proof (llmBody_confidence results i seg) as H.
          destruct (Modulate.seg_confidence (Modulate.resultAt results i))
            eqn:Ec; [by apply inRange_not_NaN in H
                    | by apply inRange_not_NaN in H |].
          apply resultAt_nonNumeric in Ec as (r & Hr & Hc).
          by exists results, r. }
  unfold Modulate.analyzeEmotions.
  destruct (Modulate.modulate env); [exact Hlocal | exact Hlocal | reflexivity].
Qed.

(** A confidence that is a word: the clamp yields NaN for that sentence
    and leaves the other one within the bounds. *)
Example wordy_confidence_is_NaN :
  Modulate.confidence
    <$> Modulate.emotions
          (Modulate.llmEmotionAnalysis (js "I'm scared. Thank you.") wordyReply)
  = [JS.NaN; JS.Num (95 # 100)].
Proof. vm_compute. reflexivity. Qed.

(** The keyword matcher on a request for shelter tonight. *)
Example keyword_fallback_urgency :
  Modulate.emotion
    <$> Modulate.emotions
          (Modulate.analyzeEmotions
             (js "I need emergency shelter tonight, I've been sleeping in my car")
             offline)
  = [js "urgency"].
Proof. vm_compute. reflexivity. Qed.

(** *** The profile *)

Section profile.
Local Open Scope Q_scope.

Implicit Types (counts : list (jsstring * Modulate.Bucket)).
Implicit Types (labels : list jsstring) (k e label : jsstring).

Lemma insertKey_perm k v counts :
  Modulate.insertKey k v counts ≡ₚ (k, v) :: counts.
Proof.
  induction counts as [| [k' v'] rest IH]; simpl; [done |].
  destruct (Modulate.listedBefore k k'); [done |].
  rewrite IH. apply perm_swap.
Qed.

Lemma tally_snoc labels e :
  tally (labels ++ [e]) = Modulate.bump e (tally labels).
Proof. unfold tally. by rewrite foldl_app. Qed.

Lemma occurrences_snoc label labels e :
  occurrences label (labels ++ [e])
  = (occurrences label labels + (if decide (e = label) then 1 else 0))%nat.
Proof.
  unfold occurrences. rewrite filter_app, length_app. f_equal.
  rewrite filter_cons, filter_nil. by case_decide.
Qed.

Lemma occurrences_pos label labels :
  label ∈ labels ↔ occurrences label labels ≠ 0%nat.
Proof.
  unfold occurrences. rewrite length_zero_iff_nil. split.
  - intros Hin Hnil.
    assert (Hmem : label ∈ filter (λ l, l = label) labels)
      by (apply list_elem_of_filter; done).
    rewrite Hnil in Hmem. by apply not_elem_of_nil in Hmem.
  - intros Hn. destruct (filter (λ l, l = label) labels) as [| x xs] eqn:E;
      [done |].
    assert (Hx : x ∈ filter (λ l, l = label) labels)
      by (rewrite E; apply list_elem_of_here).
    apply list_elem_of_filter in Hx as [-> Hx]. done.
Qed.

Lemma filter_length_le {A} (P R : A → Prop) `{∀ x, Decision (P x)}
    `{∀ x, Decision (R x)} (l : list A) :
  (∀ x, P x → R x) → (length (filter P l) ≤ length (filter R l))%nat.
Proof.
  intros Himp. induction l as [| x l IH]; [done |].
  rewrite !filter_cons. destruct (decide (P x)) as [Hp | Hp].
  - rewrite decide_True by auto. simpl. lia.
  - destruct (decide (R x)); simpl; lia.
Qed.

Lemma filter_ext_elem {A} (P R : A → Prop) `{∀ x, Decision (P x)}
    `{∀ x, Decision (R x)} (l : list A) :
  (∀ x, x ∈ l → P x ↔ R x) → filter P l = filter R l.
Proof.
  induction l as [| x l IH]; intros Hext; [done |].
  rewrite !filter_cons.
  assert (Hx : P x ↔ R x) by (apply Hext, list_elem_of_here).
  rewrite IH by (intros y Hy; apply Hext; by apply list_elem_of_further).
  destruct (decide (P x)), (decide (R x)); tauto.
Qed.

Lemma filter_all {A} (P : A → Prop) `{∀ x, Decision (P x)} (l : list A) :
  (∀ x, x ∈ l → P x) → filter P l = l.
Proof.
  induction l as [| x l IH]; intros Hall; [done |].
  rewrite filter_cons, decide_True by (apply Hall, list_elem_of_here).
  rewrite IH; [done |]. intros y Hy. by apply Hall, list_elem_of_further.
Qed.

Lemma expected_snoc_ne labels e k :
  k ≠ e → expected (labels ++ [e]) k = expected labels k.
Proof.
  intros Hne. unfold expected. rewrite occurrences_snoc.
  destruct (decide (e = k)) as [-> | _]; [done |]. by rewrite Nat.add_0_r.
Qed.

Lemma expected_snoc_eq labels e :
  expected (labels ++ [e]) e
  = if decide (e ∈ labels) then Modulate.next (expected labels e)
    else Modulate.first e.
Proof.
  unfold expected, Modulate.first. rewrite occurrences_snoc.
  destruct (decide (e = e)) as [_ | Hne]; [| done].
  destruct (decide (e ∈ Modulate.inheritedMethods)); [by case_decide |].
  case_decide as Hin; simpl.
  - f_equal. lia.
  - f_equal. destruct (occurrences e labels) eqn:E; [done |].
    exfalso. apply Hin, occurrences_pos. by rewrite E.
Qed.

(** The entry of a key after [v + 1] was stored under it. *)
Lemma bumped_elem e counts k v :
  (k, v) ∈ (λ kv : jsstring * Modulate.Bucket,
              if decide (kv.1 = e) then (kv.1, Modulate.next kv.2) else kv)
           <$> counts
  ↔ ∃ v0, (k, v0) ∈ counts
          ∧ v = if decide (k = e) then Modulate.next v0 else v0.
Proof.
  rewrite list_elem_of_fmap. split.
  - intros ([k0 v0] & Heq & Hin). simpl in Heq.
    destruct (decide (k0 = e)) as [-> | Hne]; injection Heq as -> ->.
    + exists v0. split; [done |]. by rewrite decide_True.
    + exists v0. split; [done |]. by rewrite decide_False.
  - intros (v0 & Hin & ->). exists (k, v0). split; [| done]. simpl.
    by destruct (decide (k = e)).
Qed.

Lemma bumped_keys e counts :
  ((λ kv : jsstring * Modulate.Bucket,
      if decide (kv.1 = e) then (kv.1, Modulate.next kv.2) else kv)
   <$> counts).*1 = counts.*1.
Proof.
  rewrite <- list_fmap_compose. apply list_fmap_ext.
  intros i [k v] _. simpl. by case_decide.
Qed.

Lemma bumped_sum e counts v0 :
  NoDup counts.*1 → (e, v0) ∈ counts →
  sumCounts ((λ kv : jsstring * Modulate.Bucket,
                if decide (kv.1 = e) then (kv.1, Modulate.next kv.2) else kv)
             <$> counts)
  = (sumCounts counts
     + match v0 with Modulate.counter _ => 1 | Modulate.spoilt => 0 end)%nat.
Proof.
  unfold sumCounts.
  induction counts as [| [k v] rest IH]; intros Hnd Hin;
    [by apply elem_of_nil in Hin |].
  rewrite fmap_cons in Hnd. apply NoDup_cons in Hnd as [Hk Hnd].
  cbn [fmap list_fmap sum_list_with fst snd].
  apply elem_of_cons in Hin as [[= <- <-] | Hin].
  - rewrite decide_True by done. cbn [snd].
    assert (Hrest : (λ kv : jsstring * Modulate.Bucket,
                       if decide (kv.1 = e) then (kv.1, Modulate.next kv.2)
                       else kv) <$> rest = rest).
    { rewrite <- (list_fmap_id rest) at 2. apply list_fmap_ext.
      intros i [k' v'] Hi. simpl. case_decide as Heq; [| done]. subst k'.
      exfalso. apply Hk. apply list_elem_of_fmap. exists (e, v').
      split; [done |]. by apply list_elem_of_lookup_2 with i. }
    fold (@fmap list _ _ _ (λ kv : jsstring * Modulate.Bucket,
                       if decide (kv.1 = e) then (kv.1, Modulate.next kv.2)
                       else kv) rest).
    rewrite Hrest. destruct v0; simpl; lia.
  - assert (Hne : k ≠ e).
    { intros ->. apply Hk. apply list_elem_of_fmap. by exists (e, v0). }
    rewrite decide_False by done. cbn [snd].
    fold (@fmap list _ _ _ (λ kv : jsstring * Modulate.Bucket,
                       if decide (kv.1 = e) then (kv.1, Modulate.next kv.2)
                       else kv) rest).
    rewrite (IH Hnd Hin). lia.
Qed.

(** The counting object after any list of labels: its keys are the
    labels other than [__proto__], each once; a key that names an
    inherited method holds a string and every other key its number of
    occurrences; the counts add up to the number of labels that are
    neither. *)
Lemma tally_spec labels :
  NoDup (tally labels).*1
  ∧ (∀ k v, (k, v) ∈ tally labels
            ↔ k ∈ labels ∧ k ≠ Modulate.protoKey ∧ v = expected labels k)
  ∧ sumCounts (tally labels)
    = length (filter (λ l, l ≠ Modulate.protoKey
                           ∧ l ∉ Modulate.inheritedMethods) labels).
Proof.
  induction labels as [| e labels (IHnd & IHin & IHsum)] using rev_ind.
  - split; [apply NoDup_nil_2 |]. split; [| done].
    intros k v. split; [by intros H%elem_of_nil |].
    by intros [H%elem_of_nil _].
  - rewrite tally_snoc, filter_app, length_app. unfold Modulate.bump.
    destruct (decide (e = Modulate.protoKey)) as [He | He].
    { split; [done |]. split.
      - intros k v. rewrite IHin, elem_of_app, list_elem_of_singleton.
        split.
        + intros (Hk & Hp & ->). split; [by left |]. split; [done |].
          symmetry. apply expected_snoc_ne. congruence.
        + intros ([Hk | ->] & Hp & ->); [| done].
          split; [done |]. split; [done |].
          apply expected_snoc_ne. congruence.
      - rewrite IHsum, filter_cons, filter_nil.
        rewrite decide_False by (intros [? _]; done). simpl. lia. }
    destruct (decide (e ∈ (tally labels).*1)) as [Hkey | Hkey].
    + apply list_elem_of_fmap in Hkey as ([k0 v0] & -> & Hin0). simpl in *.
      pose proof Hin0 as Hin0'. apply IHin in Hin0' as (Hel & _ & Hv0).
      split; [by rewrite bumped_keys |]. split.
      * intros k v. rewrite bumped_elem. split.
        -- intros (v1 & Hin1 & ->). apply IHin in Hin1 as (Hk & Hp & ->).
           split; [apply elem_of_app; by left |]. split; [done |].
           destruct (decide (k = k0)) as [-> | Hne].
           ++ rewrite expected_snoc_eq. by rewrite decide_True.
           ++ symmetry. by apply expected_snoc_ne.
        -- intros (Hk & Hp & ->).
           destruct (decide (k = k0)) as [-> | Hne].
           ++ exists v0. split; [done |].
              rewrite expected_snoc_eq, decide_True by done. by rewrite Hv0.
           ++ exists (expected labels k). split.
              ** apply IHin. split; [| done].
                 apply elem_of_app in Hk as [Hk | Hk]; [done |].
                 apply list_elem_of_singleton in Hk. done.
              ** by apply expected_snoc_ne.
      * rewrite (bumped_sum k0 _ v0 IHnd Hin0), IHsum.
        rewrite filter_cons, filter_nil. f_equal.
        rewrite Hv0. unfold expected.
        destruct (decide (k0 ∈ Modulate.inheritedMethods)).
        -- by rewrite decide_False by (intros [_ ?]; done).
        -- by rewrite decide_True.
    + assert (Hnot : e ∉ labels).
      { intros Hel. apply Hkey. apply list_elem_of_fmap.
        exists (e, expected labels e). split; [done |]. by apply IHin. }
      pose proof (insertKey_perm e (Modulate.first e) (tally labels)) as Hperm.
      split; [| split].
      * rewrite Hperm. rewrite fmap_cons. by apply NoDup_cons.
      * intros k v. rewrite Hperm, elem_of_cons, IHin, elem_of_app,
          list_elem_of_singleton. split.
        -- intros [[= -> ->] | (Hk & Hp & ->)].
           ++ split; [by right |]. split; [done |].
              rewrite expected_snoc_eq. by rewrite decide_False.
           ++ split; [by left |]. split; [done |].
              symmetry. apply expected_snoc_ne. by intros ->.
        -- intros ([Hk | ->] & Hp & ->).
           ++ right. split; [done |]. split; [done |].
              apply expected_snoc_ne. by intros ->.
           ++ left. rewrite expected_snoc_eq. by rewrite decide_False.
      * unfold sumCounts in *. rewrite Hperm. cbn [sum_list_with snd].
        rewrite IHsum, filter_cons, filter_nil. unfold Modulate.first.
        destruct (decide (e ∈ Modulate.inheritedMethods)).
        -- rewrite decide_False by (intros [_ ?]; done). simpl. lia.
        -- rewrite decide_True by done. simpl. lia.
Qed.

(** The sum of the values: a number exactly when all of them are. *)
Lemma sumValues_counts counts :
  Forall (λ kv, kv.2 ≠ Modulate.spoilt) counts →
  Modulate.sumValues counts = Some (sumCounts counts).
Proof.
  unfold Modulate.sumValues, sumCounts.
  assert (Hgen : ∀ a, Forall (λ kv, kv.2 ≠ Modulate.spoilt) counts →
    foldl (λ (a : option nat) (kv : jsstring * Modulate.Bucket),
             match a, kv.2 with
             | Some s, Modulate.counter n => Some (s + n)%nat
             | _, _ => None
             end) (Some a) counts
    = Some (a + sum_list_with
                  (λ kv, match kv.2 with
                         | Modulate.counter n => n
                         | Modulate.spoilt => 0%nat
                         end) counts)%nat).
  { induction counts as [| [k v] l IH]; intros a Hall.
    - simpl. f_equal. lia.
    - apply Forall_cons in Hall as [Hv Hall]. simpl in Hv.
      destruct v as [n |]; [| done].
      cbn [foldl snd sum_list_with]. rewrite (IH _ Hall). f_equal. lia. }
  intros Hall. by rewrite (Hgen 0%nat Hall).
Qed.

Lemma sumValues_spoilt counts k :
  (k, Modulate.spoilt) ∈ counts → Modulate.sumValues counts = None.
Proof.
  unfold Modulate.sumValues.
  assert (Hnone : ∀ l : list (jsstring * Modulate.Bucket),
    foldl (λ (a : option nat) (kv : jsstring * Modulate.Bucket),
             match a, kv.2 with
             | Some s, Modulate.counter n => Some (s + n)%nat
             | _, _ => None
             end) None l = None).
  { induction l as [| x l IH]; [done |]. simpl. exact IH. }
  generalize (Some 0%nat).
  induction counts as [| [k' v] l IH]; intros a Hin;
    [by apply elem_of_nil in Hin |].
  apply elem_of_cons in Hin as [[= <- <-] | Hin]; cbn [foldl snd].
  - destruct a; apply Hnone.
  - by apply IH.
Qed.

Lemma normalize_keys counts : (Modulate.normalize counts).*1 = counts.*1.
Proof.
  unfold Modulate.normalize. rewrite <- list_fmap_compose.
  by apply list_fmap_ext.
Qed.

(** One rounded share is within half a hundredth of the exact one. *)
Lemma hundredth_close (z : Z) (n total : nat) :
  nearestPercent z n total →
  Modulate.qNat n / Modulate.qNat total - (1 # 200) <= inject_Z z / 100
  ∧ inject_Z z / 100 <= Modulate.qNat n / Modulate.qNat total + (1 # 200).
Proof.
  intros [Hlo Hhi].
  assert (Hw : 100 * Modulate.qNat n / Modulate.qNat total
               == 100 * (Modulate.qNat n / Modulate.qNat total))
    by (unfold Qdiv; ring).
  rewrite Hw in Hlo, Hhi.
  set (f := Modulate.qNat n / Modulate.qNat total) in *.
  set (zq := inject_Z z) in *. clearbody f zq.
  unfold Qdiv. change (/ 100) with (1 # 100). split; lra.
Qed.

(** The rounded shares of a counting object that holds numbers only add
    up to the exact fraction within half a hundredth per share. *)
Lemma shares_sum (total : nat) counts :
  (0 < total)%nat → (Z.of_nat total < 2 ^ 32)%Z →
  Forall (λ kv, ∃ n, kv.2 = Modulate.counter n
                     ∧ (0 < n)%nat ∧ (n <= total)%nat) counts →
  Qabs (sumQ ((λ kv, match kv.2 with
                     | Modulate.counter n => Modulate.hundredths n total
                     | Modulate.spoilt => 0
                     end) <$> counts)
        - Modulate.qNat (sumCounts counts) / Modulate.qNat total)
  <= Modulate.qNat (length counts) * (1 # 200).
Proof.
  intros Htotal H32 Hall. apply Qabs_Qle_condition.
  induction Hall as [| [k v] rest (n & Hv & Hn0 & Hn) _ IH].
  - unfold sumCounts. simpl. unfold Modulate.qNat. simpl.
    unfold Qdiv. split; ring_simplify; done.
  - simpl in Hv. subst v. unfold sumCounts in *.
    cbn [fmap list_fmap sumQ foldr length snd sum_list_with].
    fold (sumQ ((λ kv, match kv.2 with
                       | Modulate.counter n => Modulate.hundredths n total
                       | Modulate.spoilt => 0
                       end) <$> rest)).
    destruct (hundredth_close _ n total (percent_nearest n total Hn0 Hn H32))
      as [Hlo Hhi].
    change (inject_Z
              (Qfloor (JS.fl (JS.fl (Modulate.qNat n / Modulate.qNat total)
                              * 100) + (1 # 2))) / 100)
      with (Modulate.hundredths n total) in Hlo, Hhi.
    assert (Hsum : Modulate.qNat
                     (n + sum_list_with
                            (λ kv, match kv.2 with
                                   | Modulate.counter n => n
                                   | Modulate.spoilt => 0%nat
                                   end) rest)
                   / Modulate.qNat total
                   == Modulate.qNat n / Modulate.qNat total
                      + Modulate.qNat
                          (sum_list_with
                             (λ kv, match kv.2 with
                                    | Modulate.counter n => n
                                    | Modulate.spoilt => 0%nat
                                    end) rest)
                        / Modulate.qNat total).
    { unfold Modulate.qNat. rewrite Nat2Z.inj_add, inject_Z_plus.
      unfold Qdiv. ring. }
    rewrite Hsum, qNat_S.
    destruct IH as [IHlo IHhi].
    set (a := Modulate.hundredths n total) in *.
    set (b := Modulate.qNat n / Modulate.qNat total) in *.
    set (c := sumQ _) in *. set (d := Modulate.qNat _ / Modulate.qNat total) in *.
    set (m := Modulate.qNat (length rest)) in *.
    clearbody a b c d m. split; lra.
Qed.

Lemma loop_length body i segments a :
  length (Modulate.acc_emotions (Modulate.loopFrom body i segments a))
  = (length (Modulate.acc_emotions a) + length segments)%nat.
Proof.
  revert i a. induction segments as [| s rest IH]; intros i a; simpl; [lia |].
  rewrite IH. simpl. rewrite length_app. simpl. lia.
Qed.

Lemma loop_tally body i segments a :
  Modulate.acc_counts a = tally (Modulate.emotion <$> Modulate.acc_emotions a) →
  Modulate.acc_counts (Modulate.loopFrom body i segments a)
  = tally (Modulate.emotion
             <$> Modulate.acc_emotions (Modulate.loopFrom body i segments a)).
Proof.
  revert i a. induction segments as [| s rest IH]; intros i a Ha; [done |].
  simpl. apply IH. cbn [Modulate.push Modulate.acc_counts Modulate.acc_emotions].
  rewrite fmap_app. cbn [fmap list_fmap]. by rewrite tally_snoc, Ha.
Qed.

(** The profile that [normalize] makes of the counting object of any
    list of labels. *)
Lemma normalize_tally labels :
  let counted := filter (λ l, l ≠ Modulate.protoKey) labels in
  NoDup (Modulate.normalize (tally labels)).*1
  ∧ (∀ label, label ∈ (Modulate.normalize (tally labels)).*1
              ↔ label ∈ counted)
  ∧ ((∃ label, label ∈ labels ∧ label ∈ Modulate.inheritedMethods) →
     Forall (λ kv, kv.2 = JS.NaN) (Modulate.normalize (tally labels)))
  ∧ ((∀ label, label ∈ labels → label ∉ Modulate.inheritedMethods) →
     (Z.of_nat (length labels) < 2 ^ 32)%Z →
     ∃ shares : list (jsstring * Q),
       Modulate.normalize (tally labels) = numbers shares
       ∧ (∀ label v, (label, v) ∈ shares →
            ∃ z : Z, v = inject_Z z / 100
                     ∧ nearestPercent z (occurrences label labels)
                         (length counted))
       ∧ (counted ≠ [] →
          Qabs (sumQ shares.*2 - 1)
          <= Modulate.qNat (length shares) * (1 # 200))).
Proof.
  cbv zeta. destruct (tally_spec labels) as (Hnd & Hin & Hsum).
  rewrite normalize_keys.
  assert (Hkeys : ∀ label, label ∈ (tally labels).*1
                           ↔ label ∈ filter (λ l, l ≠ Modulate.protoKey) labels).
  { intros label. rewrite list_elem_of_filter, list_elem_of_fmap. split.
    - intros ([k v] & -> & Hkv). apply Hin in Hkv as (? & ? & _). done.
    - intros [Hp Hl]. exists (label, expected labels label).
      split; [done |]. by apply Hin. }
  split; [exact Hnd |]. split; [exact Hkeys |]. split.
  - intros (label & Hl & Hinh).
    assert (Hp : label ≠ Modulate.protoKey).
    { intros ->. revert Hinh. apply (bool_decide_unpack _). by vm_compute. }
    assert (Hspoilt : (label, Modulate.spoilt) ∈ tally labels).
    { apply Hin. split; [done |]. split; [done |].
      unfold expected. by rewrite decide_True. }
    assert (Htotal : Modulate.totalEmotions (tally labels) = None).
    { unfold Modulate.totalEmotions.
      by rewrite (sumValues_spoilt _ _ Hspoilt). }
    unfold Modulate.normalize. rewrite Htotal.
    apply Forall_fmap, Forall_true. done.
  - intros Hclean H32.
    set (counted := filter (λ l, l ≠ Modulate.protoKey) labels) in *.
    assert (Hcount : ∀ k v, (k, v) ∈ tally labels →
              v = Modulate.counter (occurrences k labels)
              ∧ (0 < occurrences k labels)%nat
              ∧ (occurrences k labels <= length counted)%nat).
    { intros k v Hkv. apply Hin in Hkv as (Hl & Hp & ->).
      unfold expected. rewrite decide_False by auto.
      split; [done |]. split.
      - apply occurrences_pos in Hl. lia.
      - unfold occurrences, counted. apply filter_length_le.
        by intros x ->. }
    assert (Hm : sumCounts (tally labels) = length counted).
    { rewrite Hsum. unfold counted. f_equal. apply filter_ext_elem.
      intros x Hx. split; [by intros [? _] | intros Hp; split; [done |]].
      by apply Hclean. }
    set (total := match length counted with
                  | 0%nat => 1%nat
                  | S _ => length counted
                  end).
    assert (Htotal : Modulate.totalEmotions (tally labels) = Some total).
    { unfold Modulate.totalEmotions. rewrite sumValues_counts.
      - rewrite Hm. unfold total. by destruct (length counted).
      - apply Forall_forall. intros [k v] Hkv.
        by apply Hcount in Hkv as [-> _]. }
    exists ((λ kv, (kv.1, match kv.2 with
                          | Modulate.counter n => Modulate.hundredths n total
                          | Modulate.spoilt => 0
                          end)) <$> tally labels).
    assert (Hlen : (length counted <= length labels)%nat)
      by apply length_filter.
    split; [| split].
    + unfold Modulate.normalize, numbers. rewrite Htotal.
      rewrite <- list_fmap_compose. apply list_fmap_ext.
      intros i [k v] Hi. simpl.
      apply list_elem_of_lookup_2, Hcount in Hi as [-> _]. done.
    + intros label v Hlv.
      apply list_elem_of_fmap in Hlv as ([k b] & [= -> ->] & Hkb).
      apply Hcount in Hkb as (-> & Hpos & Hle). simpl.
      assert (Htot : total = length counted).
      { unfold total. destruct (length counted); [lia | done]. }
      rewrite Htot.
      eexists. split; [reflexivity |].
      apply percent_nearest; [done | done | lia].
    + intros Hne.
      assert (Hpos : (0 < length counted)%nat) by (destruct counted; simpl; [done | lia]).
      assert (Htot : total = length counted).
      { unfold total. destruct (length counted); [lia | done]. }
      rewrite <- list_fmap_compose.
      change (snd ∘ (λ kv : jsstring * Modulate.Bucket,
                       (kv.1, match kv.2 with
                              | Modulate.counter n => Modulate.hundredths n total
                              | Modulate.spoilt => 0
                              end)))
        with (λ kv : jsstring * Modulate.Bucket,
                match kv.2 with
                | Modulate.counter n => Modulate.hundredths n total
                | Modulate.spoilt => 0
                end).
      rewrite length_fmap.
      pose proof (shares_sum total (tally labels)) as Hs.
      rewrite Hm, <- Htot in Hs.
      assert (Hone : Modulate.qNat total / Modulate.qNat total == 1).
      { apply Qmult_inv_r. pose proof (qNat_pos total ltac:(lia)) as Hq.
        intros H0. rewrite H0 in Hq. by apply Qlt_irrefl in Hq. }
      rewrite Hone in Hs. apply Hs; [lia | lia |].
      apply Forall_forall. intros [k v] Hkv.
      apply Hcount in Hkv as (-> & ? & ?). exists (occurrences k labels).
      split; [done |]. split; [done | lia].
Qed.

End profile.

Section profile_of_result.

Lemma detect_known patterns segment :
  Modulate.detect patterns segment ∈ patterns.*1 ++ [Modulate.neutral].
Proof.
  induction patterns as [| [emotion alts] rest IH]; simpl.
  - apply list_elem_of_here.
  - destruct (JS.test alts segment);
      [apply list_elem_of_here | by apply list_elem_of_further].
Qed.

Lemma keyword_labels_known segments :
  Forall (λ e, Modulate.emotion e ∈ knownLabels)
    (Modulate.acc_emotions
       (Modulate.loopFrom Modulate.keywordBody 0 segments Modulate.acc0)).
Proof.
  apply acc_emotions_push_all; [| constructor].
  intros j s. apply detect_known.
Qed.

(** What [finish] returns after the loop: one label per segment, and
    the normalized counting object of these labels. *)
Lemma finish_profile body segments :
  let r :=
    Modulate.finish (Modulate.loopFrom body 0 segments Modulate.acc0)
      (length segments) in
  length (Modulate.emotion <$> Modulate.emotions r) = length segments
  ∧ Modulate.profile r
    = Modulate.normalize (tally (Modulate.emotion <$> Modulate.emotions r)).
Proof.
  cbv zeta. unfold Modulate.finish.
  cbn [Modulate.emotions Modulate.profile]. split.
  - rewrite length_fmap. by rewrite loop_length.
  - by rewrite (loop_tally body 0 segments Modulate.acc0).
Qed.

End profile_of_result.

(** C8 fails in two ways.  A 2xx reply of the provider is handed back
    as it came, and a reply without a profile yields the empty profile,
    whose values add up to 0, for a sentence that was classified.  And
    on the LLM path a label that names an inherited method, such as
    [constructor], leaves NaN in every bucket. *)
Lemma C8_profile_is_not_always_label_shares_counterexample :
  (Modulate.emotion
     <$> Modulate.emotions
           (Modulate.analyzeEmotions (js "I'm scared") profilelessProvider)
   = [js "anxiety"]
   ∧ ¬ ∃ shares : list (jsstring * Q),
         Modulate.profile
           (Modulate.analyzeEmotions (js "I'm scared") profilelessProvider)
         = numbers shares
         ∧ (Qabs (sumQ shares.*2 - 1) <= 35 # 1000)%Q)
  ∧ Modulate.profile
      (Modulate.analyzeEmotions (sentences 3)
         {| Modulate.modulate := Modulate.NoApiKey;
            Modulate.llm := labelled ["hope"; "constructor"; "hope"] |})
    = [(js "hope", JS.NaN); (js "constructor", JS.NaN)].
Proof.
  split; [split |]; [vm_compute; reflexivity | | vm_compute; reflexivity].
  intros (shares & Hp & Hsum). destruct shares as [| x shares]; [| done].
  by vm_compute in Hsum.
Qed.

(** The profile that [llmEmotionAnalysis] computes from at least one
    sentence. *)
Lemma local_profile transcript outcome :
  Modulate.segmentsOf transcript ≠ [] →
  (Z.of_nat (length (Modulate.segmentsOf transcript)) < 2 ^ 32)%Z →
  let r := Modulate.llmEmotionAnalysis transcript outcome in
  let labels := Modulate.emotion <$> Modulate.emotions r in
  let counted := filter (λ l, l ≠ Modulate.protoKey) labels in
  length labels = length (Modulate.segmentsOf transcript)
  ∧ NoDup (Modulate.profile r).*1
  ∧ (∀ label, label ∈ (Modulate.profile r).*1 ↔ label ∈ counted)
  ∧ ((∃ label, label ∈ labels ∧ label ∈ Modulate.inheritedMethods) →
     Forall (λ kv, kv.2 = JS.NaN) (Modulate.profile r))
  ∧ ((∀ label, label ∈ labels → label ∉ Modulate.inheritedMethods) →
     ∃ shares : list (jsstring * Q),
       Modulate.profile r = numbers shares
       ∧ (∀ label v, (label, v) ∈ shares →
            ∃ z : Z, v = (inject_Z z / 100)%Q
                     ∧ nearestPercent z (occurrences label labels)
                         (length counted))
       ∧ (counted ≠ [] →
          (Qabs (sumQ shares.*2 - 1)
           <= Modulate.qNat (length shares) * (1 # 200))%Q))
  ∧ match outcome with
    | Modulate.LlmResults _ => True
    | Modulate.LlmThrew | Modulate.LlmUnparseable =>
        ∃ shares : list (jsstring * Q),
          Modulate.profile r = numbers shares
          ∧ length shares ≤ 7
          ∧ (Qabs (sumQ shares.*2 - 1) <= 35 # 1000)%Q
    end.
Proof.
  intros Hne H32. cbv zeta.
  assert (Hbody : ∀ body,
    let r := Modulate.finish
               (Modulate.loopFrom body 0 (Modulate.segmentsOf transcript)
                  Modulate.acc0)
               (length (Modulate.segmentsOf transcript)) in
    let labels := Modulate.emotion <$> Modulate.emotions r in
    let counted := filter (λ l, l ≠ Modulate.protoKey) labels in
    length labels = length (Modulate.segmentsOf transcript)
    ∧ NoDup (Modulate.profile r).*1
    ∧ (∀ label, label ∈ (Modulate.profile r).*1 ↔ label ∈ counted)
    ∧ ((∃ label, label ∈ labels ∧ label ∈ Modulate.inheritedMethods) →
       Forall (λ kv, kv.2 = JS.NaN) (Modulate.profile r))
    ∧ ((∀ label, label ∈ labels → label ∉ Modulate.inheritedMethods) →
       ∃ shares : list (jsstring * Q),
         Modulate.profile r = numbers shares
         ∧ (∀ label v, (label, v) ∈ shares →
              ∃ z : Z, v = (inject_Z z / 100)%Q
                       ∧ nearestPercent z (occurrences label labels)
                           (length counted))
         ∧ (counted ≠ [] →
            (Qabs (sumQ shares.*2 - 1)
             <= Modulate.qNat (length shares) * (1 # 200))%Q))).
  { intros body. cbv zeta.
    destruct (finish_profile body (Modulate.segmentsOf transcript))
      as [Hlen Hprof].
    cbv zeta in Hlen, Hprof. rewrite Hprof.
    destruct (normalize_tally
                (Modulate.emotion
                   <$> Modulate.emotions
                         (Modulate.finish
                            (Modulate.loopFrom body 0
                               (Modulate.segmentsOf transcript) Modulate.acc0)
                            (length (Modulate.segmentsOf transcript)))))
      as (H1 & H2 & H3 & H4).
    split; [exact Hlen |]. split; [exact H1 |]. split; [exact H2 |].
    split; [exact H3 |]. intros Hclean. apply H4; [exact Hclean |].
    by rewrite Hlen. }
  assert (Hkeyword :
    let r := Modulate.simpleKeywordFallback transcript
               (Modulate.segmentsOf transcript) in
    ∃ shares : list (jsstring * Q),
      Modulate.profile r = numbers shares
      ∧ length shares ≤ 7
      ∧ (Qabs (sumQ shares.*2 - 1) <= 35 # 1000)%Q).
  { cbv zeta. unfold Modulate.simpleKeywordFallback.
    destruct (Hbody Modulate.keywordBody) as (Hlen & Hnd & Hkeys & _ & Hshares).
    cbv zeta in *.
    pose proof (keyword_labels_known (Modulate.segmentsOf transcript)) as Hknown.
    set (r := Modulate.finish _ _) in *.
    change (Modulate.acc_emotions
              (Modulate.loopFrom Modulate.keywordBody 0
                 (Modulate.segmentsOf transcript) Modulate.acc0))
      with (Modulate.emotions r) in Hknown.
    assert (Hlabels : ∀ label,
              label ∈ (Modulate.emotion <$> Modulate.emotions r) →
              label ∈ knownLabels).
    { intros label Hl. apply list_elem_of_fmap in Hl as (e & -> & He).
      rewrite Forall_forall in Hknown. by apply Hknown. }
    assert (Hclean : ∀ label,
              label ∈ (Modulate.emotion <$> Modulate.emotions r) →
              (label ∉ Modulate.inheritedMethods)
              ∧ label ≠ Modulate.protoKey).
    { intros label Hl%Hlabels. revert label Hl. apply Forall_forall.
      apply (bool_decide_unpack _). by vm_compute. }
    destruct Hshares as (shares & Hp & _ & Hsum);
      [intros label Hl; by apply Hclean |].
    exists shares. split; [exact Hp |].
    assert (Hseven : length shares ≤ 7).
    { assert (Hk : shares.*1 = (Modulate.profile r).*1).
      { rewrite Hp. unfold numbers. rewrite <- list_fmap_compose.
        by apply list_fmap_ext. }
      rewrite <- (length_fmap fst), Hk.
      change 7 with (length knownLabels).
      apply submseteq_length, NoDup_submseteq; [done |].
      intros k Hk'. apply Hkeys, list_elem_of_filter in Hk' as [_ Hk'].
      by apply Hlabels. }
    split; [exact Hseven |].
    eapply Qle_trans.
    - apply Hsum. intros Hnil.
      assert (Hl : length (filter (λ l, l ≠ Modulate.protoKey)
                             (Modulate.emotion <$> Modulate.emotions r))
                   = length (Modulate.emotion <$> Modulate.emotions r)).
      { f_equal. apply filter_all. intros x Hx.
        by apply Hclean in Hx as [_ ?]. }
      rewrite Hnil, Hlen in Hl. simpl in Hl.
      destruct (Modulate.segmentsOf transcript); done.
    - assert (Hq : (Modulate.qNat (length shares) <= 7)%Q).
      { unfold Modulate.qNat. rewrite <- (Zle_Qle _ 7). lia. }
      lra. }
  unfold Modulate.llmEmotionAnalysis.
  destruct (Modulate.segmentsOf transcript) as [| s rest] eqn:Hsegs; [done |].
  destruct outcome as [| | results].
  - destruct (Hbody Modulate.keywordBody) as (H1 & H2 & H3 & H4 & H5).
    unfold Modulate.simpleKeywordFallback in *. cbv zeta in *.
    split; [exact H1 |]. split; [exact H2 |]. split; [exact H3 |].
    split; [exact H4 |]. split; [exact H5 | exact Hkeyword].
  - destruct (Hbody Modulate.keywordBody) as (H1 & H2 & H3 & H4 & H5).
    unfold Modulate.simpleKeywordFallback in *. cbv zeta in *.
    split; [exact H1 |]. split; [exact H2 |]. split; [exact H3 |].
    split; [exact H4 |]. split; [exact H5 | exact Hkeyword].
  - destruct (Hbody (Modulate.llmBody results)) as (H1 & H2 & H3 & H4 & H5).
    cbv zeta in *.
    split; [exact H1 |]. split; [exact H2 |]. split; [exact H3 |].
    split; [exact H4 |]. split; [exact H5 | exact I].
Qed.

(** C8, amended. When the result is produced by the LLM-prompted
    classification or by the keyword fallback (no provider key, or the
    provider request failed) from at least one sentence (and fewer than
    2^32), the labels of the model's reply being strings, it has one
    label per sentence, and the profile has exactly
    one bucket per label that occurs, the label [__proto__] apart, which
    gets none.  If a label is the name of a method that every object
    inherits, every bucket is NaN.  Otherwise every bucket is a whole
    number of hundredths, the percentage being an integer nearest to 100
    times the number of sentences with that label over the number of
    sentences counted (those whose label is not [__proto__]), and the
    buckets add up to 1 within half a hundredth per bucket.  The keyword
    fallback knows seven labels, none of them special, so there the sum
    is within 0.035 of 1.  A successful provider reply is returned with
    the provider's own profile, or the empty profile when it has none. *)
Theorem C8_profile_is_nearest_label_share transcript env :
  Modulate.segmentsOf transcript ≠ [] →
  (Z.of_nat (length (Modulate.segmentsOf transcript)) < 2 ^ 32)%Z →
  let r := Modulate.analyzeEmotions transcript env in
  match Modulate.modulate env with
  | Modulate.FetchOk data =>
      Modulate.profile r = default [] (Modulate.data_profile data)
  | Modulate.NoApiKey | Modulate.FetchFailed =>
      let labels := Modulate.emotion <$> Modulate.emotions r in
      let counted := filter (λ l, l ≠ Modulate.protoKey) labels in
      length labels = length (Modulate.segmentsOf transcript)
      ∧ NoDup (Modulate.profile r).*1
      ∧ (∀ label, label ∈ (Modulate.profile r).*1 ↔ label ∈ counted)
      ∧ ((∃ label, label ∈ labels ∧ label ∈ Modulate.inheritedMethods) →
         Forall (λ kv, kv.2 = JS.NaN) (Modulate.profile r))
      ∧ ((∀ label, label ∈ labels → label ∉ Modulate.inheritedMethods) →
         ∃ shares : list (jsstring * Q),
           Modulate.profile r = numbers shares
           ∧ (∀ label v, (label, v) ∈ shares →
                ∃ z : Z, v = (inject_Z z / 100)%Q
                         ∧ nearestPercent z (occurrences label labels)
                             (length counted))
           ∧ (counted ≠ [] →
              (Qabs (sumQ shares.*2 - 1)
               <= Modulate.qNat (length shares) * (1 # 200))%Q))
      ∧ match Modulate.llm env with
        | Modulate.LlmResults _ => True
        | Modulate.LlmThrew | Modulate.LlmUnparseable =>
            ∃ shares : list (jsstring * Q),
              Modulate.profile r = numbers shares
              ∧ length shares ≤ 7
              ∧ (Qabs (sumQ shares.*2 - 1) <= 35 # 1000)%Q
        end
  end.
Proof.
  intros Hne H32. cbv zeta. unfold Modulate.analyzeEmotions.
  destruct (Modulate.modulate env); [| | reflexivity];
    exact (local_profile transcript (Modulate.llm env) Hne H32).
Qed.

Lemma C8_profile_is_nearest_label_share_witness :
  Modulate.segmentsOf demoTranscript ≠ []
  ∧ ∃ shares : list (jsstring * Q),
      Modulate.profile (Modulate.analyzeEmotions demoTranscript offline)
      = numbers shares
      ∧ length shares ≤ 7
      ∧ (Qabs (sumQ shares.*2 - 1) <= 35 # 1000)%Q.
Proof.
  assert (H : Modulate.segmentsOf demoTranscript ≠ [])
    by (vm_compute; discriminate).
  assert (H32 : (Z.of_nat (length (Modulate.segmentsOf demoTranscript))
                 < 2 ^ 32)%Z) by (vm_compute; reflexivity).
  split; [exact H |].
  destruct (C8_profile_is_nearest_label_share demoTranscript offline H H32)
    as (_ & _ & _ & _ & _ & Hkeyword).
  exact Hkeyword.
Defined.

(** Three sentences with three different labels: three buckets of 0.33. *)
Example profile_of_three_labels :
  Modulate.profile (Modulate.llmEmotionAnalysis demoTranscript Modulate.LlmThrew)
  = numbers [(js "anxiety", (33 # 1) / 100); (js "gratitude", (33 # 1) / 100);
             (js "neutral", (33 # 1) / 100)]%Q.
Proof. vm_compute. reflexivity. Qed.

(** Forty sentences, 23 of them hopeful: the exact share of 57.5 percent
    is stored as 0.57, its complement of 42.5 percent as 0.43. *)
Example profile_of_23_in_40 :
  Modulate.profile
    (Modulate.llmEmotionAnalysis (sentences 40)
       (labelled (replicate 23 "hope" ++ replicate 17 "sadness")))
  = numbers [(js "hope", (57 # 1) / 100); (js "sadness", (43 # 1) / 100)]%Q.
Proof. vm_compute. reflexivity. Qed.

(** The label [__proto__] gets no bucket and is not counted. *)
Example proto_label_gets_no_bucket :
  Modulate.profile
    (Modulate.llmEmotionAnalysis (sentences 3)
       (labelled ["hope"; "__proto__"; "hope"]))
  = numbers [(js "hope", (100 # 1) / 100)]%Q
  ∧ Modulate.profile
      (Modulate.llmEmotionAnalysis (sentences 1) (labelled ["__proto__"]))
    = [].
Proof. split; vm_compute; reflexivity. Qed.

(** Labels that are array indices are listed first, in ascending
    order. *)
Example index_labels_come_first :
  (Modulate.profile
     (Modulate.llmEmotionAnalysis (sentences 4)
        (labelled ["hope"; "2"; "fear"; "1"]))).*1
  = [js "1"; js "2"; js "hope"; js "fear"].
Proof. vm_compute. reflexivity. Qed.

(** ** The hub *)

Section hub.

Lemma copies_absent ws members : ws ∉ members → copies ws members = 0.
Proof.
  intros Hnot. unfold copies.
  induction members as [| x rest IH]; [done |].
  apply not_elem_of_cons in Hnot as [Hne Hnot].
  rewrite filter_cons. case_decide; [congruence | by apply IH].
Qed.

Lemma copies_snoc ws members :
  copies ws (members ++ [ws]) = S (copies ws members).
Proof.
  unfold copies. rewrite filter_app, length_app, filter_cons, filter_nil.
  case_decide; [simpl; lia | done].
Qed.

(** What a broadcast loop puts on the wire of one socket: one copy of
    the message per occurrence in the set, provided the socket is open. *)
Lemma sendAll_lookup message members ws s (socks : gmap nat Websocket.Socket) :
  socks !! ws = Some s →
  Websocket.sendAll message (Some members) socks !! ws
  = Some {| Websocket.readyState := Websocket.readyState s;
            Websocket.sent :=
              Websocket.sent s
                ++ (if bool_decide (Websocket.readyState s = Websocket.OPEN)
                    then replicate (copies ws members) message else []) |}.
Proof.
  unfold Websocket.sendAll.
  revert s socks. induction members as [| x rest IH]; intros s socks Hs.
  - simpl. rewrite Hs. destruct s as [state out]; simpl.
    case_bool_decide; by rewrite app_nil_r.
  - cbn [foldl]. unfold copies. rewrite filter_cons.
    destruct (decide (x = ws)) as [-> | Hne].
    + unfold Websocket.isOpen at 2. rewrite Hs.
      case_bool_decide as Hopen.
      * erewrite IH;
          [| unfold Websocket.send; rewrite lookup_alter_eq, Hs; reflexivity].
        simpl. rewrite bool_decide_true by done.
        by rewrite <- app_assoc.
      * erewrite IH by exact Hs. by rewrite bool_decide_false.
    + erewrite IH; [reflexivity |].
      destruct (Websocket.isOpen socks x); [| done].
      unfold Websocket.send. by rewrite lookup_alter_ne.
Qed.


End hub.




(** Were the two keys the same string, the one socket would be sent the
    message once per lookup, twice in all. *)
Example same_key_delivers_twice :
  let seg :=
    {| Websocket.callId := Websocket.clientKey u1;
       Websocket.clientId := u1;
       Websocket.speaker := CallState.agent;
       Websocket.text := js "Hello.";
       Websocket.emotion := Modulate.neutral;
       Websocket.confidence := 8 # 10;
       Websocket.timestamp := 0;
       Websocket.turnIndex := 0;
       Websocket.sentenceEmotions := None |} in
  let h :=
    Websocket.connection Websocket.empty 0
      (Some (Websocket.clientKey u1)) (Some u1) in
  length (from_option Websocket.sent []
            (Websocket.sockets (Websocket.broadcastTranscriptSegment h seg)
               !! 0)) = 3.
Proof. vm_compute. reflexivity. Qed.

(** * Further properties *)

(** ** Strings *)

Section strings.
Implicit Types (s t : jsstring).

Lemma trimStart_split s :
  ∃ a, s = a ++ JS.trimStart s
       ∧ Forall (λ c, JS.isWhiteSpace c = true) a.
Proof.
  induction s as [| c s (a & Hs & Ha)]; [by exists [] |].
  simpl. destruct (JS.isWhiteSpace c) eqn:Hc.
  - exists (c :: a). split; [by rewrite Hs at 1 | by constructor].
  - by exists [].
Qed.

Lemma trimStart_head s c :
  head (JS.trimStart s) = Some c → JS.isWhiteSpace c = false.
Proof.
  induction s as [| x s IH]; [done |]. simpl.
  destruct (JS.isWhiteSpace x) eqn:Hx; [exact IH |].
  simpl. by intros [= <-].
Qed.

Lemma trimEnd_split t :
  ∃ b, t = JS.trimEnd t ++ b ∧ Forall (λ c, JS.isWhiteSpace c = true) b.
Proof.
  unfold JS.trimEnd.
  destruct (trimStart_split (reverse t)) as (a & Ht & Ha).
  exists (reverse a). split; [| by apply Forall_reverse].
  rewrite <- reverse_app, <- Ht. by rewrite reverse_involutive.
Qed.

Lemma trimEnd_last t c :
  last (JS.trimEnd t) = Some c → JS.isWhiteSpace c = false.
Proof.
  unfold JS.trimEnd. rewrite last_reverse. apply trimStart_head.
Qed.

(** [trim] cuts white space off both ends and nothing else. *)
Lemma trim_split s :
  ∃ a b, s = a ++ JS.trim s ++ b
         ∧ Forall (λ c, JS.isWhiteSpace c = true) a
         ∧ Forall (λ c, JS.isWhiteSpace c = true) b.
Proof.
  unfold JS.trim.
  destruct (trimStart_split s) as (a & Hs & Ha).
  destruct (trimEnd_split (JS.trimStart s)) as (b & Ht & Hb).
  exists a, b. split; [| done]. by rewrite <- Ht.
Qed.

Lemma trim_head s c : head (JS.trim s) = Some c → JS.isWhiteSpace c = false.
Proof.
  unfold JS.trim. intros Hh.
  destruct (trimEnd_split (JS.trimStart s)) as (b & Ht & _).
  apply (trimStart_head s). rewrite Ht.
  destruct (JS.trimEnd (JS.trimStart s)); [done | exact Hh].
Qed.

Lemma trim_last s c : last (JS.trim s) = Some c → JS.isWhiteSpace c = false.
Proof. unfold JS.trim. apply trimEnd_last. Qed.

Lemma trim_Forall (P : N → Prop) s : Forall P s → Forall P (JS.trim s).
Proof.
  intros H. destruct (trim_split s) as (a & b & Hs & _).
  rewrite Hs in H. apply Forall_app in H as [_ H].
  by apply Forall_app in H as [H _].
Qed.

(** Every piece of a split is made of characters of the input that are
    not terminators. *)
Lemma splitGo_Forall (P : N → Prop) s cur inRun :
  Forall (λ c, JS.isTerminator c = false → P c) s →
  Forall P cur →
  Forall (Forall P) (JS.splitGo s cur inRun).
Proof.
  revert cur inRun. induction s as [| c s IH]; intros cur inRun Hs Hcur.
  - simpl. apply Forall_singleton. by apply Forall_reverse.
  - apply Forall_cons in Hs as [Hc Hs]. simpl.
    destruct (JS.isTerminator c) eqn:Ht.
    + destruct inRun.
      * by apply IH.
      * constructor; [by apply Forall_reverse | by apply IH].
    + apply IH; [done |]. constructor; [by apply Hc | done].
Qed.

Lemma splitSentences_Forall (P : N → Prop) s :
  Forall (λ c, JS.isTerminator c = false → P c) s →
  Forall (Forall P) (JS.splitSentences s).
Proof. intros H. by apply splitGo_Forall. Qed.

End strings.

(** ** The classifier, further *)

Section sentiment.
Local Open Scope Q_scope.

Lemma compound_ge_1 n : 1 <= compound n.
Proof.
  induction n as [| n IH]; cbn [compound]; [lra |]. unfold ulp. lra.
Qed.

Lemma compound_le n :
  (Z.of_nat n <= 2 ^ 52)%Z → compound n <= 1 + 2 * Modulate.qNat n * ulp.
Proof.
  induction n as [| n IH]; intros Hn; [by vm_compute |].
  cbn [compound]. rewrite qNat_S.
  assert (HA : Modulate.qNat n <= inject_Z (2 ^ 52)).
  { unfold Modulate.qNat. rewrite <- Zle_Qle. lia. }
  assert (IH' : compound n <= 1 + 2 * Modulate.qNat n * ulp) by (apply IH; lia).
  pose proof (qNat_nonneg n) as H0.
  change (inject_Z (2 ^ 52)) with (4503599627370496 # 1) in HA.
  set (A := Modulate.qNat n) in *. clearbody A.
  set (c := compound n) in *. clearbody c.
  unfold ulp in *. lra.
Qed.

Lemma drift_nonneg step n : 0 <= step → 0 <= drift step n.
Proof.
  intros Hs. induction n as [| n IH]; cbn [drift]; [lra |].
  apply Qmult_le_0_compat; [lra | by vm_compute].
Qed.

Lemma drift_le step n :
  0 <= step → drift step n <= step * Modulate.qNat n * compound n.
Proof.
  intros Hs. induction n as [| n IH].
  - cbn [drift compound]. change (Modulate.qNat 0) with 0. lra.
  - cbn [drift compound]. rewrite qNat_S.
    pose proof (compound_ge_1 n) as Hc. pose proof (qNat_nonneg n) as HA.
    assert (Hsc : step * 1 <= step * compound n).
    { rewrite !(Qmult_comm step). by apply Qmult_le_compat_r. }
    set (A := Modulate.qNat n) in *. clearbody A.
    set (c := compound n) in *. clearbody c.
    set (d := drift step n) in *. clearbody d.
    unfold ulp. lra.
Qed.

(** One sentence moves the running total by at most one rounded step. *)
Lemma sentimentStep_drift total emotion n :
  - drift (JS.fl (2 # 10)) n <= total →
  total <= drift (JS.fl (3 # 10)) n →
  - drift (JS.fl (2 # 10)) (S n) <= Modulate.sentimentStep total emotion
  ∧ Modulate.sentimentStep total emotion <= drift (JS.fl (3 # 10)) (S n).
Proof.
  intros Hlo Hhi.
  assert (Hp : 0 <= JS.fl (3 # 10)) by (by vm_compute).
  assert (Hq : 0 <= JS.fl (2 # 10)) by (by vm_compute).
  pose proof (drift_nonneg _ n Hp) as Hdp.
  pose proof (drift_nonneg _ n Hq) as Hdq.
  unfold Modulate.sentimentStep. cbn [drift].
  set (p := JS.fl (3 # 10)) in *. set (q := JS.fl (2 # 10)) in *.
  clearbody p q.
  set (dp := drift p n) in *. set (dq := drift q n) in *. clearbody dp dq.
  destruct (Modulate.labelIn emotion Modulate.positiveLabels).
  - pose proof (fl_upper (total + p) (dp + p) ltac:(lra) ltac:(lra)) as Hu.
    pose proof (fl_lower (total + p) dq ltac:(lra) ltac:(lra)) as Hl.
    unfold ulp in *. split; lra.
  - destruct (Modulate.labelIn emotion Modulate.negativeLabels).
    + pose proof (fl_upper (total - q) dp ltac:(lra) ltac:(lra)) as Hu.
      pose proof (fl_lower (total - q) (dq + q) ltac:(lra) ltac:(lra)) as Hl.
      unfold ulp in *. split; lra.
    + unfold ulp. split; lra.
Qed.

Lemma loop_sentiment body i segments a :
  - drift (JS.fl (2 # 10)) (length (Modulate.acc_emotions a))
    <= Modulate.acc_sentiment a →
  Modulate.acc_sentiment a
    <= drift (JS.fl (3 # 10)) (length (Modulate.acc_emotions a)) →
  let a' := Modulate.loopFrom body i segments a in
  - drift (JS.fl (2 # 10)) (length (Modulate.acc_emotions a'))
    <= Modulate.acc_sentiment a'
  ∧ Modulate.acc_sentiment a'
    <= drift (JS.fl (3 # 10)) (length (Modulate.acc_emotions a')).
Proof.
  revert i a. induction segments as [| s rest IH]; intros i a Hlo Hhi; [done |].
  cbn [Modulate.loopFrom].
  destruct (sentimentStep_drift (Modulate.acc_sentiment a)
              (Modulate.emotion (body i s))
              (length (Modulate.acc_emotions a)) Hlo Hhi) as [Hlo' Hhi'].
  apply IH;
    cbn [Modulate.push Modulate.acc_emotions Modulate.acc_sentiment];
    rewrite length_app; simpl length;
    by replace (length (Modulate.acc_emotions a) + 1)%nat
         with (S (length (Modulate.acc_emotions a))) by lia.
Qed.

(** The mean of a total that has drifted over [len] sentences, once
    divided and clamped, is within a millionth of the exact bounds. *)
Lemma finalSentiment_near total (len : nat) :
  len ≠ 0%nat → (Z.of_nat len < 2 ^ 32)%Z →
  - drift (JS.fl (2 # 10)) len <= total →
  total <= drift (JS.fl (3 # 10)) len →
  within (- (2 # 10) - (1 # 1000000)) ((3 # 10) + (1 # 1000000))
    (Modulate.finalSentiment total len).
Proof.
  intros Hlen Hsmall Hlo Hhi.
  assert (Hp : 0 <= JS.fl (3 # 10)) by (by vm_compute).
  assert (Hq : 0 <= JS.fl (2 # 10)) by (by vm_compute).
  assert (Hp' : JS.fl (3 # 10) <= (3 # 10) * (1 + ulp)) by (by vm_compute).
  assert (Hq' : JS.fl (2 # 10) <= (2 # 10) * (1 + ulp)) by (by vm_compute).
  pose proof (drift_le _ len Hp) as Hdp.
  pose proof (drift_le _ len Hq) as Hdq.
  pose proof (compound_ge_1 len) as Hc1.
  pose proof (compound_le len ltac:(lia)) as Hc.
  pose proof (qNat_pos len Hlen) as HA.
  assert (HA' : Modulate.qNat len <= inject_Z (2 ^ 32)).
  { unfold Modulate.qNat. rewrite <- Zle_Qle. lia. }
  change (inject_Z (2 ^ 32)) with (4294967296 # 1) in HA'.
  destruct len as [| len']; [done |].
  unfold Modulate.finalSentiment. cbn [Modulate.Math_min Modulate.Math_max].
  set (len := S len') in *. clearbody len.
  set (p := JS.fl (3 # 10)) in *. set (q := JS.fl (2 # 10)) in *.
  clearbody p q.
  set (A := Modulate.qNat len) in *. set (c := compound len) in *.
  assert (H1 : total / A <= p * c).
  { apply Qle_shift_div_r; [done |]. lra. }
  assert (H2 : - (q * c) <= total / A).
  { apply Qle_shift_div_l; [done |]. lra. }
  assert (Hpc : 0 <= p * c) by (apply Qmult_le_0_compat; lra).
  assert (Hqc : 0 <= q * c) by (apply Qmult_le_0_compat; lra).
  pose proof (fl_upper _ _ H1 Hpc) as Hu.
  pose proof (fl_lower _ _ H2 Hqc) as Hl.
  assert (Hpc' : p * c <= (3 # 10) * (1 + ulp) * c).
  { apply Qmult_le_compat_r; lra. }
  assert (Hqc' : q * c <= (2 # 10) * (1 + ulp) * c).
  { apply Qmult_le_compat_r; lra. }
  set (x := JS.fl (total / A)) in *. clearbody x.
  set (pc := p * c) in *. set (qc := q * c) in *. clearbody pc qc.
  clearbody c A. unfold ulp in *.
  assert (Hx : - (3 # 10) <= x ∧ x <= 4 # 10) by (split; lra).
  destruct (Qle_bool 1 x) eqn:E1; [apply Qle_bool_iff in E1; lra |].
  destruct (Qle_bool (-1) x) eqn:E2; [| apply Qle_bool_false in E2; lra].
  simpl. split; lra.
Qed.

Lemma finish_sentiment body segments :
  segments ≠ [] → (Z.of_nat (length segments) < 2 ^ 32)%Z →
  within (- (2 # 10) - (1 # 1000000)) ((3 # 10) + (1 # 1000000))
    (Modulate.sentimentScore
       (Modulate.finish (Modulate.loopFrom body 0 segments Modulate.acc0)
          (length segments))).
Proof.
  intros Hne Hsmall. unfold Modulate.finish. cbn [Modulate.sentimentScore].
  destruct (loop_sentiment body 0 segments Modulate.acc0) as [Hlo Hhi];
    [by vm_compute | by vm_compute |].
  rewrite loop_length in Hlo, Hhi. simpl in Hlo, Hhi.
  apply finalSentiment_near; [by destruct segments | done | done | done].
Qed.

End sentiment.

(** X1. For a transcript of fewer than 2^32 sentences (an array of
    JavaScript holds no more), whatever the model replies, the sentiment
    score computed by [llmEmotionAnalysis] (LLM path, keyword fallback,
    or the empty case) is a number within a millionth of the interval
    from -0.2 to 0.3: it is a mean of per-sentence steps of +0.3, -0.2
    or 0, so the final clamp to [-1, 1] never changes it. The bounds
    themselves can be passed by a rounding error: three negative
    sentences give -0.20000000000000004. *)
Theorem X1_local_sentiment_near_minus_02_to_03 transcript outcome :
  (Z.of_nat (length (Modulate.segmentsOf transcript)) < 2 ^ 32)%Z →
  within (- (2 # 10) - (1 # 1000000)) ((3 # 10) + (1 # 1000000))
    (Modulate.sentimentScore (Modulate.llmEmotionAnalysis transcript outcome)).
Proof.
  intros Hsmall. unfold Modulate.llmEmotionAnalysis.
  destruct (Modulate.segmentsOf transcript) as [| s rest] eqn:E.
  - simpl. split; by vm_compute.
  - destruct outcome; unfold Modulate.simpleKeywordFallback;
      by apply finish_sentiment.
Qed.

Lemma X1_local_sentiment_near_minus_02_to_03_witness :
  (Z.of_nat (length (Modulate.segmentsOf demoTranscript)) < 2 ^ 32)%Z
  ∧ within (- (2 # 10) - (1 # 1000000)) ((3 # 10) + (1 # 1000000))
      (Modulate.sentimentScore
         (Modulate.llmEmotionAnalysis demoTranscript shortReply)).
Proof.
  assert (H : (Z.of_nat (length (Modulate.segmentsOf demoTranscript))
               < 2 ^ 32)%Z) by (by vm_compute).
  split; [exact H |].
  exact (X1_local_sentiment_near_minus_02_to_03 demoTranscript shortReply H).
Defined.

(** The double that three negative sentences produce lies below -0.2. *)
Example three_negatives_below_minus_02 :
  Modulate.sentimentScore
    (Modulate.llmEmotionAnalysis threeWorries Modulate.LlmThrew)
  = JS.Num (- (7205759403792795 # 36028797018963968))
  ∧ (- (7205759403792795 # 36028797018963968) < - (2 # 10))%Q.
Proof. split; by vm_compute. Qed.

Lemma blank_has_no_segments transcript :
  Forall sentenceless transcript → Modulate.segmentsOf transcript = [].
Proof.
  intros Hall. unfold Modulate.segmentsOf.
  assert (Hpieces : Forall (Forall (λ c, JS.isWhiteSpace c = true))
                      (JS.splitSentences transcript)).
  { apply splitSentences_Forall. eapply Forall_impl; [exact Hall |].
    intros c [Hc | Hc] Ht; [done | congruence]. }
  induction Hpieces as [| p ps Hp _ IH]; [done |].
  rewrite filter_cons, (trim_blank p Hp). simpl. exact IH.
Qed.

(** X2. A transcript that holds nothing but white space and sentence
    terminators (the empty transcript included) has no sentence to
    classify: whatever the model does, the result is one neutral entry
    of confidence 0.5 carrying the transcript untrimmed, the profile
    [{neutral: 1}] and sentiment 0. *)
Theorem X2_blank_transcript_is_neutral transcript outcome :
  Forall sentenceless transcript →
  Modulate.llmEmotionAnalysis transcript outcome
  = {| Modulate.emotions :=
         [ {| Modulate.timestamp := 0; Modulate.emotion := Modulate.neutral;
              Modulate.confidence := 5 # 10; Modulate.text := transcript |} ];
       Modulate.profile := [(Modulate.neutral, JS.Num 1)];
       Modulate.sentimentScore := 0 |}.
Proof.
  intros Hall. unfold Modulate.llmEmotionAnalysis.
  by rewrite (blank_has_no_segments transcript Hall).
Qed.

Lemma X2_blank_transcript_is_neutral_witness :
  Forall sentenceless blankTranscript
  ∧ Modulate.profile
      (Modulate.llmEmotionAnalysis blankTranscript Modulate.LlmThrew)
    = [(Modulate.neutral, JS.Num 1)].
Proof.
  assert (H : Forall sentenceless blankTranscript).
  { unfold blankTranscript, sentenceless.
    repeat constructor; first [by left | by right]. }
  split; [exact H |].
  exact (f_equal Modulate.profile
           (X2_blank_transcript_is_neutral blankTranscript
              Modulate.LlmThrew H)).
Defined.

Section classifier_positions.

Lemma detect_neutral_iff patterns segment :
  Forall (λ p, p.1 ≠ Modulate.neutral) patterns →
  Modulate.detect patterns segment = Modulate.neutral
  ↔ Forall (λ p, JS.test p.2 segment = false) patterns.
Proof.
  induction 1 as [| [label alts] rest Hl _ IH]; simpl.
  - split; [constructor | done].
  - destruct (JS.test alts segment) eqn:Ht.
    + split; [done |]. intros H. apply Forall_cons in H as [H _]. simpl in H.
      congruence.
    + rewrite IH. split; [by constructor |].
      intros H. by apply Forall_cons in H as [_ H].
Qed.

Lemma detect_first patterns pre label alts post segment :
  patterns = pre ++ (label, alts) :: post →
  Forall (λ p, JS.test p.2 segment = false) pre →
  JS.test alts segment = true →
  Modulate.detect patterns segment = label.
Proof.
  intros -> Hpre Ht. induction Hpre as [| [l a] pre Hp _ IH]; simpl.
  - by rewrite Ht.
  - simpl in Hp. by rewrite Hp.
Qed.

End classifier_positions.

(** X3. When there is at least one sentence, [llmEmotionAnalysis] (on
    the LLM path and on the keyword fallback alike) returns its entries in
    the order of the sentences: entry [i] has timestamp [i] and carries
    the [i]-th sentence, trimmed. *)
Theorem X3_entries_follow_the_sentences transcript outcome :
  Modulate.segmentsOf transcript ≠ [] →
  (λ e, (Modulate.timestamp e, Modulate.text e))
    <$> Modulate.emotions (Modulate.llmEmotionAnalysis transcript outcome)
  = imap (λ i s, (Modulate.ofNat i, JS.trim s)) (Modulate.segmentsOf transcript).
Proof.
  intros Hne.
  destruct (Modulate.segmentsOf transcript) as [| s rest] eqn:E; [done |].
  rewrite (local_emotions transcript outcome s rest E).
  apply list_eq. intros i.
  rewrite list_lookup_fmap, !list_lookup_imap.
  destruct ((s :: rest) !! i); [| done]. by destruct outcome.
Qed.

Lemma X3_entries_follow_the_sentences_witness :
  Modulate.segmentsOf demoTranscript ≠ []
  ∧ (λ e, (Modulate.timestamp e, Modulate.text e))
      <$> Modulate.emotions
            (Modulate.llmEmotionAnalysis demoTranscript shortReply)
    = imap (λ i s, (Modulate.ofNat i, JS.trim s))
        (Modulate.segmentsOf demoTranscript).
Proof.
  assert (H : Modulate.segmentsOf demoTranscript ≠ [])
    by (vm_compute; discriminate).
  split; [exact H |].
  exact (X3_entries_follow_the_sentences demoTranscript shortReply H).
Defined.

(** X4. The keyword fallback only ever produces one of the seven labels
    anxiety, sadness, frustration, hope, urgency, gratitude and neutral,
    with confidence 0.5 for neutral and 0.6 for any other label. *)
Theorem X4_keyword_labels_and_confidences transcript segments :
  Forall (λ e, Modulate.emotion e ∈ knownLabels
               ∧ Modulate.confidence e
                 = if decide (Modulate.emotion e = Modulate.neutral)
                   then 5 # 10 else 6 # 10)
    (Modulate.emotions (Modulate.simpleKeywordFallback transcript segments)).
Proof.
  unfold Modulate.simpleKeywordFallback. rewrite finish_emotions.
  apply Forall_lookup. intros i e He.
  rewrite list_lookup_imap in He.
  destruct (segments !! i) as [s |]; [| done]. injection He as <-.
  split; [apply detect_known | reflexivity].
Qed.

(** X5. The keyword matcher labels a sentence neutral exactly when none
    of the six patterns matches it, and otherwise with the label of the
    first pattern that matches, in the order anxiety, sadness,
    frustration, hope, urgency, gratitude. *)
Theorem X5_first_matching_pattern_wins segment :
  (Modulate.detect Modulate.emotionPatterns segment = Modulate.neutral
   ↔ Forall (λ p, JS.test p.2 segment = false) Modulate.emotionPatterns)
  ∧ ∀ pre label alts post,
      Modulate.emotionPatterns = pre ++ (label, alts) :: post →
      Forall (λ p, JS.test p.2 segment = false) pre →
      JS.test alts segment = true →
      Modulate.detect Modulate.emotionPatterns segment = label.
Proof.
  split.
  - apply detect_neutral_iff. repeat constructor; by vm_compute.
  - intros pre label alts post. apply detect_first.
Qed.

Lemma X5_first_matching_pattern_wins_witness :
  Modulate.detect Modulate.emotionPatterns shelterTonight = js "urgency".
Proof.
  refine (proj2 (X5_first_matching_pattern_wins shelterTonight)
            (take 4 Modulate.emotionPatterns) (js "urgency")
            (default [] (snd <$> Modulate.emotionPatterns !! 4))
            (drop 5 Modulate.emotionPatterns) _ _ _).
  - vm_compute. reflexivity.
  - repeat constructor.
  - vm_compute. reflexivity.
Defined.



(** ** The conversation engine, further *)

Section engine_more.

Lemma startsWith_refl (p : jsstring) : JS.startsWith p p = true.
Proof. induction p as [| c p IH]; [done |]. simpl. by rewrite N.eqb_refl. Qed.

Lemma includes_without_bracket (s : jsstring) :
  Forall (λ c, c ≠ 91%N) s → JS.includes s LlmConversation.CALL_COMPLETE = false.
Proof.
  induction 1 as [| c s Hc _ IH]; [done |].
  cbn [JS.includes]. rewrite IH, orb_false_r.
  change LlmConversation.CALL_COMPLETE
    with (91%N :: tail LlmConversation.CALL_COMPLETE).
  cbn [JS.startsWith]. by rewrite (proj2 (N.eqb_neq 91 c)).
Qed.

Lemma replace_suffix_marker (body : jsstring) :
  Forall (λ c, c ≠ 91%N) body →
  JS.replace (body ++ LlmConversation.CALL_COMPLETE)
    LlmConversation.CALL_COMPLETE [] = body.
Proof.
  induction 1 as [| c s Hc _ IH].
  - by vm_compute.
  - cbn [app JS.replace].
    change LlmConversation.CALL_COMPLETE
      with (91%N :: tail LlmConversation.CALL_COMPLETE) at 1.
    cbn [JS.startsWith]. rewrite (proj2 (N.eqb_neq 91 c)) by done.
    cbn [andb]. by rewrite IH.
Qed.

Lemma includes_suffix (body m : jsstring) : JS.includes (body ++ m) m = true.
Proof.
  induction body as [| c s IH]; simpl.
  - destruct m; simpl; [done |]. by rewrite N.eqb_refl, startsWith_refl.
  - by rewrite IH, orb_true_r.
Qed.

End engine_more.

(** X7. The engine reports completion exactly when the model's reply is
    there, is not empty and contains the marker: a failed request, a
    missing reply or an empty reply never ends the call. *)
Theorem X7_only_a_marked_reply_completes history latest outcome :
  LlmConversation.isComplete
    (LlmConversation.generateNextResponse history latest outcome) = true
  ↔ ∃ raw, outcome = LlmConversation.ChatContent (Some raw)
           ∧ JS.includes raw LlmConversation.CALL_COMPLETE = true.
Proof.
  split.
  - destruct outcome as [| [raw |]]; simpl; try done.
    destruct raw as [| c raw]; [done |]. intros H. by eexists.
  - intros (raw & -> & H). destruct raw; [done | exact H].
Qed.

(** X8. A reply that ends with the marker and has no opening bracket
    before it is handed back without the marker, trimmed, and with
    [isComplete = true]. *)
Theorem X8_trailing_marker_is_stripped history latest body :
  Forall (λ c, c ≠ 91%N) body →
  let r :=
    LlmConversation.generateNextResponse history latest
      (LlmConversation.ChatContent
         (Some (body ++ LlmConversation.CALL_COMPLETE))) in
  LlmConversation.response r = JS.trim body
  ∧ LlmConversation.isComplete r = true
  ∧ JS.includes (LlmConversation.response r) LlmConversation.CALL_COMPLETE
    = false.
Proof.
  intros Hbody. cbv zeta. unfold LlmConversation.generateNextResponse.
  assert (Hraw : LlmConversation.orElse
                   (Some (body ++ LlmConversation.CALL_COMPLETE))
                   (js "I appreciate you sharing that. Could you tell me a bit more?")
                 = body ++ LlmConversation.CALL_COMPLETE).
  { unfold LlmConversation.orElse. by destruct body. }
  rewrite Hraw. cbn [LlmConversation.response LlmConversation.isComplete].
  rewrite (replace_suffix_marker body Hbody).
  split; [done |]. split; [apply includes_suffix |].
  apply includes_without_bracket. by apply trim_Forall.
Qed.

Lemma X8_trailing_marker_is_stripped_witness :
  LlmConversation.response
    (LlmConversation.generateNextResponse [] (js "Goodbye")
       (LlmConversation.ChatContent (Some closingReply)))
  = js "Thank you, a caseworker will follow up.".
Proof.
  assert (H : Forall (λ c, c ≠ 91%N)
                (js "Thank you, a caseworker will follow up." ++ [10%N]))
    by (repeat constructor; by vm_compute).
  pose proof (proj1 (X8_trailing_marker_is_stripped [] (js "Goodbye") _ H))
    as Hr.
  unfold closingReply. rewrite (assoc_L (++)). rewrite Hr.
  vm_compute. reflexivity.
Defined.

(** ** The registry, further *)

Section registry_more.
Implicit Types (st : CallState.Registry) (call : CallState.ActiveCall).

Lemma wf_separate st k1 k2 ref :
  CallState.wf st →
  CallState.activeCalls st !! k1 = Some ref →
  CallState.activeCalls st !! k2 = Some ref →
  k1 = k2.
Proof.
  intros Hwf H1 H2.
  destruct (Hwf _ _ H1) as (c1' & Hd1 & <-).
  destruct (Hwf _ _ H2) as (c2' & Hd2 & <-). congruence.
Qed.

Lemma wf_ref_bound st k ref :
  CallState.wf st → CallState.activeCalls st !! k = Some ref →
  ref < length (CallState.heap st).
Proof.
  intros Hwf Hk. destruct (Hwf _ _ Hk) as (call & Hd & _).
  by apply lookup_lt_Some in Hd.
Qed.

Lemma join_snoc (sep : jsstring) (parts : list jsstring) (x : jsstring) :
  JS.join sep (parts ++ [x])
  = match parts with
    | [] => x
    | _ => JS.join sep parts ++ sep ++ x
    end.
Proof.
  induction parts as [| p rest IH]; [done |].
  destruct rest as [| q rest]; [done |].
  change ((p :: q :: rest) ++ [x]) with (p :: ((q :: rest) ++ [x])).
  change (JS.join sep (p :: (q :: rest) ++ [x]))
    with (p ++ sep ++ JS.join sep ((q :: rest) ++ [x])).
  rewrite IH.
  change (JS.join sep (p :: q :: rest))
    with (p ++ sep ++ JS.join sep (q :: rest)).
  by rewrite <- !app_assoc.
Qed.

End registry_more.

(** X9. In a well-formed registry the calls do not interfere: an
    operation addressed to one [callId] (create, add a turn, add a
    segment, remove) leaves every call registered under another [callId]
    registered, at the same object, with the same history, segments and
    [turnIndex]. *)
Theorem X9_operations_leave_other_calls_alone st op other ref :
  CallState.wf st →
  opCallId op ≠ other →
  CallState.getActiveCall st other = Some ref →
  CallState.getActiveCall (CallState.step st op) other = Some ref
  ∧ CallState.deref (CallState.step st op) ref = CallState.deref st ref.
Proof.
  intros Hwf Hne Hget. unfold CallState.getActiveCall in *.
  assert (Hmut : ∀ f k,
            k ≠ other →
            let st' :=
              match CallState.activeCalls st !! k with
              | None => st
              | Some r => CallState.mutate f r st
              end in
            CallState.activeCalls st' !! other = Some ref
            ∧ CallState.deref st' ref = CallState.deref st ref).
  { intros f k Hk. cbv zeta.
    destruct (CallState.activeCalls st !! k) as [r |] eqn:E; [| done].
    split; [done |]. apply deref_mutate_ne. intros ->.
    apply Hk. by apply (wf_separate st k other ref). }
  destruct op; simpl in Hne.
  - simpl. split; [by rewrite lookup_insert_ne |].
    unfold CallState.deref. simpl. apply lookup_app_l.
    by apply (wf_ref_bound st other).
  - by apply Hmut.
  - by apply Hmut.
  - simpl. unfold CallState.removeActiveCall.
    destruct (CallState.activeCalls st !! callId) eqn:E; [| done].
    simpl. split; [by rewrite lookup_delete_ne | done].
Qed.

Lemma X9_operations_leave_other_calls_alone_witness :
  opCallId (CallState.Remove (js "call-2")) ≠ c1
  ∧ CallState.getActiveCall demoRegistry c1 = Some 0
  ∧ CallState.deref
      (CallState.step demoRegistry (CallState.Remove (js "call-2"))) 0
    = CallState.deref demoRegistry 0.
Proof.
  assert (H1 : opCallId (CallState.Remove (js "call-2")) ≠ c1)
    by (vm_compute; discriminate).
  assert (H2 : CallState.getActiveCall demoRegistry c1 = Some 0)
    by (vm_compute; reflexivity).
  split; [exact H1 |]. split; [exact H2 |].
  exact (proj2 (X9_operations_leave_other_calls_alone demoRegistry _ c1 0
                  (wf_run demoOps _ wf_empty) H1 H2)).
Defined.

(** X10. The full transcript grows with the segments: after a segment is
    added to a registered call, the transcript is that segment's line
    (["Caller: <text>"] or ["Agent: <text>"]) if the call had no segment,
    and otherwise the transcript as it was, a newline, and that line.
    Emotion, confidence and time of the segment do not show. *)
Theorem X10_transcript_grows_by_one_line st k ref call speaker text emotion
    confidence now :
  CallState.getActiveCall st k = Some ref →
  CallState.deref st ref = Some call →
  CallState.getFullTranscript
    (CallState.addTranscriptSegment st k speaker text emotion confidence now) k
  = let line :=
      (match speaker with
       | CallState.caller => js "Caller"
       | CallState.agent => js "Agent"
       end) ++ js ": " ++ text in
    match CallState.transcriptSegments call with
    | [] => line
    | _ => CallState.getFullTranscript st k ++ newline ++ line
    end.
Proof.
  intros Hget Hd. unfold CallState.getActiveCall in Hget.
  rewrite (addTranscriptSegment_present st k ref) by done.
  unfold CallState.getFullTranscript. cbn [CallState.mutate CallState.activeCalls].
  rewrite Hget.
  change (CallState.deref
            {| CallState.heap := alter
                 (CallState.pushSegment speaker text emotion confidence now)
                 ref (CallState.heap st);
               CallState.activeCalls := CallState.activeCalls st;
               CallState.callSidToCallId := CallState.callSidToCallId st |} ref)
    with (CallState.deref
            (CallState.mutate
               (CallState.pushSegment speaker text emotion confidence now)
               ref st) ref).
  rewrite deref_mutate, Hd. cbn [fmap option_fmap option_map].
  cbn [CallState.pushSegment CallState.transcriptSegments].
  rewrite fmap_app. cbn [fmap list_fmap]. rewrite join_snoc.
  destruct (CallState.transcriptSegments call); reflexivity.
Qed.

Lemma X10_transcript_grows_by_one_line_witness :
  CallState.getActiveCall demoRegistry c1 = Some 0
  ∧ CallState.deref demoRegistry 0 = Some demoCall
  ∧ CallState.getFullTranscript (CallState.step demoRegistry demoSegmentOp) c1
    = js "Agent: Hello." ++ newline ++ js "Caller: I lost my job and I'm scared.".
Proof.
  assert (H1 : CallState.getActiveCall demoRegistry c1 = Some 0)
    by (vm_compute; reflexivity).
  assert (H2 : CallState.deref demoRegistry 0 = Some demoCall)
    by (vm_compute; reflexivity).
  split; [exact H1 |]. split; [exact H2 |].
  etransitivity;
    [exact (X10_transcript_grows_by_one_line demoRegistry c1 0 demoCall
              CallState.caller demoText (js "anxiety") (6 # 10) 1700000001000
              H1 H2) |].
  vm_compute. reflexivity.
Defined.

(** X11. Lookup by provider session id: right after [createActiveCall]
    the new call is found under its [twilioCallSid] when its [callId] is
    a non-empty string, and is not found when the [callId] is empty
    (although [getActiveCall] finds it); after [removeActiveCall] the
    session id of the removed call finds nothing. *)
Theorem X11_lookup_by_session_id st callId clientId sid now :
  let st' := (CallState.createActiveCall st callId clientId sid now).1 in
  let ref := (CallState.createActiveCall st callId clientId sid now).2 in
  CallState.getActiveCallBySid st' sid
  = (if JS.truthy callId then Some ref else None)
  ∧ CallState.getActiveCall st' callId = Some ref
  ∧ ∀ st0 k r call,
      CallState.getActiveCall st0 k = Some r →
      CallState.deref st0 r = Some call →
      CallState.getActiveCallBySid (CallState.removeActiveCall st0 k)
        (CallState.twilioCallSid call) = None.
Proof.
  cbv zeta. split; [| split].
  - unfold CallState.getActiveCallBySid. simpl.
    rewrite lookup_insert_eq. destruct (JS.truthy callId); [| done].
    apply lookup_insert_eq.
  - apply lookup_insert_eq.
  - intros st0 k r call Hget Hd. unfold CallState.getActiveCall in Hget.
    unfold CallState.getActiveCallBySid, CallState.removeActiveCall.
    rewrite Hget, Hd. simpl. by rewrite lookup_delete_eq.
Qed.

Lemma X11_lookup_by_session_id_witness :
  CallState.getActiveCall demoRegistry c1 = Some 0
  ∧ CallState.deref demoRegistry 0 = Some demoCall
  ∧ CallState.getActiveCallBySid (CallState.removeActiveCall demoRegistry c1)
      (js "web-1700000000000") = None.
Proof.
  assert (H1 : CallState.getActiveCall demoRegistry c1 = Some 0)
    by (vm_compute; reflexivity).
  assert (H2 : CallState.deref demoRegistry 0 = Some demoCall)
    by (vm_compute; reflexivity).
  split; [exact H1 |]. split; [exact H2 |].
  exact (proj2 (proj2 (X11_lookup_by_session_id CallState.empty c1 u1
                         (js "web-1") 0)) demoRegistry c1 0 demoCall H1 H2).
Defined.

(** X12. [removeActiveCall] is idempotent and local: removing a call
    twice is removing it once, removing a call that is not registered
    changes nothing, afterwards the [callId] is not registered, and no
    call object is altered. *)
Theorem X12_remove_is_idempotent st k :
  CallState.removeActiveCall (CallState.removeActiveCall st k) k
  = CallState.removeActiveCall st k
  ∧ CallState.getActiveCall (CallState.removeActiveCall st k) k = None
  ∧ CallState.heap (CallState.removeActiveCall st k) = CallState.heap st
  ∧ (CallState.getActiveCall st k = None →
     CallState.removeActiveCall st k = st).
Proof.
  assert (Hgone : CallState.getActiveCall (CallState.removeActiveCall st k) k
                  = None).
  { unfold CallState.getActiveCall, CallState.removeActiveCall.
    destruct (CallState.activeCalls st !! k) eqn:E; [| done].
    simpl. apply lookup_delete_eq. }
  split; [| split; [exact Hgone | split]].
  - unfold CallState.getActiveCall in Hgone.
    unfold CallState.removeActiveCall at 1. by rewrite Hgone.
  - unfold CallState.removeActiveCall.
    by destruct (CallState.activeCalls st !! k).
  - unfold CallState.getActiveCall, CallState.removeActiveCall.
    by intros ->.
Qed.

Lemma X12_remove_is_idempotent_witness :
  CallState.getActiveCall demoRegistry (js "call-2") = None
  ∧ CallState.removeActiveCall demoRegistry (js "call-2") = demoRegistry.
Proof.
  assert (H : CallState.getActiveCall demoRegistry (js "call-2") = None)
    by (vm_compute; reflexivity).
  split; [exact H |].
  exact (proj2 (proj2 (proj2
           (X12_remove_is_idempotent demoRegistry (js "call-2")))) H).
Defined.

(** ** The hub, further *)

Section hub_more.
Implicit Types (h : Websocket.Hub) (ws : nat) (key : jsstring).

Lemma setAdd_NoDup ws members : NoDup members → NoDup (Websocket.setAdd ws members).
Proof.
  intros Hnd. unfold Websocket.setAdd. case_decide; [done |].
  apply NoDup_app. split; [done |]. split; [| apply NoDup_singleton].
  intros x Hx Hx'. apply list_elem_of_singleton in Hx'. by subst.
Qed.

Lemma setAdd_nonempty ws members : Websocket.setAdd ws members ≠ [].
Proof.
  unfold Websocket.setAdd. case_decide as Hin.
  - intros ->. by apply elem_of_nil in Hin.
  - by destruct members.
Qed.

Lemma tidy_subscribe key ws (subs : gmap jsstring (list nat)) :
  (∀ k members, subs !! k = Some members → members ≠ [] ∧ NoDup members) →
  ∀ k members, Websocket.subscribe key ws subs !! k = Some members →
               members ≠ [] ∧ NoDup members.
Proof.
  intros Hsubs k members. unfold Websocket.subscribe.
  destruct (decide (key = k)) as [-> | Hne].
  - rewrite lookup_insert_eq. intros [= <-].
    split; [apply setAdd_nonempty |]. apply setAdd_NoDup.
    destruct (subs !! k) as [old |] eqn:E; simpl;
      [by apply (Hsubs k) | apply NoDup_nil_2].
  - rewrite lookup_insert_ne by done. apply Hsubs.
Qed.

Lemma close_lookup h ws key members :
  Websocket.callSubscribers (Websocket.close h ws) !! key = Some members
  ↔ ∃ old, Websocket.callSubscribers h !! key = Some old
           ∧ members = filter (λ x, x ≠ ws) old ∧ members ≠ [].
Proof.
  unfold Websocket.close. cbn [Websocket.callSubscribers].
  rewrite map_lookup_filter_Some, lookup_fmap. simpl.
  destruct (Websocket.callSubscribers h !! key) as [old |]; simpl.
  - split.
    + intros [[= <-] Hne]. by exists old.
    + intros (old' & [= <-] & -> & Hne). done.
  - split; [by intros [? _] | by intros (? & ? & _)].
Qed.

Lemma tidy_step h op : tidy h → tidy (hubStep h op).
Proof.
  intros Ht. destruct op; simpl; [| | exact Ht | exact Ht].
  - unfold Websocket.connection.
    destruct (negb (Websocket.given callId) && negb (Websocket.given clientId));
      [exact Ht |].
    unfold tidy. cbn [Websocket.callSubscribers].
    destruct (Websocket.given clientId && negb (Websocket.given callId));
      repeat apply tidy_subscribe; exact Ht.
  - intros key members Hk. apply close_lookup in Hk as (old & Hold & -> & Hne).
    split; [done |]. apply NoDup_filter. by apply (Ht key).
Qed.

Lemma copies_NoDup ws members :
  NoDup members → copies ws members = if decide (ws ∈ members) then 1 else 0.
Proof.
  intros Hnd. unfold copies. induction Hnd as [| x l Hx _ IH]; [done |].
  rewrite filter_cons. destruct (decide (x = ws)) as [-> | Hne].
  - simpl. rewrite decide_True by apply list_elem_of_here.
    rewrite decide_False in IH by done. by rewrite IH.
  - rewrite IH. repeat case_decide; try done.
    + exfalso. by apply H0, list_elem_of_further.
    + exfalso. apply elem_of_cons in H0 as [-> | H0]; done.
Qed.

(** One broadcast loop, for a key that may be absent. *)
Lemma sendAll_delivered message subs ws s (socks : gmap nat Websocket.Socket) :
  socks !! ws = Some s →
  Websocket.sendAll message subs socks !! ws
  = Some (delivered s (copies ws (default [] subs)) message).
Proof.
  intros Hs. destruct subs as [members |].
  - by apply sendAll_lookup.
  - simpl. rewrite Hs. unfold delivered. destruct s as [state out]. simpl.
    by case_bool_decide; rewrite app_nil_r.
Qed.

Lemma delivered_twice s n m message :
  delivered (delivered s n message) m message = delivered s (n + m) message.
Proof.
  unfold delivered. simpl. f_equal. rewrite <- app_assoc. f_equal.
  case_bool_decide; [by rewrite replicate_add | done].
Qed.

Lemma transcript_fan_out h ws s segment :
  Websocket.sockets h !! ws = Some s →
  Websocket.sockets (Websocket.broadcastTranscriptSegment h segment) !! ws
  = Some (delivered s
            (copies ws (subscribers h (Websocket.callId segment))
             + copies ws
                 (subscribers h
                    (Websocket.clientKey (Websocket.clientId segment))))
            (Websocket.Transcript segment)).
Proof.
  intros Hs. unfold Websocket.broadcastTranscriptSegment.
  cbn [Websocket.sockets].
  erewrite sendAll_delivered; [| by apply sendAll_delivered].
  by rewrite delivered_twice.
Qed.

Lemma event_fan_out h ws s callId clientId event data :
  Websocket.sockets h !! ws = Some s →
  Websocket.sockets
    (Websocket.broadcastCallEvent h callId clientId event data) !! ws
  = Some (delivered s
            (copies ws (subscribers h callId)
             + copies ws (subscribers h (Websocket.clientKey clientId)))
            (Websocket.CallEvent event callId clientId data)).
Proof.
  intros Hs. unfold Websocket.broadcastCallEvent.
  cbn [Websocket.sockets foldl].
  erewrite sendAll_delivered; [| by apply sendAll_delivered].
  by rewrite delivered_twice.
Qed.

End hub_more.

(** X13. In every hub reached from the empty one by connections, closes
    and broadcasts, every key that is present has a non-empty set, and no
    set lists a socket twice. *)
Theorem X13_sets_stay_nonempty_and_duplicate_free ops key members :
  Websocket.callSubscribers (hubRun ops Websocket.empty) !! key = Some members →
  members ≠ [] ∧ NoDup members.
Proof.
  assert (Hall : ∀ h, tidy h → tidy (hubRun ops h)).
  { induction ops as [| op ops IH]; intros h Ht; [done |].
    apply IH, tidy_step, Ht. }
  apply Hall. intros k m Hk. simpl in Hk. by rewrite lookup_empty in Hk.
Qed.

Lemma X13_sets_stay_nonempty_and_duplicate_free_witness :
  Websocket.callSubscribers demoHub !! c1 = Some [0]
  ∧ [0] ≠ [] ∧ NoDup [0].
Proof.
  assert (H : Websocket.callSubscribers (hubRun demoHubOps Websocket.empty)
                !! c1 = Some [0])
    by (vm_compute; reflexivity).
  split; [exact H |].
  exact (X13_sets_stay_nonempty_and_duplicate_free demoHubOps c1 [0] H).
Defined.

(** X14. When a socket closes it is taken out of every set, a set that
    becomes empty disappears with its key, the membership of every other
    socket is unchanged under every key, the socket's state becomes
    CLOSED with its wire history kept, and nothing is published. *)
Theorem X14_close_unsubscribes_everywhere h ws :
  (∀ key, ws ∉ subscribers (Websocket.close h ws) key)
  ∧ (∀ key, Websocket.callSubscribers (Websocket.close h ws) !! key ≠ Some [])
  ∧ (∀ key other, other ≠ ws →
       other ∈ subscribers (Websocket.close h ws) key
       ↔ other ∈ subscribers h key)
  ∧ (∀ other, other ≠ ws →
       Websocket.sockets (Websocket.close h ws) !! other
       = Websocket.sockets h !! other)
  ∧ Websocket.sockets (Websocket.close h ws) !! ws
    = (λ s, {| Websocket.readyState := Websocket.CLOSED;
               Websocket.sent := Websocket.sent s |})
        <$> Websocket.sockets h !! ws
  ∧ Websocket.published (Websocket.close h ws) = Websocket.published h.
Proof.
  assert (Hsub : ∀ key,
            subscribers (Websocket.close h ws) key
            = filter (λ x, x ≠ ws) (subscribers h key)).
  { intros key. unfold subscribers.
    destruct (Websocket.callSubscribers (Websocket.close h ws) !! key)
      as [members |] eqn:E.
    - apply close_lookup in E as (old & -> & -> & _). done.
    - destruct (Websocket.callSubscribers h !! key) as [old |] eqn:E';
        [| done].
      simpl. destruct (filter (λ x, x ≠ ws) old) as [| y ys] eqn:F; [done |].
      assert (Hsome : Websocket.callSubscribers (Websocket.close h ws) !! key
                      = Some (y :: ys)).
      { apply close_lookup. exists old. by rewrite F. }
      congruence. }
  split; [| split; [| split; [| split; [| split]]]].
  - intros key. rewrite Hsub, list_elem_of_filter. by intros [? _].
  - intros key Hk. by apply close_lookup in Hk as (_ & _ & _ & ?).
  - intros key other Hne. rewrite Hsub, list_elem_of_filter. tauto.
  - intros other Hne. simpl. by apply lookup_alter_ne.
  - simpl. apply lookup_alter_eq.
  - done.
Qed.

Lemma X14_close_unsubscribes_everywhere_witness :
  (1 : nat) ≠ 0
  ∧ (1 ∈ subscribers (Websocket.close demoHub 0) (Websocket.clientKey u1)
     ↔ 1 ∈ subscribers demoHub (Websocket.clientKey u1)).
Proof.
  assert (H : (1 : nat) ≠ 0) by lia.
  split; [exact H |].
  exact (proj1 (proj2 (proj2 (X14_close_unsubscribes_everywhere demoHub 0)))
           (Websocket.clientKey u1) 1 H).
Defined.

(** X15. Fan-out of both broadcast functions. A socket known to the hub
    is sent one copy of the message for each of the two sets addressed
    (the [callId] key and the [client:<clientId>] key) that lists it, if
    it is OPEN, and nothing if it is in any other state; what it was sent
    before stays in front. In a hub whose sets are duplicate-free each
    set counts once at most, so that is at most two copies, and exactly
    one when the socket is in just one of the two sets. *)
Theorem X15_broadcast_fan_out h ws s :
  Websocket.sockets h !! ws = Some s →
  (∀ segment,
     Websocket.sockets (Websocket.broadcastTranscriptSegment h segment) !! ws
     = Some (delivered s
               (copies ws (subscribers h (Websocket.callId segment))
                + copies ws
                    (subscribers h
                       (Websocket.clientKey (Websocket.clientId segment))))
               (Websocket.Transcript segment)))
  ∧ (∀ callId clientId event data,
       Websocket.sockets
         (Websocket.broadcastCallEvent h callId clientId event data) !! ws
       = Some (delivered s
                 (copies ws (subscribers h callId)
                  + copies ws (subscribers h (Websocket.clientKey clientId)))
                 (Websocket.CallEvent event callId clientId data)))
  ∧ (tidy h →
     ∀ key, copies ws (subscribers h key)
            = if decide (ws ∈ subscribers h key) then 1 else 0).
Proof.
  intros Hs. split; [| split].
  - intros segment. by apply transcript_fan_out.
  - intros callId clientId event data. by apply event_fan_out.
  - intros Ht key. apply copies_NoDup. unfold subscribers.
    destruct (Websocket.callSubscribers h !! key) as [members |] eqn:E;
      [by apply (Ht key) | apply NoDup_nil_2].
Qed.

Lemma X15_broadcast_fan_out_witness :
  Websocket.sockets demoHub !! 1
  = Some {| Websocket.readyState := Websocket.OPEN;
            Websocket.sent := [Websocket.Connected None (Some u1)] |}
  ∧ (Websocket.sent
       <$> Websocket.sockets
             (Websocket.broadcastTranscriptSegment demoHub demoSegment) !! 1)
    = Some [Websocket.Connected None (Some u1);
            Websocket.Transcript demoSegment].
Proof.
  assert (H : Websocket.sockets demoHub !! 1
              = Some {| Websocket.readyState := Websocket.OPEN;
                        Websocket.sent :=
                          [Websocket.Connected None (Some u1)] |})
    by (vm_compute; reflexivity).
  split; [exact H |].
  rewrite (proj1 (X15_broadcast_fan_out demoHub 1 _ H) demoSegment).
  vm_compute. reflexivity.
Defined.

(** X16. After a socket has closed, no broadcast sends it anything:
    whatever is published next, its wire history stays as it was at the
    close. *)
Theorem X16_closed_socket_gets_nothing h ws s ops :
  Websocket.sockets h !! ws = Some s →
  Forall (λ op, match op with
                | PublishTranscript _ | PublishEvent _ _ _ _ => True
                | _ => False
                end) ops →
  Websocket.sockets (hubRun ops (Websocket.close h ws)) !! ws
  = Some {| Websocket.readyState := Websocket.CLOSED;
            Websocket.sent := Websocket.sent s |}.
Proof.
  intros Hs Hops.
  assert (Hclosed : Websocket.sockets (Websocket.close h ws) !! ws
                    = Some {| Websocket.readyState := Websocket.CLOSED;
                              Websocket.sent := Websocket.sent s |}).
  { simpl. by rewrite lookup_alter_eq, Hs. }
  revert Hclosed. generalize (Websocket.close h ws). clear Hs.
  induction Hops as [| op ops Hop _ IH]; intros h' Hh'; [exact Hh' |].
  cbn [hubRun foldl]. apply IH.
  destruct op; try done; cbn [hubStep].
  - rewrite (transcript_fan_out h' ws _ segment Hh').
    unfold delivered. simpl. by rewrite app_nil_r.
  - rewrite (event_fan_out h' ws _ callId clientId event data Hh').
    unfold delivered. simpl. by rewrite app_nil_r.
Qed.

Lemma X16_closed_socket_gets_nothing_witness :
  Websocket.sockets demoHub !! 1
  = Some {| Websocket.readyState := Websocket.OPEN;
            Websocket.sent := [Websocket.Connected None (Some u1)] |}
  ∧ Websocket.sockets
      (hubRun [PublishTranscript demoSegment] (Websocket.close demoHub 1)) !! 1
    = Some {| Websocket.readyState := Websocket.CLOSED;
              Websocket.sent := [Websocket.Connected None (Some u1)] |}.
Proof.
  assert (H : Websocket.sockets demoHub !! 1
              = Some {| Websocket.readyState := Websocket.OPEN;
                        Websocket.sent :=
                          [Websocket.Connected None (Some u1)] |})
    by (vm_compute; reflexivity).
  split; [exact H |].
  apply (X16_closed_socket_gets_nothing demoHub 1 _
           [PublishTranscript demoSegment] H).
  repeat constructor.
Defined.

(** X17. A new connection that supplies a [clientId] and no [callId]
    joins the [client:<clientId>] key, once (the second registration in
    the handler adds nothing), and no other key; every transcript segment
    published for that client, whatever its call, is then sent to it
    exactly once. *)
Theorem X17_client_subscription h ws callIdParam clientId segment :
  Websocket.given callIdParam = false →
  clientId ≠ [] →
  (∀ key members, Websocket.callSubscribers h !! key = Some members →
                  ws ∉ members) →
  Websocket.clientId segment = clientId →
  Websocket.callId segment ≠ Websocket.clientKey clientId →
  let h1 := Websocket.connection h ws callIdParam (Some clientId) in
  subscribers h1 (Websocket.clientKey clientId)
  = subscribers h (Websocket.clientKey clientId) ++ [ws]
  ∧ (∀ key, key ≠ Websocket.clientKey clientId →
       Websocket.callSubscribers h1 !! key
       = Websocket.callSubscribers h !! key)
  ∧ (Websocket.sent
       <$> Websocket.sockets
             (Websocket.broadcastTranscriptSegment h1 segment) !! ws)
    = Some [Websocket.Connected callIdParam (Some clientId);
            Websocket.Transcript segment].
Proof.
  intros Hcall Hclient Hnew Hseg Hkeys. cbv zeta.
  assert (Hg : Websocket.given (Some clientId) = true)
    by (by apply truthy_nonempty).
  assert (Hold : ws ∉ subscribers h (Websocket.clientKey clientId)).
  { unfold subscribers.
    destruct (Websocket.callSubscribers h !! Websocket.clientKey clientId)
      as [old |] eqn:E; simpl; [by apply (Hnew _ _ E) | apply not_elem_of_nil]. }
  assert (Hsubs :
    Websocket.callSubscribers
      (Websocket.connection h ws callIdParam (Some clientId))
    = <[Websocket.clientKey clientId
        := subscribers h (Websocket.clientKey clientId) ++ [ws]]>
        (Websocket.callSubscribers h)).
  { unfold Websocket.connection. rewrite Hcall, Hg.
    cbn [negb andb default Websocket.callSubscribers].
    unfold Websocket.subscribe. rewrite lookup_insert_eq. cbn [default].
    fold (subscribers h (Websocket.clientKey clientId)).
    unfold Websocket.setAdd at 2. rewrite decide_False by done.
    unfold Websocket.setAdd.
    rewrite decide_True by (apply elem_of_app; right; apply list_elem_of_here).
    by rewrite insert_insert_eq. }
  assert (Hsock :
    Websocket.sockets (Websocket.connection h ws callIdParam (Some clientId))
      !! ws
    = Some {| Websocket.readyState := Websocket.OPEN;
              Websocket.sent :=
                [Websocket.Connected callIdParam (Some clientId)] |}).
  { unfold Websocket.connection. rewrite Hcall, Hg.
    cbn [negb andb Websocket.sockets]. unfold Websocket.send.
    by rewrite lookup_alter_eq, lookup_insert_eq. }
  split; [| split].
  - unfold subscribers at 1. by rewrite Hsubs, lookup_insert_eq.
  - intros key Hne. by rewrite Hsubs, lookup_insert_ne.
  - rewrite (transcript_fan_out _ ws _ segment Hsock).
    unfold subscribers at 1 2. rewrite Hsubs, Hseg.
    rewrite lookup_insert_ne, lookup_insert_eq by done. cbn [default].
    unfold id. rewrite copies_snoc, (copies_absent _ _ Hold).
    fold (subscribers h (Websocket.callId segment)).
    rewrite copies_absent; [done |].
    unfold subscribers.
    destruct (Websocket.callSubscribers h !! Websocket.callId segment)
      as [old |] eqn:E; simpl; [by apply (Hnew _ _ E) | apply not_elem_of_nil].
Qed.

Lemma X17_client_subscription_witness :
  u1 ≠ []
  ∧ Websocket.callId demoSegment ≠ Websocket.clientKey u1
  ∧ (Websocket.sent
       <$> Websocket.sockets
             (Websocket.broadcastTranscriptSegment
                (Websocket.connection Websocket.empty 7 None (Some u1))
                demoSegment) !! 7)
    = Some [Websocket.Connected None (Some u1);
            Websocket.Transcript demoSegment].
Proof.
  assert (H1 : u1 ≠ []) by (vm_compute; discriminate).
  assert (H2 : Websocket.callId demoSegment ≠ Websocket.clientKey u1)
    by (vm_compute; discriminate).
  assert (H3 : ∀ key members,
             Websocket.callSubscribers Websocket.empty !! key = Some members →
             7 ∉ members)
    by (intros key members H; simpl in H; by rewrite lookup_empty in H).
  split; [exact H1 |]. split; [exact H2 |].
  exact (proj2 (proj2
           (X17_client_subscription Websocket.empty 7 None u1 demoSegment
              eq_refl H1 H3 eq_refl H2))).
Defined.

(** ** The routes, further *)

Section routes_more.
Implicit Types (w : Routes.World) (env : Routes.TurnEnv).

(** The voice turn, with its pieces named. *)
Lemma processTurn_unfold w callId callerText env ref call :
  CallState.getActiveCall (Routes.registry w) callId = Some ref →
  CallState.deref (Routes.registry w) ref = Some call →
  CallState.callId call = callId →
  JS.trim callerText ≠ [] →
  Routes.processTurn w callId (Some callerText) env
  = let w' :=
      afterTurn w callId (CallState.clientId call) callerText ref env in
    let next := nextResponse (Routes.registry w) callId callerText ref env in
    if LlmConversation.isComplete next then
      match Routes.finalizeCall w' callId (Routes.finalization env) with
      | (w'', Routes.Returned) =>
          (w'', Routes.TurnOk (LlmConversation.response next)
                  (sentenceEmotions callerText env) true)
      | (w'', Routes.Threw) => (w'', Routes.ServerError)
      end
    else
      (w', Routes.TurnOk (LlmConversation.response next)
             (sentenceEmotions callerText env) false).
Proof.
  intros Hget Hd Hid Htrim. unfold Routes.processTurn. rewrite Hget.
  rewrite (trim_nonempty _ Htrim), (truthy_nonempty _ Htrim).
  cbn [negb orb]. rewrite Hd. cbn [from_option]. rewrite Hid. cbv zeta.
  fold (primaryEmotion callerText env). fold (emotionConfidence callerText env).
  fold (afterCaller (Routes.registry w) callId callerText env).
  fold (nextResponse (Routes.registry w) callId callerText ref env).
  fold (afterAgent (Routes.registry w) callId callerText ref env).
  fold (sentenceEmotions callerText env).
  destruct (LlmConversation.isComplete
              (nextResponse (Routes.registry w) callId callerText ref env));
    reflexivity.
Qed.

(** The call object after the caller's half and after the whole turn. *)
Lemma turn_objects (st : CallState.Registry) k ref call callerText env :
  CallState.activeCalls st !! k = Some ref →
  CallState.deref st ref = Some call →
  let callA :=
    CallState.pushSegment CallState.caller callerText
      (primaryEmotion callerText env) (emotionConfidence callerText env)
      (Routes.clock env 0)
      (CallState.pushTurn LlmConversation.user callerText call) in
  let response :=
    LlmConversation.response (nextResponse st k callerText ref env) in
  let callB :=
    CallState.pushSegment CallState.agent response Modulate.neutral (8 # 10)
      (Routes.clock env 2)
      (CallState.pushTurn LlmConversation.assistant response callA) in
  CallState.deref (afterCaller st k callerText env) ref = Some callA
  ∧ CallState.deref (afterAgent st k callerText ref env) ref = Some callB
  ∧ CallState.activeCalls (afterAgent st k callerText ref env)
    = CallState.activeCalls st
  ∧ CallState.callSidToCallId (afterAgent st k callerText ref env)
    = CallState.callSidToCallId st
  ∧ ∀ r, r ≠ ref →
         CallState.deref (afterAgent st k callerText ref env) r
         = CallState.deref st r.
Proof.
  intros Hk Hd. cbv zeta.
  assert (HA : afterCaller st k callerText env
               = CallState.mutate
                   (CallState.pushSegment CallState.caller callerText
                      (primaryEmotion callerText env)
                      (emotionConfidence callerText env) (Routes.clock env 0))
                   ref
                   (CallState.mutate
                      (CallState.pushTurn LlmConversation.user callerText)
                      ref st)).
  { unfold afterCaller.
    rewrite (addConversationTurn_present st k ref) by done.
    by rewrite (addTranscriptSegment_present _ k ref). }
  assert (HB : afterAgent st k callerText ref env
               = CallState.mutate
                   (CallState.pushSegment CallState.agent
                      (LlmConversation.response
                         (nextResponse st k callerText ref env))
                      Modulate.neutral (8 # 10) (Routes.clock env 2))
                   ref
                   (CallState.mutate
                      (CallState.pushTurn LlmConversation.assistant
                         (LlmConversation.response
                            (nextResponse st k callerText ref env)))
                      ref (afterCaller st k callerText env))).
  { unfold afterAgent.
    rewrite (addConversationTurn_present _ k ref) by (by rewrite HA).
    rewrite (addTranscriptSegment_present _ k ref) by (by rewrite HA).
    done. }
  assert (HdA : CallState.deref (afterCaller st k callerText env) ref
                = Some (CallState.pushSegment CallState.caller callerText
                          (primaryEmotion callerText env)
                          (emotionConfidence callerText env)
                          (Routes.clock env 0)
                          (CallState.pushTurn LlmConversation.user callerText
                             call))).
  { by rewrite HA, !deref_mutate, Hd. }
  split; [exact HdA |].
  split; [by rewrite HB, !deref_mutate, HdA |].
  split; [by rewrite HB, HA |]. split; [by rewrite HB, HA |].
  intros r Hr. by rewrite HB, HA, !deref_mutate_ne.
Qed.

End routes_more.

(** X18. The sentences that a voice turn classifies one by one are never
    empty, contain none of [.], [!], [?], and have no white space at
    either end. *)
Theorem X18_sentences_are_clean callerText :
  Forall (λ s, trimmed s ∧ Forall (λ c, JS.isTerminator c = false) s)
    (Routes.sentencesOf callerText).
Proof.
  unfold Routes.sentencesOf. apply Forall_forall. intros s Hs.
  apply list_elem_of_filter in Hs as [Hne Hs].
  apply list_elem_of_fmap in Hs as (p & -> & Hp).
  split.
  - unfold trimmed.
    destruct (JS.trim p) as [| c rest] eqn:E; [done |]. split.
    + simpl. f_equal. apply (trim_head p). by rewrite E.
    + destruct (last (c :: rest)) as [z |] eqn:L.
      * simpl. f_equal. apply (trim_last p). by rewrite E.
      * by apply last_None in L.
  - apply trim_Forall.
    assert (Hall : Forall (Forall (λ c, JS.isTerminator c = false))
                     (JS.splitSentences callerText)).
    { apply splitSentences_Forall. by apply Forall_true. }
    rewrite Forall_forall in Hall. by apply Hall.
Qed.

(** X19. A voice turn with audible text whose reply does not carry the
    completion marker always answers 200 with the engine's text, one
    sentence emotion per sentence and [isComplete = false]; the call stays
    registered, its history gains the caller's turn and the agent's turn
    in that order, and nothing is written to storage. In particular a
    failed generation (which yields the fallback text and
    [isComplete = false]) never ends the call. *)
Theorem X19_turn_without_marker_goes_on w callId callerText env ref call :
  CallState.wf (Routes.registry w) →
  CallState.getActiveCall (Routes.registry w) callId = Some ref →
  CallState.deref (Routes.registry w) ref = Some call →
  JS.trim callerText ≠ [] →
  let next :=
    LlmConversation.generateNextResponse
      (CallState.conversationHistory call ++ [userTurn callerText])
      callerText (Routes.chat env) in
  LlmConversation.isComplete next = false →
  ∃ w',
    Routes.processTurn w callId (Some callerText) env
    = (w', Routes.TurnOk (LlmConversation.response next)
             (imap (Routes.sentenceEmotion env) (Routes.sentencesOf callerText))
             false)
    ∧ CallState.getActiveCall (Routes.registry w') callId = Some ref
    ∧ (CallState.conversationHistory <$> CallState.deref (Routes.registry w') ref)
      = Some (CallState.conversationHistory call
                ++ [userTurn callerText;
                    assistantTurn (LlmConversation.response next)])
    ∧ Routes.storage w' = Routes.storage w.
Proof.
  intros Hwf Hget Hd Htrim. cbv zeta. intros Hnext.
  destruct (Hwf _ _ Hget) as (call0 & Hd0 & Hid).
  rewrite Hd in Hd0. injection Hd0 as <-.
  destruct (turn_objects (Routes.registry w) callId ref call callerText env
              Hget Hd) as (HdA & HdB & Hact & _ & _). cbv zeta in HdA, HdB.
  assert (Hn : nextResponse (Routes.registry w) callId callerText ref env
               = LlmConversation.generateNextResponse
                   (CallState.conversationHistory call ++ [userTurn callerText])
                   callerText (Routes.chat env)).
  { unfold nextResponse, Routes.historyAt. by rewrite HdA. }
  rewrite (processTurn_unfold w callId callerText env ref call Hget Hd Hid Htrim).
  cbv zeta. rewrite Hn, Hnext. eexists. split; [reflexivity |].
  cbn [afterTurn Routes.registry Routes.storage].
  split; [unfold CallState.getActiveCall; by rewrite Hact |].
  split; [| done]. rewrite HdB, Hn. simpl. by rewrite <- app_assoc.
Qed.

Lemma X19_turn_without_marker_goes_on_witness :
  CallState.getActiveCall (Routes.registry demoWorld) c1 = Some 0
  ∧ CallState.deref (Routes.registry demoWorld) 0 = Some demoCall
  ∧ JS.trim demoText ≠ []
  ∧ ∃ w',
      (Routes.processTurn demoWorld c1 (Some demoText) (demoEnv demoReply)).1
      = w'
      ∧ CallState.getActiveCall (Routes.registry w') c1 = Some 0
      ∧ Routes.storage w' = Routes.storage demoWorld.
Proof.
  assert (H1 : CallState.getActiveCall (Routes.registry demoWorld) c1 = Some 0)
    by (vm_compute; reflexivity).
  assert (H2 : CallState.deref (Routes.registry demoWorld) 0 = Some demoCall)
    by (vm_compute; reflexivity).
  assert (H3 : JS.trim demoText ≠ []) by (vm_compute; discriminate).
  assert (H4 : LlmConversation.isComplete
                 (LlmConversation.generateNextResponse
                    (CallState.conversationHistory demoCall
                       ++ [userTurn demoText])
                    demoText (Routes.chat (demoEnv demoReply))) = false)
    by (vm_compute; reflexivity).
  split; [exact H1 |]. split; [exact H2 |]. split; [exact H3 |].
  destruct (X19_turn_without_marker_goes_on demoWorld c1 demoText
              (demoEnv demoReply) 0 demoCall demoWorld_wf H1 H2 H3 H4)
    as (w' & Hturn & Hreg & _ & Hsto).
  exists w'. split; [by rewrite Hturn |]. split; [exact Hreg | exact Hsto].
Defined.

Section finalizer.
Implicit Types (w : Routes.World) (fenv : Routes.FinalizeEnv).

Lemma finalizeCall_success w k fenv ref :
  CallState.getActiveCall (Routes.registry w) k = Some ref →
  storageWorks fenv →
  let clientId :=
    from_option CallState.clientId [] (CallState.deref (Routes.registry w) ref) in
  let transcript := CallState.getFullTranscript (Routes.registry w) k in
  let result :=
    Modulate.analyzeEmotions transcript (Routes.transcriptAnalysis fenv) in
  Routes.finalizeCall w k fenv
  = ({| Routes.registry := CallState.removeActiveCall (Routes.registry w) k;
        Routes.hub :=
          Websocket.broadcastCallEvent (Routes.hub w) k clientId
            (js "call_ended")
            (Websocket.EndedData (Some (Routes.intakeSummary fenv))
               (Some (Modulate.profile result)));
        Routes.storage :=
          Routes.storage w
            ++ [Routes.UpdateClient clientId (Routes.updateClientThrows fenv)
                  (Modulate.profile result);
                Routes.UpdateCall k transcript (Modulate.emotions result)
                  (Modulate.sentimentScore result)
                  (Routes.intakeSummary fenv)] |},
     Routes.Returned).
Proof.
  intros Hget [Hcall Hclient]. cbv zeta. unfold Routes.finalizeCall.
  rewrite Hget, Hcall.
  destruct (Routes.updateClientThrows fenv) eqn:E1,
    (Routes.fallbackUpdateThrows fenv) eqn:E2;
    destruct Hclient as [Hc | Hc]; try discriminate Hc;
    rewrite <- app_assoc; reflexivity.
Qed.

Lemma finalizeCall_threw w k fenv w' :
  Routes.finalizeCall w k fenv = (w', Routes.Threw) →
  Routes.registry w' = Routes.registry w
  ∧ Routes.hub w' = Routes.hub w
  ∧ (Routes.storage w' = Routes.storage w
     ∨ ∃ write, Routes.storage w' = Routes.storage w ++ [write]).
Proof.
  unfold Routes.finalizeCall.
  destruct (CallState.getActiveCall (Routes.registry w) k); [| done].
  destruct (Routes.updateClientThrows fenv),
    (Routes.fallbackUpdateThrows fenv), (Routes.updateCallThrows fenv);
    simpl; intros [= <-]; simpl; eauto.
Qed.

Lemma transcript_after_turn (st : CallState.Registry) k ref call callerText env :
  CallState.activeCalls st !! k = Some ref →
  CallState.deref st ref = Some call →
  CallState.getFullTranscript (afterAgent st k callerText ref env) k
  = (match CallState.transcriptSegments call with
     | [] => line CallState.caller callerText
     | _ => CallState.getFullTranscript st k ++ newline
              ++ line CallState.caller callerText
     end)
      ++ newline
      ++ line CallState.agent
           (LlmConversation.response
              (nextResponse st k callerText ref env)).
Proof.
  intros Hk Hd.
  destruct (turn_objects st k ref call callerText env Hk Hd)
    as (_ & HdB & Hact & _). cbv zeta in HdB.
  unfold CallState.getFullTranscript. rewrite Hact, Hk, HdB, Hd.
  cbn [CallState.pushSegment CallState.pushTurn CallState.transcriptSegments].
  rewrite !fmap_app. cbn [fmap list_fmap].
  fold newline. rewrite join_snoc.
  destruct (CallState.transcriptSegments call) as [| s0 segs] eqn:E.
  - reflexivity.
  - rewrite join_snoc. reflexivity.
Qed.

Lemma removeActiveCall_gone (st : CallState.Registry) k :
  CallState.getActiveCall (CallState.removeActiveCall st k) k = None.
Proof.
  unfold CallState.getActiveCall, CallState.removeActiveCall.
  destruct (CallState.activeCalls st !! k) eqn:E; [| done].
  simpl. apply lookup_delete_eq.
Qed.

End finalizer.

(** X20. A finalization that fails leaves the call where it was: when
    [endCall] answers 500 the registry and the hub are exactly as before
    (the call is still registered, nothing was broadcast, so the request
    can be repeated), and at most one storage write got through. *)
Theorem X20_failed_end_keeps_the_call w k fenv w' :
  Routes.endCall w k fenv = (w', Routes.ServerError) →
  Routes.registry w' = Routes.registry w
  ∧ Routes.hub w' = Routes.hub w
  ∧ is_Some (CallState.getActiveCall (Routes.registry w') k)
  ∧ (Routes.storage w' = Routes.storage w
     ∨ ∃ write, Routes.storage w' = Routes.storage w ++ [write]).
Proof.
  unfold Routes.endCall.
  destruct (CallState.getActiveCall (Routes.registry w) k) as [ref |] eqn:E;
    [| done].
  destruct (Routes.finalizeCall w k fenv) as [w1 []] eqn:F; [done |].
  intros [= <-]. destruct (finalizeCall_threw w k fenv w1 F) as (Hr & Hh & Hs).
  split; [done |]. split; [done |]. split; [| done]. rewrite Hr, E. by eexists.
Qed.

Lemma X20_failed_end_keeps_the_call_witness :
  Routes.endCall demoWorld c1 storageDown
  = ((Routes.endCall demoWorld c1 storageDown).1, Routes.ServerError)
  ∧ Routes.registry (Routes.endCall demoWorld c1 storageDown).1
    = Routes.registry demoWorld.
Proof.
  assert (H : Routes.endCall demoWorld c1 storageDown
              = ((Routes.endCall demoWorld c1 storageDown).1,
                 Routes.ServerError))
    by (vm_compute; reflexivity).
  split; [exact H |].
  exact (proj1 (X20_failed_end_keeps_the_call demoWorld c1 storageDown _ H)).
Defined.

(** X21. A finalization whose storage writes get through does, in this
    order: a client update carrying the emotion profile of the full
    transcript, a call update carrying that transcript, its emotions and
    sentiment and the intake summary, one [call_ended] event with the
    summary and the profile, and the removal of the call; finalizing
    again afterwards does nothing. *)
Theorem X21_finalization_effects w k fenv ref call :
  CallState.getActiveCall (Routes.registry w) k = Some ref →
  CallState.deref (Routes.registry w) ref = Some call →
  storageWorks fenv →
  let transcript := CallState.getFullTranscript (Routes.registry w) k in
  let result :=
    Modulate.analyzeEmotions transcript (Routes.transcriptAnalysis fenv) in
  ∃ w',
    Routes.finalizeCall w k fenv = (w', Routes.Returned)
    ∧ CallState.getActiveCall (Routes.registry w') k = None
    ∧ Websocket.published (Routes.hub w')
      = Websocket.published (Routes.hub w)
          ++ [Websocket.CallEvent (js "call_ended") k (CallState.clientId call)
                (Websocket.EndedData (Some (Routes.intakeSummary fenv))
                   (Some (Modulate.profile result)))]
    ∧ Routes.storage w'
      = Routes.storage w
          ++ [Routes.UpdateClient (CallState.clientId call)
                (Routes.updateClientThrows fenv) (Modulate.profile result);
              Routes.UpdateCall k transcript (Modulate.emotions result)
                (Modulate.sentimentScore result) (Routes.intakeSummary fenv)]
    ∧ ∀ fenv', Routes.finalizeCall w' k fenv' = (w', Routes.Returned).
Proof.
  intros Hget Hd Hworks. cbv zeta.
  pose proof (finalizeCall_success w k fenv ref Hget Hworks) as Hfin.
  cbv zeta in Hfin. rewrite Hd in Hfin. cbn [from_option] in Hfin.
  eexists. split; [exact Hfin |].
  cbn [Routes.registry Routes.hub Routes.storage].
  split; [exact (removeActiveCall_gone (Routes.registry w) k) |].
  split; [reflexivity |]. split; [reflexivity |].
  intros fenv'. apply finalizeCall_absent.
  exact (removeActiveCall_gone (Routes.registry w) k).
Qed.

Lemma X21_finalization_effects_witness :
  CallState.getActiveCall (Routes.registry demoWorld) c1 = Some 0
  ∧ CallState.deref (Routes.registry demoWorld) 0 = Some demoCall
  ∧ storageWorks storageUp
  ∧ ∃ w',
      Routes.finalizeCall demoWorld c1 storageUp = (w', Routes.Returned)
      ∧ CallState.getActiveCall (Routes.registry w') c1 = None.
Proof.
  assert (H1 : CallState.getActiveCall (Routes.registry demoWorld) c1 = Some 0)
    by (vm_compute; reflexivity).
  assert (H2 : CallState.deref (Routes.registry demoWorld) 0 = Some demoCall)
    by (vm_compute; reflexivity).
  assert (H3 : storageWorks storageUp) by (split; [| left]; reflexivity).
  split; [exact H1 |]. split; [exact H2 |]. split; [exact H3 |].
  destruct (X21_finalization_effects demoWorld c1 storageUp 0 demoCall
              H1 H2 H3) as (w' & Hfin & Hgone & _).
  exists w'. split; [exact Hfin | exact Hgone].
Defined.

(** X22. A voice turn whose reply carries the completion marker, with
    storage working, finalizes the call before it answers: the answer is
    200 with [isComplete = true], the call is gone from the registry, the
    published stream gains the caller's event, the agent's event and then
    [call_ended], and the transcript written to storage already ends with
    the two lines of this turn. *)
Theorem X22_turn_with_marker_finalizes w callId callerText env ref call :
  CallState.wf (Routes.registry w) →
  CallState.getActiveCall (Routes.registry w) callId = Some ref →
  CallState.deref (Routes.registry w) ref = Some call →
  JS.trim callerText ≠ [] →
  storageWorks (Routes.finalization env) →
  let next :=
    LlmConversation.generateNextResponse
      (CallState.conversationHistory call ++ [userTurn callerText])
      callerText (Routes.chat env) in
  LlmConversation.isComplete next = true →
  ∃ w' m1 m2 data write transcript emotionData sentiment,
    Routes.processTurn w callId (Some callerText) env
    = (w', Routes.TurnOk (LlmConversation.response next)
             (imap (Routes.sentenceEmotion env) (Routes.sentencesOf callerText))
             true)
    ∧ CallState.getActiveCall (Routes.registry w') callId = None
    ∧ Websocket.published (Routes.hub w')
      = Websocket.published (Routes.hub w)
          ++ [Websocket.Transcript m1; Websocket.Transcript m2;
              Websocket.CallEvent (js "call_ended") callId
                (CallState.clientId call) data]
    ∧ Websocket.speaker m1 = CallState.caller
    ∧ Websocket.speaker m2 = CallState.agent
    ∧ Routes.storage w'
      = Routes.storage w
          ++ [write;
              Routes.UpdateCall callId transcript emotionData sentiment
                (Routes.intakeSummary (Routes.finalization env))]
    ∧ transcript
      = (match CallState.transcriptSegments call with
         | [] => line CallState.caller callerText
         | _ => CallState.getFullTranscript (Routes.registry w) callId
                  ++ newline ++ line CallState.caller callerText
         end)
          ++ newline ++ line CallState.agent (LlmConversation.response next).
Proof.
  intros Hwf Hget Hd Htrim Hworks. cbv zeta. intros Hnext.
  destruct (Hwf _ _ Hget) as (call0 & Hd0 & Hid).
  rewrite Hd in Hd0. injection Hd0 as <-.
  destruct (turn_objects (Routes.registry w) callId ref call callerText env
              Hget Hd) as (HdA & HdB & Hact & _ & _). cbv zeta in HdA, HdB.
  assert (Hn : nextResponse (Routes.registry w) callId callerText ref env
               = LlmConversation.generateNextResponse
                   (CallState.conversationHistory call ++ [userTurn callerText])
                   callerText (Routes.chat env)).
  { unfold nextResponse, Routes.historyAt. by rewrite HdA. }
  rewrite (processTurn_unfold w callId callerText env ref call Hget Hd Hid Htrim).
  cbv zeta. rewrite Hn, Hnext.
  assert (Hget' : CallState.getActiveCall
                    (Routes.registry
                       (afterTurn w callId (CallState.clientId call)
                          callerText ref env)) callId = Some ref).
  { cbn [afterTurn Routes.registry]. unfold CallState.getActiveCall.
    by rewrite Hact. }
  rewrite (finalizeCall_success _ callId _ ref Hget' Hworks).
  cbn [afterTurn Routes.registry Routes.hub Routes.storage].
  rewrite HdB. cbn [from_option CallState.pushSegment CallState.pushTurn
                    CallState.clientId].
  eexists _, _, _, _, _, _, _, _. split; [reflexivity |].
  cbn [Routes.registry Routes.hub Routes.storage].
  split; [exact (removeActiveCall_gone _ callId) |].
  split.
  { cbn [Websocket.broadcastCallEvent Websocket.broadcastTranscriptSegment
         Websocket.published].
    rewrite <- !app_assoc. reflexivity. }
  split; [reflexivity |]. split; [reflexivity |]. split; [reflexivity |].
  rewrite (transcript_after_turn (Routes.registry w) callId ref call
             callerText env Hget Hd).
  by rewrite Hn.
Qed.

Lemma X22_turn_with_marker_finalizes_witness :
  CallState.getActiveCall (Routes.registry demoWorld) c1 = Some 0
  ∧ CallState.deref (Routes.registry demoWorld) 0 = Some demoCall
  ∧ JS.trim demoText ≠ []
  ∧ storageWorks (Routes.finalization (demoEnv "Thank you. [CALL_COMPLETE]"))
  ∧ CallState.getActiveCall
      (Routes.registry
         (Routes.processTurn demoWorld c1 (Some demoText)
            (demoEnv "Thank you. [CALL_COMPLETE]")).1) c1 = None.
Proof.
  assert (H1 : CallState.getActiveCall (Routes.registry demoWorld) c1 = Some 0)
    by (vm_compute; reflexivity).
  assert (H2 : CallState.deref (Routes.registry demoWorld) 0 = Some demoCall)
    by (vm_compute; reflexivity).
  assert (H3 : JS.trim demoText ≠ []) by (vm_compute; discriminate).
  assert (H4 : storageWorks
                 (Routes.finalization (demoEnv "Thank you. [CALL_COMPLETE]")))
    by (split; [| left]; reflexivity).
  assert (H5 : LlmConversation.isComplete
                 (LlmConversation.generateNextResponse
                    (CallState.conversationHistory demoCall
                       ++ [userTurn demoText])
                    demoText
                    (Routes.chat (demoEnv "Thank you. [CALL_COMPLETE]")))
               = true)
    by (vm_compute; reflexivity).
  split; [exact H1 |]. split; [exact H2 |]. split; [exact H3 |].
  split; [exact H4 |].
  destruct (X22_turn_with_marker_finalizes demoWorld c1 demoText
              (demoEnv "Thank you. [CALL_COMPLETE]") 0 demoCall
              demoWorld_wf H1 H2 H3 H4 H5)
    as (w' & m1 & m2 & data & write & transcript & emotionData & sentiment
        & Hturn & Hgone & _).
  by rewrite Hturn.
Defined.

(** X23. Over a voice turn that does not complete the call, the full
    transcript gains exactly two lines, ["Caller: <text>"] and then
    ["Agent: <response>"], after what was there. *)
Theorem X23_turn_adds_two_transcript_lines w callId callerText env ref call :
  CallState.wf (Routes.registry w) →
  CallState.getActiveCall (Routes.registry w) callId = Some ref →
  CallState.deref (Routes.registry w) ref = Some call →
  JS.trim callerText ≠ [] →
  let next :=
    LlmConversation.generateNextResponse
      (CallState.conversationHistory call ++ [userTurn callerText])
      callerText (Routes.chat env) in
  LlmConversation.isComplete next = false →
  CallState.getFullTranscript
    (Routes.registry (Routes.processTurn w callId (Some callerText) env).1)
    callId
  = (match CallState.transcriptSegments call with
     | [] => line CallState.caller callerText
     | _ => CallState.getFullTranscript (Routes.registry w) callId
              ++ newline ++ line CallState.caller callerText
     end)
      ++ newline ++ line CallState.agent (LlmConversation.response next).
Proof.
  intros Hwf Hget Hd Htrim. cbv zeta. intros Hnext.
  destruct (Hwf _ _ Hget) as (call0 & Hd0 & Hid).
  rewrite Hd in Hd0. injection Hd0 as <-.
  destruct (turn_objects (Routes.registry w) callId ref call callerText env
              Hget Hd) as (HdA & _). cbv zeta in HdA.
  assert (Hn : nextResponse (Routes.registry w) callId callerText ref env
               = LlmConversation.generateNextResponse
                   (CallState.conversationHistory call ++ [userTurn callerText])
                   callerText (Routes.chat env)).
  { unfold nextResponse, Routes.historyAt. by rewrite HdA. }
  rewrite (processTurn_unfold w callId callerText env ref call Hget Hd Hid Htrim).
  cbv zeta. rewrite Hn, Hnext. cbn [fst afterTurn Routes.registry].
  rewrite (transcript_after_turn (Routes.registry w) callId ref call
             callerText env Hget Hd).
  by rewrite Hn.
Qed.

Lemma X23_turn_adds_two_transcript_lines_witness :
  CallState.getActiveCall (Routes.registry demoWorld) c1 = Some 0
  ∧ CallState.deref (Routes.registry demoWorld) 0 = Some demoCall
  ∧ JS.trim demoText ≠ []
  ∧ CallState.getFullTranscript
      (Routes.registry
         (Routes.processTurn demoWorld c1 (Some demoText)
            (demoEnv demoReply)).1) c1
    = js "Agent: Hello." ++ newline
        ++ js "Caller: I lost my job and I'm scared." ++ newline
        ++ js "Agent: I'm sorry to hear that. Where are you staying?".
Proof.
  assert (H1 : CallState.getActiveCall (Routes.registry demoWorld) c1 = Some 0)
    by (vm_compute; reflexivity).
  assert (H2 : CallState.deref (Routes.registry demoWorld) 0 = Some demoCall)
    by (vm_compute; reflexivity).
  assert (H3 : JS.trim demoText ≠ []) by (vm_compute; discriminate).
  assert (H4 : LlmConversation.isComplete
                 (LlmConversation.generateNextResponse
                    (CallState.conversationHistory demoCall
                       ++ [userTurn demoText])
                    demoText (Routes.chat (demoEnv demoReply))) = false)
    by (vm_compute; reflexivity).
  split; [exact H1 |]. split; [exact H2 |]. split; [exact H3 |].
  etransitivity;
    [exact (X23_turn_adds_two_transcript_lines demoWorld c1 demoText
              (demoEnv demoReply) 0 demoCall demoWorld_wf H1 H2 H3 H4) |].
  vm_compute. reflexivity.
Defined.

(** X24. What a listener of the call sees during a voice turn that does
    not complete the call: an open socket that is in the set of the
    [callId] key and not in the set of the client's key is sent exactly
    two messages, the caller's transcript event (with the per-sentence
    emotions) and then the agent's, behind whatever it was sent before. *)
Theorem X24_listener_gets_caller_then_agent w callId callerText env ref call
    ws s :
  CallState.wf (Routes.registry w) →
  CallState.getActiveCall (Routes.registry w) callId = Some ref →
  CallState.deref (Routes.registry w) ref = Some call →
  JS.trim callerText ≠ [] →
  let next :=
    LlmConversation.generateNextResponse
      (CallState.conversationHistory call ++ [userTurn callerText])
      callerText (Routes.chat env) in
  LlmConversation.isComplete next = false →
  tidy (Routes.hub w) →
  Websocket.sockets (Routes.hub w) !! ws = Some s →
  Websocket.readyState s = Websocket.OPEN →
  ws ∈ subscribers (Routes.hub w) callId →
  ws ∉ subscribers (Routes.hub w) (Websocket.clientKey (CallState.clientId call)) →
  ∃ m1 m2,
    Websocket.sockets
      (Routes.hub (Routes.processTurn w callId (Some callerText) env).1) !! ws
    = Some {| Websocket.readyState := Websocket.OPEN;
              Websocket.sent :=
                Websocket.sent s
                  ++ [Websocket.Transcript m1; Websocket.Transcript m2] |}
    ∧ (Websocket.speaker m1 = CallState.caller
       ∧ Websocket.text m1 = callerText
       ∧ Websocket.sentenceEmotions m1
         = Some (imap (Routes.sentenceEmotion env)
                   (Routes.sentencesOf callerText)))
    ∧ (Websocket.speaker m2 = CallState.agent
       ∧ Websocket.text m2 = LlmConversation.response next
       ∧ Websocket.sentenceEmotions m2 = None).
Proof.
  intros Hwf Hget Hd Htrim. cbv zeta.
  intros Hnext Htidy Hs Hopen Hin Hout.
  destruct (Hwf _ _ Hget) as (call0 & Hd0 & Hid).
  rewrite Hd in Hd0. injection Hd0 as <-.
  destruct (turn_objects (Routes.registry w) callId ref call callerText env
              Hget Hd) as (HdA & _). cbv zeta in HdA.
  assert (Hn : nextResponse (Routes.registry w) callId callerText ref env
               = LlmConversation.generateNextResponse
                   (CallState.conversationHistory call ++ [userTurn callerText])
                   callerText (Routes.chat env)).
  { unfold nextResponse, Routes.historyAt. by rewrite HdA. }
  rewrite (processTurn_unfold w callId callerText env ref call Hget Hd Hid Htrim).
  cbv zeta. rewrite Hn, Hnext. cbn [fst afterTurn Routes.hub].
  rewrite <- Hid in Hin. clear Hn. rewrite <- Hid.
  assert (Hcopies :
    copies ws (subscribers (Routes.hub w) (CallState.callId call))
    + copies ws
        (subscribers (Routes.hub w)
           (Websocket.clientKey (CallState.clientId call))) = 1).
  { assert (Hnd : ∀ key, NoDup (subscribers (Routes.hub w) key)).
    { intros key. unfold subscribers.
      destruct (Websocket.callSubscribers (Routes.hub w) !! key) eqn:E;
        [by apply (Htidy key) | apply NoDup_nil_2]. }
    rewrite !copies_NoDup by done.
    rewrite decide_True by done. by rewrite decide_False. }
  set (m1 := callerEvent (Routes.registry w) (CallState.callId call)
               (CallState.clientId call) callerText ref env).
  set (m2 := agentEvent (Routes.registry w) (CallState.callId call)
               (CallState.clientId call) callerText ref env).
  exists m1, m2.
  pose proof (transcript_fan_out (Routes.hub w) ws s m1 Hs) as H1.
  pose proof (transcript_fan_out _ ws _ m2 H1) as H2.
  change (subscribers (Websocket.broadcastTranscriptSegment (Routes.hub w) m1))
    with (subscribers (Routes.hub w)) in H2.
  cbn [m1 m2 callerEvent agentEvent Websocket.callId Websocket.clientId]
    in H1, H2.
  rewrite Hcopies in H1, H2. fold m1 m2 in H1, H2.
  rewrite H2. unfold delivered. simpl. rewrite Hopen. simpl.
  rewrite <- app_assoc. split; [reflexivity |].
  repeat split; done.
Qed.

Lemma X24_listener_gets_caller_then_agent_witness :
  ∃ m1 m2,
    Websocket.sockets
      (Routes.hub
         (Routes.processTurn listenerWorld c1 (Some demoText)
            (demoEnv demoReply)).1) !! 7
    = Some {| Websocket.readyState := Websocket.OPEN;
              Websocket.sent :=
                [Websocket.Connected (Some c1) None;
                 Websocket.Transcript m1; Websocket.Transcript m2] |}
    ∧ Websocket.text m1 = demoText
    ∧ Websocket.text m2 = js demoReply.
Proof.
  assert (Hwf : CallState.wf (Routes.registry listenerWorld))
    by exact demoWorld_wf.
  assert (H1 : CallState.getActiveCall (Routes.registry listenerWorld) c1
               = Some 0) by (vm_compute; reflexivity).
  assert (H2 : CallState.deref (Routes.registry listenerWorld) 0
               = Some demoCall) by (vm_compute; reflexivity).
  assert (H3 : JS.trim demoText ≠ []) by (vm_compute; discriminate).
  assert (H4 : LlmConversation.isComplete
                 (LlmConversation.generateNextResponse
                    (CallState.conversationHistory demoCall
                       ++ [userTurn demoText])
                    demoText (Routes.chat (demoEnv demoReply))) = false)
    by (vm_compute; reflexivity).
  assert (H5 : tidy (Routes.hub listenerWorld)).
  { unfold listenerWorld, hubRun. cbn [Routes.hub foldl].
    apply tidy_step, tidy_step. intros k m Hk. simpl in Hk.
    by rewrite lookup_empty in Hk. }
  assert (H6 : Websocket.sockets (Routes.hub listenerWorld) !! 7
               = Some {| Websocket.readyState := Websocket.OPEN;
                         Websocket.sent :=
                           [Websocket.Connected (Some c1) None] |})
    by (vm_compute; reflexivity).
  assert (H7 : 7 ∈ subscribers (Routes.hub listenerWorld) c1).
  { replace (subscribers (Routes.hub listenerWorld) c1) with [0; 7]
      by (vm_compute; reflexivity).
    set_solver. }
  assert (H8 : 7 ∉ subscribers (Routes.hub listenerWorld)
                     (Websocket.clientKey (CallState.clientId demoCall))).
  { replace (subscribers (Routes.hub listenerWorld)
               (Websocket.clientKey (CallState.clientId demoCall)))
      with (@nil nat) by (vm_compute; reflexivity).
    set_solver. }
  destruct (X24_listener_gets_caller_then_agent listenerWorld c1 demoText
              (demoEnv demoReply) 0 demoCall 7 _ Hwf H1 H2 H3 H4 H5 H6
              eq_refl H7 H8)
    as (m1 & m2 & Hs & (_ & Ht1 & _) & (_ & Ht2 & _)).
  exists m1, m2. split; [exact Hs |]. split; [exact Ht1 |].
  rewrite Ht2. vm_compute. reflexivity.
Defined.

Section routes_invariant.

Implicit Types (w : Routes.World) (st : CallState.Registry).

Lemma run_app ops1 ops2 st :
  CallState.run (ops1 ++ ops2) st = CallState.run ops2 (CallState.run ops1 st).
Proof. unfold CallState.run. apply foldl_app. Qed.

Lemma sound_run w w' ops :
  sound w → Routes.registry w' = CallState.run ops (Routes.registry w) →
  sound w'.
Proof.
  intros [Hwf Hc] E. unfold sound. rewrite E.
  split; [by apply wf_run | by apply counted_run].
Qed.

(** Each route changes the registry only through the exported mutators. *)
Lemma finalizeCall_ops w k fenv :
  ∃ ops, Routes.registry (Routes.finalizeCall w k fenv).1
         = CallState.run ops (Routes.registry w).
Proof.
  unfold Routes.finalizeCall.
  destruct (CallState.getActiveCall (Routes.registry w) k);
    [| by exists []].
  destruct (Routes.updateClientThrows fenv),
    (Routes.fallbackUpdateThrows fenv), (Routes.updateCallThrows fenv);
    simpl; first [by exists [] | by exists [CallState.Remove k]].
Qed.

Lemma processTurn_ops w k text env :
  ∃ ops, Routes.registry (Routes.processTurn w k text env).1
         = CallState.run ops (Routes.registry w).
Proof.
  unfold Routes.processTurn.
  destruct (CallState.getActiveCall (Routes.registry w) k) as [ref |];
    [| by exists []].
  destruct text as [callerText |]; [| by exists []].
  destruct (negb (JS.truthy callerText) || negb (JS.truthy (JS.trim callerText)));
    [by exists [] |].
  cbv zeta.
  match goal with
  | |- context [CallState.addTranscriptSegment
                  (CallState.addConversationTurn
                     (CallState.addTranscriptSegment
                        (CallState.addConversationTurn _ ?k1 ?r1 ?c1)
                        ?k2 ?s2 ?t2 ?e2 ?q2 ?n2) ?k3 ?r3 ?c3)
                  ?k4 ?s4 ?t4 ?e4 ?q4 ?n4] =>
      set (ops := [CallState.AddTurn k1 r1 c1;
                   CallState.AddSegment k2 s2 t2 e2 q2 n2;
                   CallState.AddTurn k3 r3 c3;
                   CallState.AddSegment k4 s4 t4 e4 q4 n4])
  end.
  match goal with
  | |- context [if ?b then _ else _] => destruct b
  end; [| by exists ops].
  match goal with
  | |- context [Routes.finalizeCall ?W ?K ?F] =>
      destruct (finalizeCall_ops W K F) as [more Hmore];
      destruct (Routes.finalizeCall W K F) as [w'' []]
  end; simpl in Hmore |- *; exists (ops ++ more);
    rewrite Hmore, run_app; reflexivity.
Qed.

Lemma endCall_ops w k fenv :
  ∃ ops, Routes.registry (Routes.endCall w k fenv).1
         = CallState.run ops (Routes.registry w).
Proof.
  unfold Routes.endCall.
  destruct (CallState.getActiveCall (Routes.registry w) k);
    [| by exists []].
  destruct (finalizeCall_ops w k fenv) as [ops Hops].
  destruct (Routes.finalizeCall w k fenv) as [w' []]; by exists ops.
Qed.

Lemma startCall_ops w env :
  ∃ ops, Routes.registry (Lifecycle.startCall w env).1.1
         = CallState.run ops (Routes.registry w).
Proof.
  unfold Lifecycle.startCall.
  destruct (Lifecycle.getClientThrows env); [by exists [] |].
  destruct (Lifecycle.client env) as [row |]; [| by exists []].
  destruct (Lifecycle.createCallThrows env); [by exists [] |].
  cbv zeta.
  destruct (Lifecycle.updateClientThrows env); cbn [fst Routes.registry].
  - by eexists [CallState.Create _ _ _ _].
  - by eexists [CallState.Create _ _ _ _; CallState.AddTurn _ _ _;
                CallState.AddSegment _ _ _ _ _ _].
Qed.

Lemma completeCall_ops w transcript env :
  ∃ ops, Routes.registry (Lifecycle.completeCall w transcript env).1.1
         = CallState.run ops (Routes.registry w).
Proof.
  unfold Lifecycle.completeCall.
  destruct (negb (Lifecycle.present transcript)); [by exists [] |].
  cbv zeta.
  destruct (Lifecycle.getCallThrows env); [by exists [] |].
  destruct (Lifecycle.call env) as [row |]; [| by exists []].
  destruct (Lifecycle.updateCallThrows env); [by exists [] |].
  destruct (Lifecycle.assessClientThrows env); [by exists [] |].
  by exists [CallState.Remove (Lifecycle.call_id row)].
Qed.

Lemma demoWorld_sound : sound demoWorld.
Proof.
  split; [exact demoWorld_wf |].
  apply (counted_run demoOps CallState.empty). constructor.
Qed.

End routes_invariant.

(** X25. The four state-changing routes and the finalizer keep the
    registry sound: if every key of the registry leads to a live call
    object carrying that key, and every call object has [turnIndex] equal
    to the number of its segments with segment [i] storing [i], then the
    same holds after a voice turn, after ending a call, after a
    finalization, after starting a call and after completing one,
    whatever the request and whatever the collaborators do (including
    every failure path). *)
Theorem X25_routes_keep_the_registry_sound w :
  sound w →
  (∀ callId text env, sound (Routes.processTurn w callId text env).1)
  ∧ (∀ callId fenv, sound (Routes.endCall w callId fenv).1)
  ∧ (∀ callId fenv, sound (Routes.finalizeCall w callId fenv).1)
  ∧ (∀ env, sound (Lifecycle.startCall w env).1.1)
  ∧ (∀ transcript env, sound (Lifecycle.completeCall w transcript env).1.1).
Proof.
  intros Hs. split; [| split; [| split; [| split]]].
  - intros callId text env.
    destruct (processTurn_ops w callId text env) as [ops E].
    exact (sound_run _ _ _ Hs E).
  - intros callId fenv. destruct (endCall_ops w callId fenv) as [ops E].
    exact (sound_run _ _ _ Hs E).
  - intros callId fenv. destruct (finalizeCall_ops w callId fenv) as [ops E].
    exact (sound_run _ _ _ Hs E).
  - intros env. destruct (startCall_ops w env) as [ops E].
    exact (sound_run _ _ _ Hs E).
  - intros transcript env.
    destruct (completeCall_ops w transcript env) as [ops E].
    exact (sound_run _ _ _ Hs E).
Qed.

Lemma X25_routes_keep_the_registry_sound_witness :
  sound (Routes.processTurn demoWorld c1 (Some demoText) (demoEnv demoReply)).1
  ∧ sound (Lifecycle.startCall demoWorld demoStart).1.1.
Proof.
  pose proof (X25_routes_keep_the_registry_sound demoWorld demoWorld_sound)
    as (Hturn & _ & _ & Hstart & _).
  split; [apply Hturn | apply Hstart].
Defined.



Section lifecycle.

Implicit Types (w : Routes.World) (st : CallState.Registry).

Lemma greeting_nonempty outcome :
  LlmConversation.generateInitialGreeting outcome ≠ [].
Proof.
  destruct outcome as [| [c |]]; simpl; try discriminate.
  destruct c; simpl; discriminate.
Qed.

Lemma created_lookup st callId clientId sid now :
  CallState.activeCalls
    (CallState.createActiveCall st callId clientId sid now).1 !! callId
  = Some (length (CallState.heap st)).
Proof. simpl. apply lookup_insert_eq. Qed.

Lemma created_deref st callId clientId sid now :
  CallState.deref (CallState.createActiveCall st callId clientId sid now).1
    (length (CallState.heap st))
  = Some {| CallState.callId := callId;
            CallState.clientId := clientId;
            CallState.twilioCallSid := sid;
            CallState.conversationHistory := [];
            CallState.transcriptSegments := [];
            CallState.turnIndex := 0;
            CallState.startedAt := now |}.
Proof. unfold CallState.deref. simpl. by apply list_lookup_middle. Qed.

End lifecycle.

(** X27. Starting a call when storage answers: the route replies 201
    with the new call id and a greeting that is never empty; it asks
    storage for the call row and then for the client status [in-call];
    the new call is registered under the row's id with the session id
    [web-<time>], holding exactly one history entry (the greeting, as
    assistant) and exactly one transcript segment (the greeting, as
    agent, neutral, 0.8, index 0) with [turnIndex] 1; its transcript
    reads ["Agent: <greeting>"]; and exactly two messages are published,
    [call_started] and then the greeting with turn index 0, the index
    stored in the segment.  This holds whether or not the id was already
    registered. *)
Theorem X27_started_call_holds_the_greeting w env row :
  Lifecycle.getClientThrows env = false →
  Lifecycle.client env = Some row →
  Lifecycle.createCallThrows env = false →
  Lifecycle.updateClientThrows env = false →
  let callId := Lifecycle.newCallId env in
  let clientId := Lifecycle.client_id row in
  let g := LlmConversation.generateInitialGreeting (Lifecycle.greeting env) in
  let callSid := js "web-" ++ Lifecycle.showZ (Lifecycle.clock env 0) in
  let w' := (Lifecycle.startCall w env).1.1 in
  (Lifecycle.startCall w env).2 = Lifecycle.Created callId g
  ∧ g ≠ []
  ∧ (Lifecycle.startCall w env).1.2
    = [Lifecycle.CreateCall clientId callSid;
       Lifecycle.SetClientStatus clientId (js "in-call")]
  ∧ (∃ ref,
       CallState.getActiveCall (Routes.registry w') callId = Some ref
       ∧ CallState.deref (Routes.registry w') ref
         = Some {| CallState.callId := callId;
                   CallState.clientId := clientId;
                   CallState.twilioCallSid := callSid;
                   CallState.conversationHistory := [assistantTurn g];
                   CallState.transcriptSegments :=
                     [ {| CallState.Seg.speaker := CallState.agent;
                          CallState.Seg.text := g;
                          CallState.Seg.emotion := Modulate.neutral;
                          CallState.Seg.confidence := 8 # 10;
                          CallState.Seg.timestamp := Lifecycle.clock env 2;
                          CallState.Seg.turnIndex := 0 |} ];
                   CallState.turnIndex := 1;
                   CallState.startedAt := Lifecycle.clock env 1 |})
  ∧ CallState.getFullTranscript (Routes.registry w') callId
    = line CallState.agent g
  ∧ Websocket.published (Routes.hub w')
    = Websocket.published (Routes.hub w)
        ++ [ Websocket.CallEvent (js "call_started") callId clientId
               (Websocket.StartedData callId clientId
                  (Lifecycle.client_name row));
             Websocket.Transcript
               {| Websocket.callId := callId;
                  Websocket.clientId := clientId;
                  Websocket.speaker := CallState.agent;
                  Websocket.text := g;
                  Websocket.emotion := Modulate.neutral;
                  Websocket.confidence := 8 # 10;
                  Websocket.timestamp := Lifecycle.clock env 3;
                  Websocket.turnIndex := 0;
                  Websocket.sentenceEmotions := None |} ]
  ∧ Websocket.callSubscribers (Routes.hub w')
    = Websocket.callSubscribers (Routes.hub w)
  ∧ Routes.storage w' = Routes.storage w.
Proof.
  intros H1 H2 H3 H4. cbv zeta. unfold Lifecycle.startCall.
  rewrite H1, H2, H3, H4. cbv zeta. cbn [fst snd Routes.registry Routes.hub
                                         Routes.storage].
  set (callId := Lifecycle.newCallId env).
  set (clientId := Lifecycle.client_id row).
  set (g := LlmConversation.generateInitialGreeting (Lifecycle.greeting env)).
  set (callSid := js "web-" ++ Lifecycle.showZ (Lifecycle.clock env 0)).
  set (st1 := (CallState.createActiveCall (Routes.registry w) callId clientId
                 callSid (Lifecycle.clock env 1)).1).
  set (ref := length (CallState.heap (Routes.registry w))).
  assert (Hk : CallState.activeCalls st1 !! callId = Some ref)
    by apply created_lookup.
  assert (Hd : CallState.deref st1 ref = Some _) by apply created_deref.
  rewrite (addConversationTurn_present st1 callId ref _ _ Hk).
  rewrite (addTranscriptSegment_present _ callId ref); [| exact Hk].
  assert (Hd' :
    CallState.deref
      (CallState.mutate
         (CallState.pushSegment CallState.agent g Modulate.neutral (8 # 10)
            (Lifecycle.clock env 2)) ref
         (CallState.mutate (CallState.pushTurn LlmConversation.assistant g)
            ref st1)) ref
    = Some {| CallState.callId := callId;
              CallState.clientId := clientId;
              CallState.twilioCallSid := callSid;
              CallState.conversationHistory := [assistantTurn g];
              CallState.transcriptSegments :=
                [ {| CallState.Seg.speaker := CallState.agent;
                     CallState.Seg.text := g;
                     CallState.Seg.emotion := Modulate.neutral;
                     CallState.Seg.confidence := 8 # 10;
                     CallState.Seg.timestamp := Lifecycle.clock env 2;
                     CallState.Seg.turnIndex := 0 |} ];
              CallState.turnIndex := 1;
              CallState.startedAt := Lifecycle.clock env 1 |}).
  { rewrite !deref_mutate, Hd. reflexivity. }
  split; [reflexivity |]. split; [apply greeting_nonempty |].
  split; [reflexivity |].
  split; [exists ref; split; [exact Hk | exact Hd'] |].
  split.
  { unfold CallState.getFullTranscript.
    change (CallState.activeCalls (CallState.mutate _ ref (CallState.mutate _ ref st1)))
      with (CallState.activeCalls st1).
    rewrite Hk, Hd'. simpl. unfold line, CallState.renderSegment. simpl.
    reflexivity. }
  split; [simpl; by rewrite <- app_assoc |].
  split; reflexivity.
Qed.

Lemma X27_started_call_holds_the_greeting_witness :
  (Lifecycle.startCall emptyWorld demoStart).2
  = Lifecycle.Created c1
      (js "Hello, thank you for calling Haven Housing Assistance. I'm here to help connect you with housing resources. Can you start by telling me about your current living situation?")
  ∧ (Lifecycle.startCall emptyWorld demoStart).1.2
    = [Lifecycle.CreateCall u1 (js "web-1700000000000");
       Lifecycle.SetClientStatus u1 (js "in-call")].
Proof.
  pose proof (X27_started_call_holds_the_greeting emptyWorld demoStart
                demoClient eq_refl eq_refl eq_refl eq_refl)
    as (Hr & _ & Hq & _).
  split; [exact Hr | exact Hq].
Defined.

(** X28. A start request that is not answered with 201 sends nothing
    to any socket and leaves the storage writes as they were.  Either the
    whole world is unchanged and no storage request got through (the
    answer being 404 exactly when [getClient] returned no row), or the
    client-status update failed: then the answer is 500, only the
    [createCall] request got through, and the new call stays registered,
    empty: no history, no segments, [turnIndex] 0. *)
Theorem X28_failed_start w env :
  (∀ callId g, (Lifecycle.startCall w env).2 ≠ Lifecycle.Created callId g) →
  let w' := (Lifecycle.startCall w env).1.1 in
  Routes.hub w' = Routes.hub w
  ∧ Routes.storage w' = Routes.storage w
  ∧ ((w' = w ∧ (Lifecycle.startCall w env).1.2 = []
      ∧ ((Lifecycle.startCall w env).2 = Lifecycle.ClientNotFound
         ↔ Lifecycle.getClientThrows env = false
           ∧ Lifecycle.client env = None))
     ∨ (Lifecycle.updateClientThrows env = true
        ∧ (Lifecycle.startCall w env).2 = Lifecycle.StartError
        ∧ ∃ row ref call,
            Lifecycle.client env = Some row
            ∧ (Lifecycle.startCall w env).1.2
              = [Lifecycle.CreateCall (Lifecycle.client_id row)
                   (CallState.twilioCallSid call)]
            ∧ CallState.getActiveCall (Routes.registry w')
                (Lifecycle.newCallId env) = Some ref
            ∧ CallState.deref (Routes.registry w') ref = Some call
            ∧ CallState.conversationHistory call = []
            ∧ CallState.transcriptSegments call = []
            ∧ CallState.turnIndex call = 0)).
Proof.
  cbv zeta. unfold Lifecycle.startCall.
  destruct (Lifecycle.getClientThrows env) eqn:E1.
  { intros _. split; [done |]. split; [done |]. left.
    split; [done |]. split; [done |]. split; [done | by intros [? _]]. }
  destruct (Lifecycle.client env) as [row |] eqn:E2.
  2:{ intros _. split; [done |]. split; [done |]. left.
      split; [done |]. split; [done |]. done. }
  destruct (Lifecycle.createCallThrows env) eqn:E3.
  { intros _. split; [done |]. split; [done |]. left.
    split; [done |]. split; [done |]. split; [done | by intros [_ ?]]. }
  cbv zeta. destruct (Lifecycle.updateClientThrows env) eqn:E4.
  - intros _. cbn [fst snd Routes.registry Routes.hub Routes.storage].
    split; [done |]. split; [done |]. right.
    split; [done |]. split; [done |].
    eexists row, _, _. split; [done |].
    split; [| split; [apply created_lookup |
                      split; [apply created_deref | done]]].
    reflexivity.
  - intros H. exfalso. by eapply H.
Qed.

Lemma X28_failed_start_witness :
  Routes.hub (Lifecycle.startCall demoWorld noClient).1.1 = Routes.hub demoWorld.
Proof.
  refine (proj1 (X28_failed_start demoWorld noClient _)).
  intros callId g. vm_compute. discriminate.
Defined.

(** X29. The completion route.  Without a transcript in the body (or
    with an empty one) it answers 400, makes no request and changes
    nothing; whenever the answer is not 200 the world is unchanged, so a
    call that was registered still is; on 200 the body held a non-empty
    transcript, the two storage requests were made in order with the
    emotions, score and summary computed from that transcript, the call
    is no longer registered, every other call is registered as before,
    and exactly one [call_ended] event without summary and profile is
    published. *)
Theorem X29_complete_call w transcript env :
  let r := Lifecycle.completeCall w transcript env in
  (Lifecycle.present transcript = false →
     r = (w, [], Lifecycle.TranscriptRequired))
  ∧ (r.2 ≠ Lifecycle.Completed → r.1.1 = w)
  ∧ (r.2 = Lifecycle.Completed →
     ∃ row text,
       Lifecycle.call env = Some row ∧ transcript = Some text ∧ text ≠ []
       ∧ (let result := Modulate.analyzeEmotions text (Lifecycle.analysis env) in
          r.1.2
          = [Lifecycle.CompleteCall (Lifecycle.call_id row) text
               (Modulate.emotions result) (Modulate.sentimentScore result)
               (Lifecycle.basicSummary (Lifecycle.sortInconsistent env)
                  (Modulate.profile result));
             Lifecycle.AssessClient (Lifecycle.call_clientId row)
               (Modulate.profile result)])
       ∧ CallState.getActiveCall (Routes.registry r.1.1)
           (Lifecycle.call_id row) = None
       ∧ (∀ k, k ≠ Lifecycle.call_id row →
            CallState.getActiveCall (Routes.registry r.1.1) k
            = CallState.getActiveCall (Routes.registry w) k)
       ∧ Websocket.published (Routes.hub r.1.1)
         = Websocket.published (Routes.hub w)
             ++ [Websocket.CallEvent (js "call_ended") (Lifecycle.call_id row)
                   (Lifecycle.call_clientId row)
                   (Websocket.EndedData None None)]
       ∧ Routes.storage r.1.1 = Routes.storage w).
Proof.
  cbv zeta. unfold Lifecycle.completeCall.
  destruct (Lifecycle.present transcript) eqn:Hp; cbn [negb];
    [| by repeat split].
  split; [done |]. cbv zeta.
  destruct (Lifecycle.getCallThrows env); [by split |].
  destruct (Lifecycle.call env) as [row |]; [| by split].
  destruct (Lifecycle.updateCallThrows env); [by split |].
  destruct (Lifecycle.assessClientThrows env); [by split |].
  split; [done |]. intros _. cbn [fst snd Routes.registry Routes.hub
                                  Routes.storage].
  destruct transcript as [text |]; [| discriminate Hp].
  exists row, text. split; [done |]. split; [done |].
  split; [by destruct text |]. split; [reflexivity |].
  split; [apply removeActiveCall_gone |].
  split; [| split; reflexivity].
  intros k Hk. unfold CallState.getActiveCall, CallState.removeActiveCall.
  destruct (CallState.activeCalls (Routes.registry w) !! Lifecycle.call_id row);
    [| done].
  simpl. by apply lookup_delete_ne.
Qed.

Lemma X29_complete_call_witness :
  (Lifecycle.completeCall demoWorld (Some demoText) assessFails).1.1 = demoWorld
  ∧ CallState.getActiveCall
      (Routes.registry
         (Lifecycle.completeCall demoWorld (Some demoText) demoComplete).1.1)
      c1 = None.
Proof.
  pose proof (X29_complete_call demoWorld (Some demoText) assessFails)
    as (_ & Hkeep & _).
  pose proof (X29_complete_call demoWorld (Some demoText) demoComplete)
    as (_ & _ & Hdone).
  split.
  - apply Hkeep. vm_compute. discriminate.
  - destruct (Hdone eq_refl) as (row & text & Hrow & _ & _ & _ & Hgone & _).
    injection Hrow as <-. exact Hgone.
Defined.

Section ranking.

Implicit Types (x : jsstring * Q) (l : list (jsstring * Q)).





End ranking.



(** With NaN among the shares the order is the engine's. *)
Example ranking_with_NaN_is_left_to_the_engine engine :
  Lifecycle.sortDesc engine
    [(js "hope", JS.Num (5 # 10)); (js "toString", JS.NaN);
     (js "neutral", JS.Num (7 # 10))]
  = engine [(js "hope", JS.Num (5 # 10)); (js "toString", JS.NaN);
            (js "neutral", JS.Num (7 # 10))].
Proof. reflexivity. Qed.
